(** * ComplianceDocEvaluator: the finding-generation and scoring engine

    A shallow embedding of [analysis.js] (chunking, response recovery,
    the AU heuristic rules, gap-fill, remediation plan and scoring),
    with the properties of the specification stated over it.

    Conventions of the embedding.
    - A JavaScript string is a [string]: a sequence of code units, here
      restricted to 8-bit code units.  All patterns and all literals of
      the program are ASCII, and under the [i] flag an ASCII pattern
      character only matches its two ASCII case variants.
    - A field of a finding that is absent ([undefined]) is [None]; a field
      that is present holds a string, as the prompt's schema prescribes.
    - [Math.random().toString(36).slice(2, 8)] is an oracle
      [rnd : nat -> string]: the value of the n-th call.
    - Plain objects used as lookup tables ([severityPenalty],
      [themeCounters], the rank table of [severityRank]) keep the
      properties they inherit from [Object.prototype].
    - A number that is multiplied by a weight is an IEEE 754 binary64
      value, a [spec_float] at precision 53, and [*] and [+] on such
      numbers round to nearest, ties to even ([SFmul], [SFadd]). *)

From Stdlib Require Import ZArith QArith Qround Qpower SpecFloat Ascii String DecimalString
  Lia Lqa Sorted.
From stdpp Require Import base list strings gmap.

#[local] Set Warnings "-register-all".

Set Default Proof Using "Type".
Local Open Scope string_scope.
Local Open Scope list_scope.

(** ** JavaScript strings *)

Module JS.

Definition chars (s : string) : list ascii := list_ascii_of_string s.
Definition str (l : list ascii) : string := string_of_list_ascii l.

Definition is_upper (c : ascii) : bool :=
  (65 <=? nat_of_ascii c)%nat && (nat_of_ascii c <=? 90)%nat.

(** [String.prototype.toLowerCase], on 8-bit code units whose lower-case
    form is used only in comparisons with ASCII literals. *)
Definition lower (c : ascii) : ascii :=
  if is_upper c then ascii_of_nat (nat_of_ascii c + 32) else c.

Definition toLowerCase (s : string) : string := str (map lower (chars s)).

Definition ascii_eqb (a b : ascii) : bool := Ascii.eqb a b.

Fixpoint starts_with (needle l : list ascii) : bool :=
  match needle, l with
  | [], _ => true
  | _ :: _, [] => false
  | a :: n', b :: l' => ascii_eqb a b && starts_with n' l'
  end.

(** [l.includes(needle)] on sequences of code units. *)
Fixpoint includes_list (needle l : list ascii) : bool :=
  starts_with needle l ||
  match l with
  | [] => false
  | _ :: l' => includes_list needle l'
  end.

Definition includes (s needle : string) : bool :=
  includes_list (chars needle) (chars s).

(** [s.slice(0, n)] for a non-negative literal [n]. *)
Definition slice0 (n : nat) (s : string) : string := str (take n (chars s)).

(** [x || d] on an optional string: [undefined] and [""] are falsy. *)
Definition or_else (x : option string) (d : string) : string :=
  match x with
  | Some s => if String.eqb s "" then d else s
  | None => d
  end.

(** A template literal renders an absent value as ["undefined"]. *)
Definition template (x : option string) : string :=
  match x with Some s => s | None => "undefined" end.

(** Names of the properties every plain object inherits from
    [Object.prototype]. *)
Definition Object_prototype_keys : list string :=
  [ "constructor"; "__defineGetter__"; "__defineSetter__"; "hasOwnProperty";
    "__lookupGetter__"; "__lookupSetter__"; "isPrototypeOf";
    "propertyIsEnumerable"; "toString"; "valueOf"; "__proto__";
    "toLocaleString" ].

Definition inherited (k : string) : bool :=
  existsb (String.eqb k) Object_prototype_keys.

(** The result of reading [obj[k]] on a plain object with own properties
    [own]: an own value, an inherited function or object, or
    [undefined]. *)
Inductive prop (V : Type) : Type :=
| Own (v : V)
| Inherited
| Undefined.
Arguments Own {V} v.
Arguments Inherited {V}.
Arguments Undefined {V}.

Definition get {V} (own : gmap string V) (k : string) : prop V :=
  match own !! k with
  | Some v => Own v
  | None => if inherited k then Inherited else Undefined
  end.

End JS.

(** ** Regular expressions

    The fragment of ECMAScript regular expressions that the program
    uses, with the [i] flag always set: literals, [.], [\s], [\d],
    [[\s\S]], [\b], sequence, alternation, optional groups, greedy and
    lazy repetition of a one-character class, and one capture group.
    The matcher is the backtracking matcher of the language
    specification in continuation-passing style: alternatives are tried
    left to right, greedy repetition tries the longest run first, lazy
    repetition the shortest. *)

Module Regex.

Inductive cls : Type :=
| Chr (c : ascii)   (* a literal character, compared case-insensitively *)
| Dot               (* [.] : anything but a line terminator *)
| Space             (* [\s] *)
| Digit             (* [\d] *)
| Any.              (* [[\s\S]] *)

Inductive regex : Type :=
| Eps
| Class (c : cls)
| Seq (r1 r2 : regex)
| Alt (r1 r2 : regex)
| Star (c : cls)        (* [c*]  *)
| LazyStar (c : cls)    (* [c*?] *)
| WordB                 (* [\b]  *)
| Group (r : regex).    (* [( r )], capture group 1 *)

Definition code (a : ascii) : nat := nat_of_ascii a.

Definition is_space (a : ascii) : bool :=
  ((9 <=? code a) && (code a <=? 13) || (code a =? 32) || (code a =? 160))%nat.

Definition is_digit (a : ascii) : bool :=
  ((48 <=? code a) && (code a <=? 57))%nat.

Definition is_line_terminator (a : ascii) : bool :=
  ((code a =? 10) || (code a =? 13))%nat.

(** [\w] is [[A-Za-z0-9_]]. *)
Definition is_word (a : ascii) : bool :=
  ((65 <=? code a) && (code a <=? 90) || (97 <=? code a) && (code a <=? 122)
   || is_digit a || (code a =? 95))%nat.

Definition cls_match (c : cls) (a : ascii) : bool :=
  match c with
  | Chr x => JS.ascii_eqb (JS.lower x) (JS.lower a)
  | Dot => negb (is_line_terminator a)
  | Space => is_space a
  | Digit => is_digit a
  | Any => true
  end.

(** The state of a match in progress: the character before the current
    position, the position, the input still to read, and the span of
    capture group 1. *)
Record mstate : Type := MState {
  prev : option ascii;
  pos : nat;
  rest : list ascii;
  cap : option (nat * nat)
}.

Definition word_before (st : mstate) : bool :=
  match prev st with Some a => is_word a | None => false end.
Definition word_after (st : mstate) : bool :=
  match rest st with a :: _ => is_word a | [] => false end.

Definition or_try (x : option mstate) (y : unit -> option mstate) : option mstate :=
  match x with Some m => Some m | None => y tt end.

Fixpoint star_greedy (c : cls) (k : mstate -> option mstate)
    (p : option ascii) (n : nat) (cp : option (nat * nat)) (l : list ascii)
    : option mstate :=
  match l with
  | a :: t =>
      if cls_match c a
      then or_try (star_greedy c k (Some a) (S n) cp t)
                  (fun _ => k (MState p n l cp))
      else k (MState p n l cp)
  | [] => k (MState p n l cp)
  end.

Fixpoint star_lazy (c : cls) (k : mstate -> option mstate)
    (p : option ascii) (n : nat) (cp : option (nat * nat)) (l : list ascii)
    : option mstate :=
  or_try (k (MState p n l cp))
         (fun _ => match l with
                   | a :: t => if cls_match c a
                               then star_lazy c k (Some a) (S n) cp t
                               else None
                   | [] => None
                   end).

Fixpoint run (r : regex) (k : mstate -> option mstate) (st : mstate)
    : option mstate :=
  match r with
  | Eps => k st
  | Class c =>
      match rest st with
      | a :: t => if cls_match c a
                  then k (MState (Some a) (S (pos st)) t (cap st))
                  else None
      | [] => None
      end
  | Seq r1 r2 => run r1 (run r2 k) st
  | Alt r1 r2 => or_try (run r1 k st) (fun _ => run r2 k st)
  | Star c => star_greedy c k (prev st) (pos st) (cap st) (rest st)
  | LazyStar c => star_lazy c k (prev st) (pos st) (cap st) (rest st)
  | WordB => if xorb (word_before st) (word_after st) then k st else None
  | Group r1 =>
      run r1 (fun st' => k (MState (prev st') (pos st') (rest st')
                                    (Some (pos st, pos st')))) st
  end.

(** The leftmost match: its start, and the final state (end position and
    capture). *)
Fixpoint exec_from (r : regex) (p : option ascii) (n : nat) (l : list ascii)
    : option (nat * mstate) :=
  match run r Some (MState p n l None) with
  | Some m => Some (n, m)
  | None =>
      match l with
      | a :: t => exec_from r (Some a) (S n) t
      | [] => None
      end
  end.

Definition exec (r : regex) (s : string) : option (nat * mstate) :=
  exec_from r None 0 (JS.chars s).

(** [new RegExp(r, "i").test(s)] *)
Definition test (r : regex) (s : string) : bool :=
  match exec r s with Some _ => true | None => false end.

(** A run of literal characters. *)
Definition lit (s : string) : regex :=
  foldr (fun a r => Seq (Class (Chr a)) r) Eps (JS.chars s).

Definition opt (r : regex) : regex := Alt r Eps.
Definition plus (c : cls) : regex := Seq (Class c) (Star c).

(** [r1 r2 r3 ...] *)
Fixpoint seqs (rs : list regex) : regex :=
  match rs with
  | [] => Eps
  | [r] => r
  | r :: rs' => Seq r (seqs rs')
  end.

(** [a|b|c...] *)
Fixpoint alts (rs : list regex) : regex :=
  match rs with
  | [] => Eps
  | [r] => r
  | r :: rs' => Alt r (alts rs')
  end.

End Regex.

Import Regex.

(** ** Findings *)

Record Finding : Type := MkFinding {
  id : option string;
  theme : option string;
  title : option string;
  status : option string;
  severity : option string;
  evidence : option string;
  impact : option string;
  recommendation : option string;
  references : list string;
  confidence : Q
}.

(** [mk]: the identifier is ["R-"] followed by the random suffix [rid]. *)
Definition mk (theme title status severity evidence impact recommendation : string)
    (references : list string) (confidence : Q) (rid : string) : Finding :=
  {| id := Some ("R-" +:+ rid);
     theme := Some theme; title := Some title; status := Some status;
     severity := Some severity; evidence := Some evidence;
     impact := Some impact; recommendation := Some recommendation;
     references := references; confidence := confidence |}.

(** ** The AU heuristic rules *)

Section Heuristics.

(** The n-th value of [Math.random().toString(36).slice(2, 8)]. *)
Variable rnd : nat -> string.

(** [out.push(mk(...))] in [heuristicsAU]: every call of [mk] there is
    pushed, so the number of random values drawn so far is the length of
    [out]. *)
Definition push (out : list Finding) (f : string -> Finding) : list Finding :=
  out ++ [f (rnd (length out))].

Definition push_if (b : bool) (f : string -> Finding) (out : list Finding)
    : list Finding :=
  if b then push out f else out.

Definition e8Signals : list (string * regex) :=
  [ ("Patch applications",
       seqs [alts [lit "patch"; lit "update"]; Star Dot;
             alts [lit "application"; lit "app"]]);
    ("Patch operating systems",
       seqs [alts [lit "patch"; lit "update"]; Star Dot;
             alts [lit "operating system"; lit "os"]]);
    ("Configure Microsoft Office macro settings", lit "macro");
    ("User application hardening",
       alts [lit "hardening"; lit "blocklist"; lit "disable"]);
    ("Restrict administrative privileges",
       alts [seqs [lit "admin"; opt (lit "istrative"); plus Space; lit "privilege"];
             lit "least privilege"; lit "rbac"]);
    ("Multi-factor authentication",
       alts [seqs [lit "multi"; opt (lit "-"); lit "factor"]; lit "mfa"; lit "2fa"]);
    ("Regular backups", lit "backup");
    ("Incident response",
       alts [lit "incident"; lit "breach notification"; lit "respond"]) ].

Definition dquote : ascii := "034"%char.

(** One turn of [for (const [name, rx] of e8Signals)]; the state is
    [(out, anySignalFound)]. *)
Definition e8_step (text : string) (st : list Finding * bool)
    (sig : string * regex) : list Finding * bool :=
  let '(out, anySignalFound) := st in
  let '(name, rx) := sig in
  if test rx text then (out, true)
  else (push out (mk "security_e8" ("Essential Eight: " +:+ name) "undisclosed" "low"
          "Signal not detected in document."
          ("No mention of " +:+ String dquote name +:+ String dquote
             " which is recommended ACSC control.")
          ("Publish statement of posture for " +:+ String dquote name
             +:+ String dquote ".")
          ["ACSC Essential Eight"] 0.55), anySignalFound).

Definition heuristicsAU (text : string) : list Finding :=
  let T := fun r => test r text in
  let out := [] in
  (* --- Privacy APPs --- *)
  let out := push_if
    (negb (T (seqs [WordB; lit "privacy policy"; WordB]))
     && negb (T (seqs [lit "how we manage"; Star Dot; lit "personal information"])))
    (mk "privacy_app" "APP 1 transparency" "undisclosed" "medium"
      "Not found"
      "Lack of clear statement on how personal information is managed (APP 1)."
      "Publish an APP 1-compliant privacy policy covering purpose, types collected, use/disclosure, access/correction, complaints and contact."
      ["APP 1"] 0.6) out in
  let out := push_if
    (negb (T (lit "we collect")) || negb (T (lit "why we collect"))
     || negb (T (lit "how to contact")))
    (mk "privacy_app" "APP 5 collection notice" "undisclosed" "high"
      "Details of collection notice not clearly present."
      "APP 5 notice may be incomplete or absent."
      "Add an APP 5 notice with purposes, fields, disclosures, cross-border, contact."
      ["APP 5"] 0.7) out in
  let out := push_if
    (negb (T (lit "overseas")) && negb (T (lit "outside australia"))
     && negb (T (lit "cross-border")))
    (mk "privacy_app" "APP 8 cross-border disclosures" "undisclosed" "medium"
      "No explicit mention of disclosures overseas."
      "If using offshore vendors/cloud, APP 8 accountability may apply."
      "Disclose countries/types of overseas recipients or state none occur."
      ["APP 8"] 0.6) out in
  let out := push_if
    (negb (T (lit "security"))
     || negb (T (lit "encryption") || T (lit "mfa") || T (lit "access control")
              || T (lit "backup") || T (lit "patch")))
    (mk "privacy_app" "APP 11 security of personal information" "undisclosed" "high"
      "Security controls not described."
      "Absence of described measures increases risk."
      "Document encryption/MFA/least privilege/backups/patch SLAs."
      ["APP 11"; "ACSC Essential Eight"] 0.7) out in
  let out := push_if
    (negb (T (lit "access your information") || T (lit "request access")))
    (mk "privacy_app" "APP 12 access to personal information" "undisclosed" "medium"
      "Access process not described."
      "Individuals may not know how to obtain info."
      "Add a process for access requests, ID, timeframes, charges."
      ["APP 12"] 0.6) out in
  let out := push_if
    (negb (T (lit "correction") || T (lit "correct your information")))
    (mk "privacy_app" "APP 13 correction of personal information" "undisclosed" "medium"
      "Correction process not described."
      "Individuals may not know how to correct inaccuracies."
      "Describe correction process, acknowledgement, timeframes."
      ["APP 13"] 0.6) out in
  let out := push_if
    (negb (T (lit "retention") || T (lit "retain") || T (lit "delete")
           || T (lit "deletion") || T (lit "destroy")))
    (mk "privacy_app" "Retention & deletion" "undisclosed" "medium"
      "No retention/deletion commitments detected."
      "Data kept without defined periods increases exposure."
      "State retention periods, secure destruction, triggers."
      ["APP 11"] 0.6) out in
  (* --- Essential Eight --- *)
  let '(out, anySignalFound) := foldl (e8_step text) (out, false) e8Signals in
  let out := push_if (negb anySignalFound)
    (mk "security_e8" "Essential Eight posture" "undisclosed" "medium"
      "No ACSC Essential Eight signals detected."
      "Security posture unclear."
      "Publish high-level summary mapping to Essential Eight maturity."
      ["ACSC Essential Eight"] 0.55) out in
  (* --- CDSS exemption heuristics --- *)
  let out := push_if
    (negb (T (seqs [lit "not"; Star Dot; lit "diagnos"]))
     && negb (T (lit "does not diagnos")) && negb (T (lit "not intended to diagnose")))
    (mk "cdss_exemption" "Non-diagnostic disclaimer" "undisclosed" "high"
      "No explicit disclaimer found that outputs are not diagnostic."
      "Without this, TGA may view as regulated medical device."
      "Add disclaimer: 'This software does not provide a medical diagnosis and must not replace professional judgement.'"
      ["TGA CDSS Exemption Guidance"] 0.75) out in
  let out := push_if
    (negb (T (lit "clinician")) && negb (T (lit "health professional"))
     && negb (T (lit "doctor review")))
    (mk "cdss_exemption" "Clinician oversight" "undisclosed" "high"
      "No mention that outputs require clinician review/approval."
      "CDSS exemption requires clinician retains decision-making."
      "State: 'Outputs are intended for use by qualified healthcare professionals, who retain responsibility for all decisions.'"
      ["TGA CDSS Exemption"] 0.75) out in
  let out := push_if
    (negb (T (lit "transparent")) && negb (T (lit "rules"))
     && negb (T (lit "guideline")) && negb (T (lit "threshold")))
    (mk "cdss_exemption" "Transparency of logic" "undisclosed" "medium"
      "No mention that rules/thresholds are visible."
      "Opaque logic risks classification as regulated device."
      "Add language that clinicians can see rules, thresholds, references."
      ["TGA CDSS Exemption"] 0.65) out in
  let out := push_if
    (T (lit "patient") && negb (T (lit "educational")) && negb (T (lit "read-only"))
     && negb (T (lit "non-directive")))
    (mk "cdss_exemption" "Patient-facing mode disclaimer" "undisclosed" "medium"
      "Mentions patient access without clarifying outputs are educational/read-only."
      "Patient features may trigger regulation unless limited."
      "Clarify patient mode only shows clinician-approved educational summaries."
      ["TGA CDSS Exemption"] 0.6) out in
  let out := push_if
    (negb (T (lit "not intended")) && negb (T (lit "not for triage"))
     && negb (T (lit "not for emergency")))
    (mk "cdss_exemption" "Scope limitations" "undisclosed" "medium"
      "No explicit limitation against triage/prediction/therapeutic claims."
      "Absence of scope limitation could classify as device."
      "Add: 'Not intended for triage, emergency use, disease prediction, or therapeutic purposes.'"
      ["TGA CDSS Exemption"] 0.6) out in
  out.

End Heuristics.

(** ** Gap-fill *)

Section GapFill.

Variable rnd : nat -> string.

(** [have(needle)]: some finding's ["theme:title"], lower-cased, contains
    the needle. *)
Definition have (findings : list Finding) (needle : string) : bool :=
  existsb (fun f =>
    JS.includes
      (JS.toLowerCase (JS.or_else
         (Some (JS.template (theme f) +:+ ":" +:+ JS.template (title f))) ""))
      needle) findings.

Definition same_title (f x : Finding) : bool :=
  String.eqb (JS.or_else (title x) "") (JS.or_else (title f) "").

(** [add(mk(...))]: [mk] draws a random value, then the finding is
    pushed unless a finding with the same title is there.  The state is
    the array and the number of random values drawn. *)
Definition add (st : list Finding * nat) (f : string -> Finding)
    : list Finding * nat :=
  let '(findings, n) := st in
  let x := f (rnd n) in
  (if existsb (same_title x) findings then findings else findings ++ [x], S n).

Definition add_if (b : bool) (f : string -> Finding) (st : list Finding * nat)
    : list Finding * nat :=
  if b then add st f else st.

(** [/retention|retain|delete|destroy|de-?identify/i] *)
Definition retention_rx : regex :=
  alts [lit "retention"; lit "retain"; lit "delete"; lit "destroy";
        seqs [lit "de"; opt (lit "-"); lit "identify"]].

Definition gap_app5 : string -> Finding :=
  mk "privacy_app" "APP 5 collection notice" "undisclosed" "high" "Not found"
    "APP 5 notice may be incomplete or absent."
    "Add an APP 5 notice at collection." ["APP 5"] 0.6.
Definition gap_app11 : string -> Finding :=
  mk "privacy_app" "APP 11 security of personal information" "undisclosed" "high"
    "Not found" "Security controls not described."
    "Document encryption/MFA/least-privilege/backups/patch SLAs." ["APP 11"] 0.65.
Definition gap_app12 : string -> Finding :=
  mk "privacy_app" "APP 12 access to personal information" "undisclosed" "medium"
    "Not found" "Access process not described."
    "Describe how individuals can request access and expected timeframes."
    ["APP 12"] 0.55.
Definition gap_app13 : string -> Finding :=
  mk "privacy_app" "APP 13 correction of personal information" "undisclosed" "medium"
    "Not found" "Correction process not described."
    "Explain how corrections are handled and acknowledged." ["APP 13"] 0.55.
Definition gap_retention : string -> Finding :=
  mk "privacy_app" "Retention & deletion" "undisclosed" "medium" "Not found"
    "No retention/deletion commitments detected."
    "State retention periods and secure deletion/de-identification triggers."
    ["APP 11"] 0.55.

(** [ensureMinimumAU], with the random values drawn from index [n0] on. *)
Definition ensureMinimumAU_from (n0 : nat) (findings : list Finding) (text : string)
    : list Finding * nat :=
  let st := (findings, n0) in
  let st := add_if (negb (have st.1 "app 5")) gap_app5 st in
  let st := add_if (negb (have st.1 "app 11")) gap_app11 st in
  let st := add_if (negb (have st.1 "access to personal")) gap_app12 st in
  let st := add_if (negb (have st.1 "correction")) gap_app13 st in
  let st := add_if (negb (test retention_rx text)) gap_retention st in
  st.

Definition ensureMinimumAU (findings : list Finding) (text : string) : list Finding :=
  (ensureMinimumAU_from 0 findings text).1.

End GapFill.

(** ** Scoring and aggregation *)

(** A JavaScript number that holds a score: an integer, an infinity or
    [NaN].  A category score [Int 0] is the positive zero; as the result
    of [Math.round], [Int 0] stands for either zero. *)
Inductive jsnum : Type :=
| Int (z : Z)
| Infinity (negative : bool)
| NaN.

(** The values that flow through the penalty counters: a number, an
    object or function inherited from [Object.prototype], or a string
    that is not a numeral (what [+] makes of a number and an object,
    such as ["0function Object() { [native code] }"]). *)
Inductive value : Type :=
| VNum (n : Z)
| VObj
| VText.

(** [p ?? d] *)
Definition nullish (p : JS.prop Z) (d : Z) : value :=
  match p with
  | JS.Own n => VNum n
  | JS.Inherited => VObj
  | JS.Undefined => VNum d
  end.

(** [p || 0]: [undefined] and [0] are falsy, objects and non-empty
    strings are truthy. *)
Definition or_zero (p : JS.prop value) : value :=
  match p with
  | JS.Own v => v
  | JS.Inherited => VObj
  | JS.Undefined => VNum 0
  end.

(** [a + b]: addition on two numbers, string concatenation otherwise. *)
Definition js_add (a b : value) : value :=
  match a, b with
  | VNum x, VNum y => VNum (x + y)
  | _, _ => VText
  end.

(** [ToNumber] *)
Definition to_number (v : value) : jsnum :=
  match v with
  | VNum n => Int n
  | VObj => NaN
  | VText => NaN
  end.

Definition js_sub (a b : jsnum) : jsnum :=
  match a, b with
  | Int x, Int y => Int (x - y)
  | Infinity s, Int _ => Infinity s
  | Int _, Infinity s => Infinity (negb s)
  | Infinity s, Infinity s' => if Bool.eqb s s' then NaN else Infinity s
  | _, _ => NaN
  end.

Definition Math_max (a b : jsnum) : jsnum :=
  match a, b with
  | Int x, Int y => Int (Z.max x y)
  | NaN, _ | _, NaN => NaN
  | Infinity false, _ | _, Infinity false => Infinity false
  | Infinity true, y => y
  | x, Infinity true => x
  end.

(** ** Numbers with a fraction: IEEE 754 binary64 *)

Module Double.

Definition prec : Z := 53.
Definition emax : Z := 1024.

(** [a + b] and [a * b]: the exact result, rounded to nearest, ties to
    even. *)
Definition add : spec_float -> spec_float -> spec_float := SFadd prec emax.
Definition mul : spec_float -> spec_float -> spec_float := SFmul prec emax.

(** The double of an integer. *)
Definition of_Z (z : Z) : spec_float := binary_normalize prec emax z 0 false.

(** The double that the decimal literal with the value [n / d] denotes:
    the quotient, rounded to nearest. *)
Definition literal (n d : Z) : spec_float := SFdiv prec emax (of_Z n) (of_Z d).

(** [a >= 0] *)
Definition is_nonneg (a : spec_float) : bool := SFleb (S754_zero false) a.

Definition pow2 (e : Z) : Q := (2 ^ e)%Q.

(** The rational number that a finite double is. *)
Definition to_Q (x : spec_float) : Q :=
  match x with
  | S754_finite s m e => (inject_Z (cond_Zopp s (Zpos m)) * pow2 e)%Q
  | _ => 0%Q
  end.

End Double.

(** The double that holds a score. *)
Definition to_double (n : jsnum) : spec_float :=
  match n with
  | Int z => Double.of_Z z
  | Infinity s => S754_infinity s
  | NaN => S754_nan
  end.

(** [obj[k] = v] for a primitive [v]: the [__proto__] setter ignores
    primitives, any other key becomes an own property. *)
Definition js_set {V} (own : gmap string V) (k : string) (v : V) : gmap string V :=
  if String.eqb k "__proto__" then own else <[k := v]> own.

Record Weights : Type := MkWeights {
  w_privacy_app : spec_float;
  w_security_e8 : spec_float;
  w_cdss_exemption : spec_float;
  w_contract_fairness : spec_float;
  w_vendor_sharing : spec_float
}.

Module config.
(** [0.35], [0.25], [0.20], [0.10], [0.10] *)
Definition weights : Weights :=
  {| w_privacy_app := Double.literal 35 100;
     w_security_e8 := Double.literal 25 100;
     w_cdss_exemption := Double.literal 20 100;
     w_contract_fairness := Double.literal 10 100;
     w_vendor_sharing := Double.literal 10 100 |}.
Definition maxTokensPerChunk : Z := 6000.
Definition overlapChars : Z := 800.
End config.

Definition severityPenalty : gmap string Z :=
  {[ "high" := 20%Z; "medium" := 10%Z; "low" := 4%Z ]}.

Definition detectSoftFloors (text : string) : gmap string Z :=
  let T := fun r => test r text in
  let hasPrivacySignals :=
    T (alts [seqs [WordB; lit "privacy policy"; WordB]; lit "privacy act";
             lit "personal information"; seqs [lit "app"; Star Space; plus Digit]])
    || T (alts [lit "we collect"; lit "why we collect"; lit "how to contact";
                lit "access your information"; lit "correction"; lit "retention";
                lit "delete"; lit "destroy"]) in
  let hasSecuritySignals :=
    T (alts [lit "encryption"; lit "mfa"; lit "2fa"; lit "access control";
             lit "least privilege"; lit "backup"; lit "patch"; lit "incident";
             lit "macro"; lit "hardening"; lit "rbac"]) in
  let hasCdssSignals :=
    T (alts [lit "not intended to diagnose"; lit "does not diagnose"; lit "clinician";
             lit "health professional"; lit "doctor review"])
    || T (alts [lit "educational"; lit "read-only"; lit "non-directive";
                lit "guideline"; lit "threshold"; lit "transparent"]) in
  let hasContractSignals :=
    T (alts [lit "limitation of liability"; lit "liability is limited";
             lit "indemnity"; lit "indemnify"; lit "arbitration"; lit "governing law";
             lit "termination"; lit "unilateral"; lit "class action"]) in
  let hasVendorSignals :=
    T (alts [seqs [lit "third part"; alts [lit "y"; lit "ies"]]; lit "vendors";
             lit "processors"; lit "sub-processor"; lit "share"; lit "disclose";
             lit "stripe"; lit "aws"; lit "google"; lit "overseas";
             lit "outside australia"; lit "cross-border"]) in
  let SOFT := 20%Z in
  {[ "privacy_app" := if hasPrivacySignals then SOFT else 0%Z;
     "security_e8" := if hasSecuritySignals then SOFT else 0%Z;
     "cdss_exemption" := if hasCdssSignals then SOFT else 0%Z;
     "contract_fairness" := if hasContractSignals then SOFT else 0%Z;
     "vendor_sharing" := if hasVendorSignals then SOFT else 0%Z ]}.

(** The body of [for (const f of findings)] in [aggregate]. *)
Definition count_step (themeCounters : gmap string value) (f : Finding)
    : gmap string value :=
  let theme := JS.or_else (theme f) "other" in
  let sev := JS.toLowerCase (JS.or_else (severity f) "low") in
  let pen := nullish (JS.get severityPenalty sev) 4 in
  js_set themeCounters theme (js_add (or_zero (JS.get themeCounters theme)) pen).

Definition count_penalties (findings : list Finding) : gmap string value :=
  foldl count_step ∅ findings.

(** [Object.keys(categoryMap)], in insertion order. *)
Definition category_keys : list string :=
  ["privacy_app"; "security_e8"; "cdss_exemption"; "contract_fairness";
   "vendor_sharing"].

(** The body of [for (const theme of Object.keys(categoryMap))]. *)
Definition category_score (themeCounters : gmap string value) (floors : gmap string Z)
    (theme : string) : jsnum :=
  let penalty := or_zero (JS.get themeCounters theme) in
  let rawScore := Math_max (Int 0) (js_sub (Int 100) (to_number penalty)) in
  let floor := nullish (JS.get floors theme) 0 in
  Math_max rawScore (to_number floor).

Definition category_map (themeCounters : gmap string value) (floors : gmap string Z)
    : gmap string jsnum :=
  foldl (fun categoryMap theme =>
           <[theme := category_score themeCounters floors theme]> categoryMap)
        (list_to_map (map (fun k => (k, Int 0)) category_keys)) category_keys.

(** [Math.round]: the nearest integer, halves rounded up. *)
Definition Math_round (x : spec_float) : jsnum :=
  match x with
  | S754_nan => NaN
  | S754_infinity s => Infinity s
  | _ => Int (Qfloor (Double.to_Q x + (1 # 2))%Q)
  end.

(** [categoryMap.k * w]; a missing [k] reads as [undefined], and the
    product is [NaN]. *)
Definition times (categoryMap : gmap string jsnum) (k : string) (w : spec_float)
    : spec_float :=
  match categoryMap !! k with
  | Some n => Double.mul (to_double n) w
  | None => S754_nan
  end.

(** [Math.round(a + b + c + d + e)], the sum taken from left to right. *)
Definition overall_score (weights : Weights) (categoryMap : gmap string jsnum) : jsnum :=
  let a := times categoryMap "privacy_app" (w_privacy_app weights) in
  let b := times categoryMap "security_e8" (w_security_e8 weights) in
  let c := times categoryMap "cdss_exemption" (w_cdss_exemption weights) in
  let d := times categoryMap "contract_fairness" (w_contract_fairness weights) in
  let e := times categoryMap "vendor_sharing" (w_vendor_sharing weights) in
  Math_round (Double.add (Double.add (Double.add (Double.add a b) c) d) e).

Record RemediationItem : Type := MkItem {
  item_id : string;
  item_title : string;
  item_severity : string;
  item_recommendation : string
}.

Record Scores : Type := MkScores {
  overall : jsnum;
  score_weights : Weights;
  categories : gmap string jsnum
}.

(** The report, without the document metadata ([inferTitle],
    [detectDates]), which no score depends on. *)
Record Report : Type := MkReport {
  scores : Scores;
  report_findings : list Finding;
  remediation_plan : list RemediationItem
}.

Definition aggregate_with (weights : Weights) (findings : list Finding)
    (plan : list RemediationItem) (rawText : string) : Report :=
  let floors := detectSoftFloors rawText in
  let themeCounters := count_penalties findings in
  let categoryMap := category_map themeCounters floors in
  {| scores := {| overall := overall_score weights categoryMap;
                  score_weights := weights;
                  categories := categoryMap |};
     report_findings := findings;
     remediation_plan := plan |}.

Definition aggregate := aggregate_with config.weights.

(** ** The remediation plan *)

Section Remediation.

Variable rnd : nat -> string.

(** [map.has(key)] on a [Map], kept as the list of its entries in
    insertion order. *)
Definition map_has (m : list (string * RemediationItem)) (key : string) : bool :=
  existsb (fun e => String.eqb e.1 key) m.

Definition dedup_key (f : Finding) : string :=
  JS.slice0 200 (JS.or_else (recommendation f) "").

(** The item stored under a new key. *)
Definition make_item (i : string) (f : Finding) : RemediationItem :=
  {| item_id := i;
     item_title := JS.or_else (title f) (dedup_key f);
     item_severity := JS.or_else (severity f) "medium";
     item_recommendation := JS.or_else (recommendation f) "" |}.

(** The body of [for (const f of findings)] in [dedupeRecommendations];
    the state is the map and the number of random values drawn, one for
    each stored finding without an [id]. *)
Definition dedupe_step (st : list (string * RemediationItem) * nat) (f : Finding)
    : list (string * RemediationItem) * nat :=
  let '(m, n) := st in
  let key := dedup_key f in
  if negb (String.eqb key "") && negb (map_has m key) then
    let '(i, n') :=
      match id f with
      | Some s => if String.eqb s "" then ("R-" +:+ rnd n, S n) else (s, n)
      | None => ("R-" +:+ rnd n, S n)
      end in
    (m ++ [(key, make_item i f)], n')
  else st.

Definition dedupe_entries (findings : list Finding) : list (string * RemediationItem) :=
  (foldl dedupe_step ([], 0%nat) findings).1.

Definition dedupeRecommendations (findings : list Finding) : list RemediationItem :=
  map snd (dedupe_entries findings).

Definition rank_table : gmap string Z :=
  {[ "high" := 0%Z; "medium" := 1%Z; "low" := 2%Z ]}.

(** [severityRank]: the argument is the severity of a remediation item,
    which is always a string. *)
Definition severityRank (s : string) : value :=
  nullish (JS.get rank_table (JS.toLowerCase s)) 3.

(** [(a, b) => severityRank(a.severity) - severityRank(b.severity)] *)
Definition by_severity (a b : RemediationItem) : jsnum :=
  js_sub (to_number (severityRank (item_severity a)))
         (to_number (severityRank (item_severity b))).

(** What [Array.prototype.sort] makes of the comparator's result: [NaN]
    counts as [+0]. *)
Definition sort_compare {A} (cmp : A -> A -> jsnum) (a b : A) : Z :=
  match cmp a b with
  | Int z => z
  | Infinity s => if s then (-1)%Z else 1%Z
  | NaN => 0%Z
  end.

(** [Array.prototype.sort] is stable.  It is modelled as a stable
    insertion sort: each element goes behind every element already
    placed that it is not smaller than.  When the comparator is a total
    preorder this is the one result the language allows; on two elements
    that compare as equal it keeps their order, as every stable sort
    does. *)
Fixpoint insert_by {A} (cmp : A -> A -> jsnum) (x : A) (l : list A) : list A :=
  match l with
  | [] => [x]
  | y :: l' => if (sort_compare cmp x y <? 0)%Z then x :: l
               else y :: insert_by cmp x l'
  end.

Definition sort_by {A} (cmp : A -> A -> jsnum) (l : list A) : list A :=
  foldl (fun acc x => insert_by cmp x acc) [] l.

(** [dedupeRecommendations(findings).sort(...).slice(0, 6)] *)
Definition remediation_plan_of (findings : list Finding) : list RemediationItem :=
  take 6 (sort_by by_severity (dedupeRecommendations findings)).

End Remediation.

(** ** Indexing and chunking *)

(** [s.split('\n')] *)
Fixpoint split_lines (s : list ascii) : list (list ascii) :=
  match s with
  | [] => [[]]
  | c :: s' =>
      if JS.ascii_eqb c "010"%char then [] :: split_lines s'
      else match split_lines s' with
           | [] => [[c]]
           | l :: ls => (c :: l) :: ls
           end
  end.

(** [lines.join('\n')] *)
Fixpoint join_lines (ls : list (list ascii)) : list ascii :=
  match ls with
  | [] => []
  | [l] => l
  | l :: ls' => l ++ "010"%char :: join_lines ls'
  end.

(** The decimal numeral of a natural number, as a template literal
    renders it. *)
Definition decimal (n : nat) : list ascii :=
  JS.chars (NilZero.string_of_uint (Nat.to_uint n)).

(** The marker ["[LINE n] "] of line [n] (counted from 1). *)
Definition line_marker (n : nat) : list ascii :=
  JS.chars "[LINE " ++ decimal n ++ JS.chars "] ".

(** [lines.map((line, index) => `[LINE ${index + 1}] ${line}`)] *)
Definition index_lines (lines : list (list ascii)) : list (list ascii) :=
  imap (fun index line => line_marker (index + 1) ++ line) lines.

Definition indexed_text (rawText : list ascii) : list ascii :=
  join_lines (index_lines (split_lines rawText)).

(** [s.slice(b, e)]: a negative index counts from the end, and both are
    clamped to the string. *)
Definition js_slice (s : list ascii) (b e : Z) : list ascii :=
  let len := Z.of_nat (length s) in
  let clamp := fun k => if (k <? 0)%Z then Z.max (len + k) 0 else Z.min k len in
  let from := clamp b in
  let to := clamp e in
  take (Z.to_nat (Z.max (to - from) 0)) (drop (Z.to_nat from) s).

(** The loop [while (i < indexedText.length) { out.push(...); i += step; }]
    as the list of the chunks it pushes from position [i] on.  [fuel]
    bounds the number of turns; [length indexedText] turns always
    suffice because [step >= 1] (see [chunk_loop_fuel]). *)
Fixpoint chunk_loop (fuel : nat) (indexedText : list ascii) (size step i : Z)
    : list (list ascii) :=
  match fuel with
  | O => []
  | S fuel' =>
      if (i <? Z.of_nat (length indexedText))%Z
      then js_slice indexedText i (i + size)
           :: chunk_loop fuel' indexedText size step (i + step)
      else []
  end.

Definition chunk_windows (indexedText : list ascii) (size overlap : Z)
    : list (list ascii) :=
  let step := Z.max 1 (size - overlap) in
  chunk_loop (length indexedText) indexedText size step 0.

(** [chunkByChar]: [used_fallback] tells whether the last line took the
    branch [[indexedText || ""]]. *)
Definition chunkByChar_branch (rawText : string) (size overlap : Z)
    : bool * list string :=
  let indexedText := indexed_text (JS.chars rawText) in
  let out := chunk_windows indexedText size overlap in
  match out with
  | [] => (true, [JS.str indexedText])
  | _ :: _ => (false, map JS.str out)
  end.

Definition chunkByChar (rawText : string) (size overlap : Z) : list string :=
  (chunkByChar_branch rawText size overlap).2.

(** ** Response recovery *)

Inductive json : Type :=
| JNull
| JBool (b : bool)
| JNumber (numeral : string)
| JString (s : string)
| JArray (elements : list json)
| JObject (members : list (string * json)).

(** A computation that returns a value or throws. *)
Inductive result (A : Type) : Type :=
| Ok (a : A)
| Throw (error : string).
Arguments Ok {A} a.
Arguments Throw {A} error.

(** [try { return body } catch {}] followed by [rest]. *)
Definition try_return {A} (body : result A) (rest : result A) : result A :=
  match body with
  | Ok a => Ok a
  | Throw _ => rest
  end.

(** What the model gateway hands over as [text]: a string, or some other
    value. *)
Inductive response : Type :=
| RText (s : string)
| RUndefined
| RValue (j : json).

(** [Array.isArray(j) ? j : []] *)
Definition array_or_empty (j : json) : list json :=
  match j with
  | JArray l => l
  | _ => []
  end.

(** [/```(?:json)?\s*([\s\S]*?)```/i] *)
Definition fence_rx : regex :=
  seqs [lit "```"; opt (lit "json"); Star Space; Group (LazyStar Any); lit "```"].

(** [/\[[\s\S]*\]/] *)
Definition arrayLike_rx : regex :=
  seqs [lit "["; Star Any; lit "]"].

Definition substring (s : string) (b e : nat) : string :=
  JS.str (take (e - b) (drop b (JS.chars s))).

(** [text.match(rx)[0]] and [text.match(rx)[1]] of a pattern without the
    [g] flag; [None] when there is no match. *)
Definition match0 (rx : regex) (s : string) : option string :=
  match exec rx s with
  | Some (b, m) => Some (substring s b (pos m))
  | None => None
  end.

Definition match1 (rx : regex) (s : string) : option string :=
  match exec rx s with
  | Some (_, m) =>
      match cap m with
      | Some (b, e) => Some (substring s b e)
      | None => None
      end
  | None => None
  end.

Section Recoverer.

(** The built-in [JSON.parse]: a value, or a [SyntaxError]. *)
Variable JSON_parse : string -> result json.

Definition parse_array (s : string) : result (list json) :=
  match JSON_parse s with
  | Ok j => Ok (array_or_empty j)
  | Throw e => Throw e
  end.

Definition parseGeminiJson (text : response) : result (list json) :=
  match text with
  | RUndefined => Ok []
  | RValue _ => Ok []
  | RText s =>
      if String.eqb s "" then Ok []
      else
        try_return (parse_array s)
          (let fence := match1 fence_rx s in
           let after_fence :=
             let arrayLike := match0 arrayLike_rx s in
             match arrayLike with
             | Some a => try_return (parse_array a) (Ok [])
             | None => Ok []
             end in
           match fence with
           | Some body => try_return (parse_array body) after_fence
           | None => after_fence
           end)
  end.

(** The three recovery tiers: what each one hands to [JSON.parse], and
    whether that yields an array. *)
Definition tier_inputs (s : string) : list string :=
  [s] ++ option_list (match1 fence_rx s) ++ option_list (match0 arrayLike_rx s).

Definition yields_array (s : string) : Prop :=
  exists l, JSON_parse s = Ok (JArray l).

End Recoverer.

(** A reader for the JSON grammar, standing for [JSON.parse] when the
    recoverer is run on a concrete response.  Numbers are kept as
    numerals; a [\u] escape above [00FF] is outside the 8-bit strings of
    this development and is refused. *)
Module JsonReader.

Definition is_ws (a : ascii) : bool :=
  ((code a =? 32) || (code a =? 9) || (code a =? 10) || (code a =? 13))%nat.

Fixpoint skip_ws (l : list ascii) : list ascii :=
  match l with
  | a :: t => if is_ws a then skip_ws t else l
  | [] => []
  end.

Fixpoint digits (l : list ascii) : list ascii * list ascii :=
  match l with
  | a :: t => if is_digit a then let '(d, r) := digits t in (a :: d, r) else ([], l)
  | [] => ([], [])
  end.

Definition is_char (c : string) (a : ascii) : bool :=
  existsb (JS.ascii_eqb a) (JS.chars c).

(** A numeral: an optional minus sign, an integer part without leading
    zero, an optional fraction, an optional exponent. *)
Definition number (l : list ascii) : option (list ascii * list ascii) :=
  let '(sign, l1) :=
    match l with
    | a :: t => if is_char "-" a then ([a], t) else ([], l)
    | [] => ([], l)
    end in
  let '(int, l2) := digits l1 in
  match int with
  | [] => None
  | d :: ds =>
      if is_char "0" d && negb (bool_decide (ds = [])) then None
      else
        let frac :=
          match l2 with
          | a :: t => if is_char "." a then
                        let '(f, r) := digits t in
                        match f with [] => None | _ => Some (a :: f, r) end
                      else Some ([], l2)
          | [] => Some ([], l2)
          end in
        match frac with
        | None => None
        | Some (f, l3) =>
            let expo :=
              match l3 with
              | a :: t =>
                  if is_char "eE" a then
                    let '(sg, t') :=
                      match t with
                      | b :: u => if is_char "+-" b then ([b], u) else ([], t)
                      | [] => ([], t)
                      end in
                    let '(x, r) := digits t' in
                    match x with [] => None | _ => Some (a :: sg ++ x, r) end
                  else Some ([], l3)
              | [] => Some ([], l3)
              end in
            match expo with
            | None => None
            | Some (x, l4) => Some (sign ++ int ++ f ++ x, l4)
            end
        end
  end.

Definition hex_value (a : ascii) : option nat :=
  let n := code a in
  if is_digit a then Some (n - 48)
  else if ((65 <=? n) && (n <=? 70))%nat then Some (n - 55)
  else if ((97 <=? n) && (n <=? 102))%nat then Some (n - 87)
  else None.

(** The characters of a string literal after its opening quote. *)
Fixpoint string_body (l : list ascii) : option (list ascii * list ascii) :=
  match l with
  | [] => None
  | a :: t =>
      if JS.ascii_eqb a dquote then Some ([], t)
      else if (code a <? 32)%nat then None
      else if is_char "\" a then
        match t with
        | b :: u =>
            let simple := fun c =>
              match string_body u with
              | Some (s, r) => Some (c :: s, r)
              | None => None
              end in
            if JS.ascii_eqb b dquote || is_char "\/" b then simple b
            else if is_char "b" b then simple "008"%char
            else if is_char "f" b then simple "012"%char
            else if is_char "n" b then simple "010"%char
            else if is_char "r" b then simple "013"%char
            else if is_char "t" b then simple "009"%char
            else if is_char "u" b then
              match u with
              | h1 :: h2 :: h3 :: h4 :: v =>
                  match hex_value h1, hex_value h2, hex_value h3, hex_value h4 with
                  | Some 0%nat, Some 0%nat, Some x, Some y =>
                      match string_body v with
                      | Some (s, r) => Some (ascii_of_nat (16 * x + y) :: s, r)
                      | None => None
                      end
                  | _, _, _, _ => None
                  end
              | _ => None
              end
            else None
        | [] => None
        end
      else
        match string_body t with
        | Some (s, r) => Some (a :: s, r)
        | None => None
        end
  end.

Definition keyword (w : string) (l : list ascii) : option (list ascii) :=
  if JS.starts_with (JS.chars w) l then Some (drop (length (JS.chars w)) l) else None.

Section Composite.
(** The reader of one value, one nesting level down. *)
Variable value : list ascii -> option (json * list ascii).

(** The elements of an array after the first, up to the closing
    bracket. *)
Fixpoint elements (n : nat) (acc : list json) (l : list ascii)
    : option (json * list ascii) :=
  match n with
  | O => None
  | S n' =>
      match skip_ws l with
      | a :: t =>
          if is_char "]" a then Some (JArray (rev acc), t)
          else if is_char "," a then
            match value t with
            | Some (j, r) => elements n' (j :: acc) r
            | None => None
            end
          else None
      | [] => None
      end
  end.

Definition member (l : list ascii) : option ((string * json) * list ascii) :=
  match skip_ws l with
  | a :: t =>
      if JS.ascii_eqb a dquote then
        match string_body t with
        | Some (k, r) =>
            match skip_ws r with
            | c :: r' =>
                if is_char ":" c then
                  match value r' with
                  | Some (j, r'') => Some ((JS.str k, j), r'')
                  | None => None
                  end
                else None
            | [] => None
            end
        | None => None
        end
      else None
  | [] => None
  end.

Fixpoint members (n : nat) (acc : list (string * json)) (l : list ascii)
    : option (json * list ascii) :=
  match n with
  | O => None
  | S n' =>
      match skip_ws l with
      | a :: t =>
          if is_char "}" a then Some (JObject (rev acc), t)
          else if is_char "," a then
            match member t with
            | Some (m, r) => members n' (m :: acc) r
            | None => None
            end
          else None
      | [] => None
      end
  end.
End Composite.

Fixpoint value (fuel : nat) (l : list ascii) : option (json * list ascii) :=
  match fuel with
  | O => None
  | S fuel' =>
      match skip_ws l with
      | [] => None
      | a :: t =>
          if JS.ascii_eqb a dquote then
            match string_body t with
            | Some (s, r) => Some (JString (JS.str s), r)
            | None => None
            end
          else if is_char "[" a then
            match skip_ws t with
            | b :: u =>
                if is_char "]" b then Some (JArray [], u)
                else match value fuel' t with
                     | Some (j, r) => elements (value fuel') (length r) [j] r
                     | None => None
                     end
            | [] => None
            end
          else if is_char "{" a then
            match skip_ws t with
            | b :: u =>
                if is_char "}" b then Some (JObject [], u)
                else match member (value fuel') t with
                     | Some (m, r) => members (value fuel') (length r) [m] r
                     | None => None
                     end
            | [] => None
            end
          else if is_char "t" a then
            option_map (pair (JBool true)) (keyword "true" (a :: t))
          else if is_char "f" a then
            option_map (pair (JBool false)) (keyword "false" (a :: t))
          else if is_char "n" a then
            option_map (pair JNull) (keyword "null" (a :: t))
          else
            match number (a :: t) with
            | Some (n, r) => Some (JNumber (JS.str n), r)
            | None => None
            end
      end
  end.

(** The whole text must be one value, with white space around it. *)
Definition parse (s : string) : result json :=
  let l := JS.chars s in
  match value (S (length l)) l with
  | Some (j, r) =>
      match skip_ws r with
      | [] => Ok j
      | _ :: _ => Throw "SyntaxError"
      end
  | None => Throw "SyntaxError"
  end.

End JsonReader.

(** ** The pipeline of [analyzeText] after the model calls *)

Section Pipeline.

Variable rnd : nat -> string.

(** [if (!findings.length) ... else ...] *)
Definition cover (findings : list Finding) (rawText : string) : list Finding :=
  match findings with
  | [] => heuristicsAU rnd rawText
  | _ :: _ => ensureMinimumAU rnd findings rawText
  end.

(** [analyzeText] from the findings the model calls produced. *)
Definition report_of (model_findings : list Finding) (rawText : string) : Report :=
  let findings := cover model_findings rawText in
  aggregate findings (remediation_plan_of rnd findings) rawText.

End Pipeline.

(** * Properties *)

(** ** Scenario 7: the heuristic engine on a short collection statement *)

Definition doc7 : string :=
  "We collect your name and email for account creation. Contact privacy@example.com for access requests.".

Definition has_title (t : string) (f : Finding) : bool :=
  bool_decide (title f = Some t).

Definition has_finding (out : list Finding) (t : string) : bool :=
  existsb (has_title t) out.

Definition has_undisclosed (out : list Finding) (t : string) : bool :=
  existsb (fun f => has_title t f && bool_decide (status f = Some "undisclosed")) out.

(** The titles of the rules of [heuristicsAU] that emit a
    [cdss_exemption] finding. *)
Definition cdss_rule_titles : list string :=
  ["Non-diagnostic disclaimer"; "Clinician oversight"; "Transparency of logic";
   "Patient-facing mode disclaimer"; "Scope limitations"].

Definition category (r : Report) (theme : string) : option jsnum :=
  categories (scores r) !! theme.

Definition below_100 (s : option jsnum) : Prop :=
  exists z, s = Some (Int z) /\ (z < 100)%Z.

(** Scenario 7 as the specification states it. *)
Definition scenario7_as_stated (rnd : nat -> string) : Prop :=
  let out := heuristicsAU rnd doc7 in
  has_undisclosed out "APP 8 cross-border disclosures" = true /\
  has_undisclosed out "APP 11 security of personal information" = true /\
  has_undisclosed out "Retention & deletion" = true /\
  (forall t, t ∈ cdss_rule_titles -> has_undisclosed out t = true) /\
  has_finding out "APP 5 collection notice" = false /\
  below_100 (category (report_of rnd [] doc7) "privacy_app").

Definition no_random : nat -> string := fun _ => "000000".

Lemma forallb_elem {A} (p : A -> bool) (l : list A) (x : A) :
  forallb p l = true -> x ∈ l -> p x = true.
Proof.
  intros H Hx. rewrite forallb_forall in H. apply H. by apply list_elem_of_In.
Qed.

(** The document only has the first of the three phrases the
    collection-notice rule asks for. *)
Example doc7_phrases :
  test (lit "we collect") doc7 = true /\
  test (lit "why we collect") doc7 = false /\
  test (lit "how to contact") doc7 = false /\
  test (lit "patient") doc7 = false.
Proof. vm_compute. done. Qed.

(** C1, as stated, fails: on the scenario document the collection-notice
    rule does fire, and the conditional patient-facing rule does not. *)
Lemma scenario7_as_stated_fails : ~ scenario7_as_stated no_random.
Proof.
  unfold scenario7_as_stated. cbv zeta.
  intros (_ & _ & _ & _ & H5 & _).
  vm_compute in H5. discriminate H5.
Qed.

(** C1 (amended): on the scenario document the heuristic engine emits
    exactly the twenty findings below, all with status undisclosed.
    They include the cross-border, security-of-information and retention
    findings and the four unconditional cdss_exemption findings; they
    also include the APP 5 collection-notice finding, and they do not
    include the patient-facing finding.  The privacy score of the report
    is 20, which is below 100. *)
Theorem scenario7_findings (rnd : nat -> string) :
  let out := heuristicsAU rnd doc7 in
  map title out = map Some
    ["APP 1 transparency"; "APP 5 collection notice";
     "APP 8 cross-border disclosures";
     "APP 11 security of personal information";
     "APP 12 access to personal information";
     "APP 13 correction of personal information"; "Retention & deletion";
     "Essential Eight: Patch applications";
     "Essential Eight: Patch operating systems";
     "Essential Eight: Configure Microsoft Office macro settings";
     "Essential Eight: User application hardening";
     "Essential Eight: Restrict administrative privileges";
     "Essential Eight: Multi-factor authentication";
     "Essential Eight: Regular backups"; "Essential Eight: Incident response";
     "Essential Eight posture"; "Non-diagnostic disclaimer";
     "Clinician oversight"; "Transparency of logic"; "Scope limitations"] /\
  Forall (fun f => status f = Some "undisclosed") out /\
  has_undisclosed out "APP 8 cross-border disclosures" = true /\
  has_undisclosed out "APP 11 security of personal information" = true /\
  has_undisclosed out "Retention & deletion" = true /\
  (forall t, t ∈ cdss_rule_titles -> t <> "Patient-facing mode disclaimer" ->
             has_undisclosed out t = true) /\
  has_undisclosed out "APP 5 collection notice" = true /\
  has_finding out "Patient-facing mode disclaimer" = false /\
  category (report_of rnd [] doc7) "privacy_app" = Some (Int 20) /\
  below_100 (category (report_of rnd [] doc7) "privacy_app").
Proof.
  assert (Hs : category (report_of rnd [] doc7) "privacy_app" = Some (Int 20))
    by (vm_compute; reflexivity).
  assert (Hall : forallb (fun f => bool_decide (status f = Some "undisclosed"))
                   (heuristicsAU rnd doc7) = true) by (vm_compute; reflexivity).
  assert (Hcdss : forallb (fun t => bool_decide (t = "Patient-facing mode disclaimer")
                                    || has_undisclosed (heuristicsAU rnd doc7) t)
                    cdss_rule_titles = true) by (vm_compute; reflexivity).
  cbv zeta.
  split; [vm_compute; reflexivity | ].
  split.
  { apply Forall_forall. intros f Hf.
    apply (forallb_elem _ _ _ Hall) in Hf.
    apply bool_decide_eq_true in Hf. exact Hf. }
  do 3 (split; [vm_compute; reflexivity | ]).
  split.
  { intros t Ht Hne.
    apply (forallb_elem _ _ _ Hcdss) in Ht.
    apply orb_true_iff in Ht as [Ht | Ht]; [ | exact Ht].
    exfalso. apply bool_decide_eq_true in Ht. exact (Hne Ht). }
  do 2 (split; [vm_compute; reflexivity | ]).
  split; [exact Hs | ].
  exists 20%Z. split; [exact Hs | lia].
Qed.

(** ** The response recoverer *)

(** No recovery tier yields a JSON array: whatever the three tiers would
    hand to [JSON.parse], the result is not an array. *)
Definition no_tier_yields_array (JSON_parse : string -> result json)
    (text : response) : Prop :=
  forall s, text = RText s ->
    forall t, t ∈ tier_inputs s -> ~ yields_array JSON_parse t.

Lemma parse_array_no_array JSON_parse (t : string) (l : list json) :
  ~ yields_array JSON_parse t -> parse_array JSON_parse t = Ok l -> l = [].
Proof.
  unfold parse_array, yields_array. intros Hn H.
  destruct (JSON_parse t) as [j | e]; [ | discriminate H].
  destruct j; simpl in H; try (by inversion H).
  exfalso. apply Hn. by eexists.
Qed.

Lemma try_return_ok {A} (body rest : result A) :
  (exists a, rest = Ok a) -> exists a, try_return body rest = Ok a.
Proof. intros [a ->]. destruct body; simpl; eauto. Qed.

(** C2: for every input, a string or not, and whatever [JSON.parse]
    does on it, [parseGeminiJson] does not throw and returns a sequence;
    when none of the three recovery tiers (the whole text, the first
    fenced block, the first bracketed substring) yields a JSON array, the
    sequence is empty. *)
Theorem parseGeminiJson_total (JSON_parse : string -> result json) (text : response) :
  (exists l, parseGeminiJson JSON_parse text = Ok l) /\
  (no_tier_yields_array JSON_parse text -> parseGeminiJson JSON_parse text = Ok []).
Proof.
  split.
  - destruct text as [s | | j]; simpl; eauto.
    destruct (String.eqb s ""); eauto.
    apply try_return_ok.
    assert (Hafter : exists a,
      match match0 arrayLike_rx s with
      | Some a => try_return (parse_array JSON_parse a) (Ok [])
      | None => Ok []
      end = Ok a).
    { destruct (match0 arrayLike_rx s); eauto. apply try_return_ok. eauto. }
    destruct (match1 fence_rx s); [ | exact Hafter].
    apply try_return_ok. exact Hafter.
  - intros Hno. destruct text as [s | | j]; simpl; try reflexivity.
    destruct (String.eqb s ""); [reflexivity | ].
    specialize (Hno s eq_refl). unfold tier_inputs in Hno.
    assert (H1 : ~ yields_array JSON_parse s).
    { apply Hno. apply elem_of_app. left. apply list_elem_of_singleton. reflexivity. }
    assert (H2 : forall b, match1 fence_rx s = Some b -> ~ yields_array JSON_parse b).
    { intros b Hb. apply Hno. apply elem_of_app. right. apply elem_of_app. left.
      rewrite Hb. apply list_elem_of_singleton. reflexivity. }
    assert (H3 : forall a, match0 arrayLike_rx s = Some a -> ~ yields_array JSON_parse a).
    { intros a Ha. apply Hno. apply elem_of_app. right. apply elem_of_app. right.
      rewrite Ha. apply list_elem_of_singleton. reflexivity. }
    clear Hno.
    assert (Hafter :
      match match0 arrayLike_rx s with
      | Some a => try_return (parse_array JSON_parse a) (Ok [])
      | None => Ok []
      end = Ok []).
    { destruct (match0 arrayLike_rx s) as [a | ]; [ | reflexivity].
      specialize (H3 a eq_refl).
      destruct (parse_array JSON_parse a) as [l | e] eqn:E; simpl; [ | reflexivity].
      f_equal. eapply parse_array_no_array; eauto. }
    destruct (parse_array JSON_parse s) as [l | e] eqn:E1; simpl.
    { f_equal. eapply parse_array_no_array; eauto. }
    destruct (match1 fence_rx s) as [b | ]; [ | exact Hafter].
    specialize (H2 b eq_refl).
    destruct (parse_array JSON_parse b) as [l | e'] eqn:E2; simpl; [ | exact Hafter].
    f_equal. eapply parse_array_no_array; eauto.
Qed.

Definition prose : string := "The policy looks fine to me, no findings.".

Lemma parseGeminiJson_total_witness :
  parseGeminiJson JsonReader.parse (RText prose) = Ok [].
Proof.
  apply (proj2 (parseGeminiJson_total JsonReader.parse (RText prose))).
  intros s Hs. injection Hs as <-.
  intros t Ht [l Hl].
  assert (Hall : forallb (fun t => match JsonReader.parse t with
                                   | Ok (JArray _) => false
                                   | _ => true
                                   end) (tier_inputs prose) = true)
    by (vm_compute; reflexivity).
  apply (forallb_elem _ _ _ Hall) in Ht. rewrite Hl in Ht. discriminate Ht.
Defined.

(** The inputs the specification names, with the JSON reader for
    [JSON.parse]: the empty string, prose without brackets, malformed
    JSON, JSON that is not an array, and values that are not strings. *)
Example parseGeminiJson_named_inputs :
  parseGeminiJson JsonReader.parse (RText "") = Ok [] /\
  parseGeminiJson JsonReader.parse (RText prose) = Ok [] /\
  parseGeminiJson JsonReader.parse (RText "[{ theme: privacy_app ") = Ok [] /\
  parseGeminiJson JsonReader.parse (RText "{ }") = Ok [] /\
  parseGeminiJson JsonReader.parse (RText "42") = Ok [] /\
  parseGeminiJson JsonReader.parse RUndefined = Ok [] /\
  parseGeminiJson JsonReader.parse (RValue (JArray [JNull])) = Ok [].
Proof. vm_compute. repeat split. Qed.

(** A fenced answer is recovered by the second tier, a bracketed one by
    the third. *)
Example parseGeminiJson_recovers :
  parseGeminiJson JsonReader.parse
    (RText ("Here you go:" +:+ String "010" "```json"
            +:+ String "010" "[1, [true, null]]" +:+ String "010" "``` done"))
    = Ok [JNumber "1"; JArray [JBool true; JNull]] /\
  parseGeminiJson JsonReader.parse (RText "Findings: [ [1,2], [3] ] as asked")
    = Ok [JArray [JNumber "1"; JNumber "2"]; JArray [JNumber "3"]].
Proof. vm_compute. split; reflexivity. Qed.

(** ** Category scores *)

Definition theme_key (f : Finding) : string := JS.or_else (theme f) "other".
Definition severity_key (f : Finding) : string :=
  JS.toLowerCase (JS.or_else (severity f) "low").

(** The penalty of a severity as the specification words it: high 20,
    medium 10, low 4, anything else 4. *)
Definition stated_penalty (sev : string) : Z :=
  if String.eqb sev "high" then 20
  else if String.eqb sev "medium" then 10
  else 4.

(** The sum of the stated penalties over the findings of a theme. *)
Definition penalty_sum (theme : string) (findings : list Finding) : Z :=
  foldr (fun f acc =>
           if String.eqb (theme_key f) theme
           then (stated_penalty (severity_key f) + acc)%Z else acc)
        0%Z findings.

Definition soft_floor (text : string) (theme : string) : Z :=
  match detectSoftFloors text !! theme with
  | Some z => z
  | None => 0
  end.

(** The category score as the specification states it. *)
Definition stated_score (theme : string) (findings : list Finding) (text : string) : Z :=
  Z.max (Z.max 0 (100 - penalty_sum theme findings)) (soft_floor text theme).

Lemma eqb_false_ne (a b : string) : String.eqb a b = false -> a <> b.
Proof. intros H ->. rewrite String.eqb_refl in H. discriminate H. Qed.

Lemma severityPenalty_lookup (sev : string) :
  JS.inherited sev = false ->
  nullish (JS.get severityPenalty sev) 4 = VNum (stated_penalty sev).
Proof.
  intros Hi. unfold stated_penalty, JS.get, severityPenalty.
  destruct (String.eqb sev "high") eqn:E1.
  { apply String.eqb_eq in E1. subst sev. reflexivity. }
  apply eqb_false_ne in E1.
  rewrite lookup_insert_ne by congruence.
  destruct (String.eqb sev "medium") eqn:E2.
  { apply String.eqb_eq in E2. subst sev. reflexivity. }
  apply eqb_false_ne in E2.
  rewrite lookup_insert_ne by congruence.
  destruct (String.eqb sev "low") eqn:E3.
  { apply String.eqb_eq in E3. subst sev. reflexivity. }
  apply eqb_false_ne in E3.
  rewrite lookup_singleton_ne by congruence.
  rewrite Hi. reflexivity.
Qed.

Lemma stated_penalty_nonneg (sev : string) : (0 <= stated_penalty sev)%Z.
Proof.
  unfold stated_penalty.
  destruct (String.eqb sev "high"), (String.eqb sev "medium"); lia.
Qed.

Lemma penalty_sum_nonneg (theme : string) (findings : list Finding) :
  (0 <= penalty_sum theme findings)%Z.
Proof.
  induction findings as [ | f fs IH]; simpl; [lia | ].
  destruct (String.eqb (theme_key f) theme); [ | exact IH].
  pose proof (stated_penalty_nonneg (severity_key f)). lia.
Qed.

Lemma js_set_get_eq {V} (m : gmap string V) (k : string) (v : V) :
  k <> "__proto__" -> JS.get (js_set m k v) k = JS.Own v.
Proof.
  intros Hk. unfold js_set, JS.get.
  destruct (String.eqb k "__proto__") eqn:E.
  { apply String.eqb_eq in E. contradiction. }
  rewrite lookup_insert_eq. reflexivity.
Qed.

Lemma js_set_get_ne {V} (m : gmap string V) (k k' : string) (v : V) :
  k <> k' -> JS.get (js_set m k v) k' = JS.get m k'.
Proof.
  intros Hk. unfold js_set, JS.get.
  destruct (String.eqb k "__proto__"); [reflexivity | ].
  rewrite lookup_insert_ne by exact Hk. reflexivity.
Qed.

(** A finding of another theme leaves the counter of [k] alone. *)
Lemma count_step_other (m : gmap string value) (f : Finding) (k : string) :
  theme_key f <> k -> JS.get (count_step m f) k = JS.get m k.
Proof. intros Hk. unfold count_step. apply js_set_get_ne. exact Hk. Qed.

Lemma count_step_same (m : gmap string value) (f : Finding) (k : string) (n : Z) :
  theme_key f = k -> k <> "__proto__" ->
  JS.inherited (severity_key f) = false ->
  or_zero (JS.get m k) = VNum n ->
  or_zero (JS.get (count_step m f) k) = VNum (n + stated_penalty (severity_key f)).
Proof.
  intros Hk Hp Hi Hn. unfold count_step.
  fold (theme_key f). fold (severity_key f). rewrite Hk.
  rewrite js_set_get_eq by exact Hp.
  rewrite severityPenalty_lookup by exact Hi.
  simpl. rewrite Hn. reflexivity.
Qed.

(** The findings of theme [k] have a severity that is no property name
    of [Object.prototype]. *)
Definition plain_severities (k : string) (findings : list Finding) : Prop :=
  Forall (fun f => theme_key f = k -> JS.inherited (severity_key f) = false) findings.

Lemma count_fold (findings : list Finding) (m : gmap string value) (k : string) (n : Z) :
  k <> "__proto__" ->
  plain_severities k findings ->
  or_zero (JS.get m k) = VNum n ->
  or_zero (JS.get (foldl count_step m findings) k)
    = VNum (n + penalty_sum k findings).
Proof.
  intros Hp. revert m n.
  induction findings as [ | f fs IH]; intros m n Hall Hn; simpl.
  { rewrite Hn. f_equal. lia. }
  apply Forall_cons in Hall as [Hf Hfs].
  destruct (String.eqb (theme_key f) k) eqn:E.
  - apply String.eqb_eq in E.
    rewrite (IH _ (n + stated_penalty (severity_key f))%Z Hfs).
    + f_equal. lia.
    + apply count_step_same; auto.
  - apply eqb_false_ne in E.
    apply (IH _ n Hfs). rewrite count_step_other by exact E. exact Hn.
Qed.

Lemma category_keys_plain (k : string) :
  k ∈ category_keys -> k <> "__proto__" /\ JS.inherited k = false.
Proof.
  unfold category_keys. intros H.
  repeat (apply elem_of_cons in H as [-> | H]; [split; [discriminate | reflexivity] | ]).
  exfalso. by apply elem_of_nil in H.
Qed.

Lemma category_map_lookup (tc : gmap string value) (floors : gmap string Z) (k : string) :
  k ∈ category_keys ->
  category_map tc floors !! k = Some (category_score tc floors k).
Proof.
  unfold category_keys, category_map. intros H. simpl foldl.
  repeat (apply elem_of_cons in H as [-> | H];
          [repeat first [rewrite lookup_insert_eq; reflexivity
                        | rewrite lookup_insert_ne by discriminate] | ]).
  exfalso. by apply elem_of_nil in H.
Qed.

Lemma soft_floor_get (text : string) (k : string) :
  k ∈ category_keys ->
  JS.get (detectSoftFloors text) k = JS.Own (soft_floor text k) /\
  (soft_floor text k = 0 \/ soft_floor text k = 20)%Z.
Proof.
  unfold category_keys, soft_floor, JS.get, detectSoftFloors. cbv zeta. intros H.
  repeat (apply elem_of_cons in H as [-> | H];
          [repeat first [rewrite lookup_insert_eq | rewrite lookup_singleton_eq
                        | rewrite lookup_insert_ne by discriminate];
           match goal with |- context [if ?b then _ else _] => destruct b end;
           (split; [reflexivity | lia]) | ]).
  exfalso. by apply elem_of_nil in H.
Qed.

(** What C3 states holds for every theme whose findings have plain
    severities: the score is
    [max (max 0 (100 - penaltySum)) floor], an integer from 0 to 100. *)
Lemma category_score_plain (findings : list Finding) (plan : list RemediationItem)
    (text : string) (k : string) :
  k ∈ category_keys ->
  plain_severities k findings ->
  category (aggregate findings plan text) k = Some (Int (stated_score k findings text)) /\
  (0 <= stated_score k findings text <= 100)%Z.
Proof.
  intros Hk Hplain.
  destruct (category_keys_plain k Hk) as [Hp Hi].
  destruct (soft_floor_get text k Hk) as [Hfl Hfl2].
  pose proof (penalty_sum_nonneg k findings) as Hpos.
  split; [ | unfold stated_score; lia].
  unfold category, aggregate, aggregate_with. simpl.
  rewrite category_map_lookup by exact Hk.
  unfold category_score, count_penalties.
  rewrite (count_fold findings ∅ k 0 Hp Hplain).
  - rewrite Hfl. simpl. unfold stated_score. reflexivity.
  - unfold JS.get. rewrite lookup_empty, Hi. reflexivity.
Qed.

Definition bare_finding : Finding :=
  {| id := None; theme := None; title := None; status := None; severity := None;
     evidence := None; impact := None; recommendation := None;
     references := []; confidence := 0 |}.

(** A finding as the model may return it: theme [privacy_app], severity
    [constructor]. *)
Definition odd_severity_finding : Finding :=
  {| id := Some "F-1"; theme := Some "privacy_app";
     title := Some "Consent wording"; status := Some "partial";
     severity := Some "constructor"; evidence := Some "not found";
     impact := None; recommendation := None; references := []; confidence := 0.5 |}.

(** C3 fails on the code: the severity [constructor] is not recognized,
    so the claim gives it 4 points and the privacy score 96; but
    [severityPenalty["constructor"]] is the inherited constructor
    function, which [?? 4] keeps, and the privacy score and the overall
    score come out as [NaN]. *)
Theorem category_score_inherited_severity :
  let r := aggregate [odd_severity_finding] [] "" in
  stated_score "privacy_app" [odd_severity_finding] "" = 96%Z /\
  category r "privacy_app" = Some NaN /\
  overall (scores r) = NaN.
Proof. vm_compute. repeat split. Qed.

(** The same with a missing severity or an unknown one that is no
    inherited name: 4 points, as stated. *)
Example category_score_unknown_severity :
  category (aggregate [ {| id := None; theme := Some "privacy_app"; title := None;
                           status := None; severity := Some "Critical";
                           evidence := None; impact := None; recommendation := None;
                           references := []; confidence := 0 |};
                        {| id := None; theme := Some "privacy_app"; title := None;
                           status := None; severity := None;
                           evidence := None; impact := None; recommendation := None;
                           references := []; confidence := 0 |} ] [] "")
           "privacy_app" = Some (Int 92).
Proof. vm_compute. reflexivity. Qed.

(** ** Findings outside the five themes *)

Ltac in_category_keys :=
  unfold category_keys;
  repeat first [apply list_elem_of_here | apply list_elem_of_further].

Lemma category_map_ext (tc tc' : gmap string value) (floors : gmap string Z) :
  (forall k, k ∈ category_keys -> JS.get tc' k = JS.get tc k) ->
  category_map tc' floors = category_map tc floors.
Proof.
  intros H.
  assert (Hs : forall k, k ∈ category_keys ->
                 category_score tc' floors k = category_score tc floors k).
  { intros k Hk. unfold category_score. rewrite (H k Hk). reflexivity. }
  unfold category_map. simpl foldl.
  rewrite !Hs by in_category_keys. reflexivity.
Qed.

Lemma theme_key_outside (f : Finding) :
  (forall k, k ∈ category_keys -> theme f <> Some k) ->
  theme_key f ∉ category_keys.
Proof.
  intros H Hin. unfold theme_key, JS.or_else in Hin.
  assert (Hother : "other" ∉ category_keys).
  { unfold category_keys. intros Ho.
    repeat (apply elem_of_cons in Ho as [Ho | Ho]; [discriminate Ho | ]).
    by apply elem_of_nil in Ho. }
  destruct (theme f) as [s | ] eqn:E; [ | exact (Hother Hin)].
  destruct (String.eqb s ""); [exact (Hother Hin) | ].
  exact (H s Hin eq_refl).
Qed.

(** C8: appending a finding whose theme is none of the five fixed themes
    (a missing or empty theme counts under [other]) leaves the five
    category scores and the overall score of [aggregate] as they were,
    whatever the weights, the text and the remediation plan. *)
Theorem aggregate_ignores_other_themes (weights : Weights) (findings : list Finding)
    (plan : list RemediationItem) (text : string) (f : Finding) :
  (forall k, k ∈ category_keys -> theme f <> Some k) ->
  scores (aggregate_with weights (findings ++ [f]) plan text)
    = scores (aggregate_with weights findings plan text).
Proof.
  intros H. apply theme_key_outside in H.
  unfold aggregate_with. simpl.
  assert (Hmap : category_map (count_penalties (findings ++ [f])) (detectSoftFloors text)
                 = category_map (count_penalties findings) (detectSoftFloors text)).
  { apply category_map_ext. intros k Hk.
    unfold count_penalties. rewrite foldl_app. simpl.
    apply count_step_other. intros Heq. apply H. rewrite Heq. exact Hk. }
  rewrite Hmap. reflexivity.
Qed.

(** A finding without a theme, as severe as can be. *)
Definition themeless_finding : Finding :=
  {| id := Some "F-9"; theme := None; title := Some "Unclassified gap";
     status := Some "non_compliant"; severity := Some "high";
     evidence := Some "not found"; impact := None;
     recommendation := Some "Classify the gap."; references := [];
     confidence := 0.4 |}.

Lemma aggregate_ignores_other_themes_witness :
  scores (aggregate_with config.weights ([odd_severity_finding] ++ [themeless_finding])
            [] doc7)
    = scores (aggregate_with config.weights [odd_severity_finding] [] doc7).
Proof.
  apply aggregate_ignores_other_themes.
  intros k Hk. discriminate.
Defined.

(** The counters also leave alone the themes named after properties of
    [Object.prototype]. *)
Example aggregate_ignores_proto_theme :
  let f := {| id := None; theme := Some "__proto__"; title := None; status := None;
              severity := Some "high"; evidence := None; impact := None;
              recommendation := None; references := []; confidence := 0 |} in
  scores (aggregate [f; themeless_finding] [] "") = scores (aggregate [] [] "") /\
  overall (scores (aggregate [] [] "")) = Int 100.
Proof. vm_compute. split; reflexivity. Qed.

(** ** Rounding in binary64 arithmetic

    What [SFmul] and [SFadd] return on numbers that are not negative:
    the exact product or sum [v], off by at most [v * 2^-53 + 2^-1075],
    or the positive infinity when [v] is [2^972] or more. *)

Module DoubleFacts.

Import Double.
Local Open Scope Z_scope.

(** [mrs] is what [k] right shifts make of the mantissa [m]: the quotient
    by [2^k], with the round bit and the sticky bit of the remainder. *)
Definition shifted (m k : Z) (mrs : shr_record) : Prop :=
  0 <= shr_m mrs /\
  exists rem, m = shr_m mrs * 2 ^ k + rem /\ 0 <= rem < 2 ^ k /\
    shr_r mrs = (2 ^ k <=? 2 * rem) /\
    shr_s mrs = negb (rem =? 0) && negb (2 * rem =? 2 ^ k).

Lemma shifted_0 (m : Z) : 0 <= m -> shifted m 0 (Build_shr_record m false false).
Proof.
  intros Hm. split; [exact Hm|]. exists 0. cbn [shr_m shr_r shr_s]. repeat split; try lia; reflexivity.
Qed.

Lemma shifted_step (m k : Z) (mrs : shr_record) :
  0 <= k -> shifted m k mrs -> shifted m (k + 1) (shr_1 mrs).
Proof.
  intros Hk [Hm (rem & E & Hrem & Hr & Hs)].
  assert (Hp : 2 ^ (k + 1) = 2 * 2 ^ k) by (rewrite Z.pow_add_r by lia; lia).
  assert (Hpos : 0 < 2 ^ k) by (apply Z.pow_pos_nonneg; lia).
  destruct mrs as [M r s]. cbn [shr_m shr_r shr_s] in Hm, E, Hr, Hs.
  assert (Hs' : orb r s = negb (rem =? 0)).
  { clear E Hp Hm. subst r s. destruct (Z.leb_spec (2 ^ k) (2 * rem)), (Z.eqb_spec rem 0),
      (Z.eqb_spec (2 * rem) (2 ^ k)); cbn; try reflexivity; lia. }
  assert (Hcase : forall M' (b : bool), 0 <= M' -> M = 2 * M' + (if b then 1 else 0) ->
            shifted m (k + 1) (Build_shr_record M' b (orb r s))).
  { intros M' b HM' EM. split; [exact HM'|].
    exists (rem + (if b then 1 else 0) * 2 ^ k). cbn [shr_m shr_r shr_s]. rewrite Hp.
    split; [subst M; destruct b; lia|].
    split; [destruct b; lia|].
    split.
    - destruct b; [symmetry; apply Z.leb_le; lia | symmetry; apply Z.leb_gt; lia].
    - rewrite Hs'. destruct b.
      + destruct (Z.eqb_spec rem 0), (Z.eqb_spec (rem + 1 * 2 ^ k) 0),
          (Z.eqb_spec (2 * (rem + 1 * 2 ^ k)) (2 * 2 ^ k)); cbn; try reflexivity; lia.
      + destruct (Z.eqb_spec rem 0), (Z.eqb_spec (rem + 0 * 2 ^ k) 0),
          (Z.eqb_spec (2 * (rem + 0 * 2 ^ k)) (2 * 2 ^ k)); cbn; try reflexivity; lia. }
  unfold shr_1.
  destruct M as [|[p|p|]|p]; try lia.
  - apply (Hcase 0 false); lia.
  - apply (Hcase (Zpos p) true); lia.
  - apply (Hcase (Zpos p) false); lia.
  - apply (Hcase 0 true); lia.
Qed.

Lemma shifted_iter (m : Z) (p : positive) : forall k mrs,
  0 <= k -> shifted m k mrs -> shifted m (k + Zpos p) (SpecFloat.iter_pos shr_1 p mrs).
Proof.
  induction p as [p IH|p IH|]; intros k mrs Hk H; cbn [SpecFloat.iter_pos].
  - replace (k + Z.pos p~1) with (k + 1 + Z.pos p + Z.pos p) by lia.
    apply IH; [lia|]. apply IH; [lia|]. apply shifted_step; assumption.
  - replace (k + Z.pos p~0) with (k + Z.pos p + Z.pos p) by lia.
    apply IH; [lia|]. apply IH; assumption.
  - apply shifted_step; assumption.
Qed.

(** Rounding the shifted mantissa is off by at most half a unit. *)
Lemma round_nearest_even_shifted (m k : Z) (mrs : shr_record) :
  shifted m k mrs ->
  let m1 := round_nearest_even (shr_m mrs) (loc_of_shr_record mrs) in
  shr_m mrs <= m1 <= shr_m mrs + 1 /\ Z.abs (2 * (m - m1 * 2 ^ k)) <= 2 ^ k.
Proof.
  intros [Hm (rem & E & Hrem & Hr & Hs)]. destruct mrs as [M r s].
  cbn [shr_m shr_r shr_s] in *. subst r s. unfold loc_of_shr_record, round_nearest_even.
  destruct (Z.leb_spec (2 ^ k) (2 * rem)), (Z.eqb_spec rem 0),
    (Z.eqb_spec (2 * rem) (2 ^ k)); cbn [negb andb]; try destruct (Z.even M); split; try lia.
Qed.

Lemma digits2_pos_bounds (m : positive) :
  2 ^ (Zpos (digits2_pos m) - 1) <= Zpos m < 2 ^ Zpos (digits2_pos m).
Proof.
  induction m as [m IH|m IH|]; cbn [digits2_pos].
  - rewrite Pos2Z.inj_succ. replace (Z.succ (Z.pos (digits2_pos m)) - 1) with (Z.pos (digits2_pos m) - 1 + 1) by lia.
    rewrite Z.pow_succ_r by lia. rewrite Z.pow_add_r by lia. lia.
  - rewrite Pos2Z.inj_succ. replace (Z.succ (Z.pos (digits2_pos m)) - 1) with (Z.pos (digits2_pos m) - 1 + 1) by lia.
    rewrite Z.pow_succ_r by lia. rewrite Z.pow_add_r by lia. lia.
  - cbn. lia.
Qed.


Lemma fexp_eq (x : Z) : fexp prec emax x = Z.max (x - 53) (-1074).
Proof. reflexivity. Qed.

Lemma Zdigits2_bounds (M : Z) :
  0 < M -> 2 ^ (Zdigits2 M - 1) <= M < 2 ^ Zdigits2 M.
Proof.
  destruct M as [|p|p]; try lia. intros _. apply digits2_pos_bounds.
Qed.

Lemma Zdigits2_nonneg (M : Z) : 0 <= Zdigits2 M.
Proof. destruct M; cbn; lia. Qed.

Lemma shr_fexp_exact (M e : Z) :
  fexp prec emax (Zdigits2 M + e) <= e ->
  shr_fexp prec emax M e loc_Exact = (Build_shr_record M false false, e).
Proof.
  intros H. unfold shr_fexp, shr, shr_record_of_loc.
  destruct (fexp prec emax (Zdigits2 M + e) - e) eqn:E; try reflexivity; lia.
Qed.

Lemma shr_fexp_shift (M e : Z) :
  0 <= M -> e < fexp prec emax (Zdigits2 M + e) ->
  exists mrs, shr_fexp prec emax M e loc_Exact = (mrs, fexp prec emax (Zdigits2 M + e)) /\
              shifted M (fexp prec emax (Zdigits2 M + e) - e) mrs.
Proof.
  intros HM H. unfold shr_fexp, shr, shr_record_of_loc.
  destruct (fexp prec emax (Zdigits2 M + e) - e) as [|p|p] eqn:E; try lia.
  eexists. split.
  - f_equal. lia.
  - replace (Z.pos p) with (0 + Z.pos p) by lia.
    apply shifted_iter; [lia|]. apply shifted_0. exact HM.
Qed.

(** A zero or a positive finite number. *)
Definition nonneg (x : spec_float) : bool :=
  match x with
  | S754_zero _ | S754_finite false _ _ => true
  | _ => false
  end.

Lemma pow2_add (a b : Z) : (pow2 (a + b) == pow2 a * pow2 b)%Q.
Proof. apply Qpower_plus. discriminate. Qed.

Lemma pow2_pos (a : Z) : (0 < pow2 a)%Q.
Proof. apply Qpower_0_lt. reflexivity. Qed.

Lemma pow2_inject (k : Z) : 0 <= k -> (inject_Z (2 ^ k) == pow2 k)%Q.
Proof. intros H. apply (Zpower_Qpower 2 k H). Qed.

Lemma pow2_le (a b : Z) : a <= b -> (pow2 a <= pow2 b)%Q.
Proof. intros H. apply Qpower_le_compat_l; [exact H|]. discriminate. Qed.

(** [binary_round_aux] on an exact mantissa: it is kept when it fits, and
    else shifted to the exponent [fexp] gives and rounded. *)
Lemma binary_round_aux_Z (m : positive) (e : Z) :
  let x := binary_round_aux prec emax false (Zpos m) e loc_Exact in
  let fe := fexp prec emax (Zpos (digits2_pos m) + e) in
  (fe <= e /\ x = (if e <=? 971 then S754_finite false m e else S754_infinity false)) \/
  (e < fe /\ exists m1, 0 <= m1 /\
     Z.abs (2 * (Zpos m - m1 * 2 ^ (fe - e))) <= 2 ^ (fe - e) /\
     ((x = S754_infinity false /\ 971 <= fe) \/
      (nonneg x = true /\ (to_Q x == inject_Z m1 * pow2 fe)%Q))).
Proof.
  intros x fe. subst x.
  destruct (Z_le_gt_dec fe e) as [Hle|Hgt].
  - left. split; [exact Hle|]. unfold binary_round_aux.
    rewrite (shr_fexp_exact (Zpos m) e) by exact Hle.
    cbn [shr_m loc_of_shr_record round_nearest_even].
    rewrite (shr_fexp_exact (Zpos m) e) by exact Hle.
    cbn [shr_m]. reflexivity.
  - right. split; [lia|].
    destruct (shr_fexp_shift (Zpos m) e) as (mrs & E & Hs); [lia|exact (Z.gt_lt _ _ Hgt)|].
    change (fexp prec emax (Zdigits2 (Z.pos m) + e)) with fe in E, Hs.
    pose proof (round_nearest_even_shifted _ _ _ Hs) as [Hm1 Herr].
    destruct Hs as [HM (rem & Em & Hrem & _)].
    unfold binary_round_aux. rewrite E. cbv beta iota.
    set (m1 := round_nearest_even (shr_m mrs) (loc_of_shr_record mrs)) in *.
    clearbody m1.
    exists m1. split; [lia|]. split; [exact Herr|].
    pose proof (digits2_pos_bounds m) as Hd.
    set (d := Zpos (digits2_pos m)) in *.
    assert (Hfe : fe = Z.max (d + e - 53) (-1074)) by reflexivity.
    assert (Hn : 0 < fe - e) by lia.
    assert (HP : 0 < 2 ^ (fe - e)) by (apply Z.pow_pos_nonneg; lia).
    assert (HM53 : shr_m mrs < 2 ^ 53).
    { assert (2 ^ d <= 2 ^ (fe - e) * 2 ^ 53).
      { rewrite <- Z.pow_add_r by lia. apply Z.pow_le_mono_r; lia. }
      apply (Z.mul_lt_mono_pos_r (2 ^ (fe - e))); [exact HP|]. clear Herr. lia. }
    assert (Hm1le : m1 <= 2 ^ 53) by lia.
    destruct (Z.eq_dec m1 0) as [E0|N0].
    + (* rounded to zero *)
      rewrite E0. rewrite shr_fexp_exact by (cbn [Zdigits2]; rewrite fexp_eq; lia).
      cbn [shr_m]. right. split; [reflexivity|]. cbn [to_Q]. change (inject_Z 0) with 0%Q. ring.
    + destruct (Z.eq_dec m1 (2 ^ 53)) as [E53|N53].
      * (* the mantissa overflows: one more shift *)
        rewrite E53. 
        assert (Hsh : shr_fexp prec emax (2 ^ 53) fe loc_Exact =
                      (Build_shr_record (2 ^ 52) false false, fe + 1)).
        { unfold shr_fexp, shr. change (Zdigits2 (2 ^ 53)) with 54.
          rewrite fexp_eq. replace (Z.max (54 + fe - 53) (-1074) - fe) with 1 by lia.
          reflexivity. }
        rewrite Hsh. cbn [shr_m]. change (2 ^ 52) with (Zpos (2 ^ 52)).
        destruct (Z.leb_spec (fe + 1) (emax - prec)) as [Hb|Hb].
        -- right. split; [reflexivity|]. cbn [to_Q cond_Zopp].
           rewrite pow2_add. change (pow2 1) with 2%Q.
           change (inject_Z (2 ^ 53)) with (inject_Z (Zpos (2 ^ 52)) * 2)%Q. ring.
        -- left. split; [reflexivity|]. unfold emax, prec in Hb. lia.
      * assert (Hpos : 0 < m1) by lia.
        assert (Hd1 : Zdigits2 m1 <= 53).
        { pose proof (Zdigits2_bounds m1 Hpos) as [Hl _].
          assert (Hlt : 2 ^ (Zdigits2 m1 - 1) < 2 ^ 53) by lia.
          apply Z.pow_lt_mono_r_iff in Hlt; lia. }
        rewrite shr_fexp_exact by (rewrite fexp_eq; lia).
        cbn [shr_m]. destruct m1 as [|p|p]; try lia.
        destruct (Z.leb_spec fe (emax - prec)) as [Hb|Hb].
        -- right. split; [reflexivity|]. reflexivity.
        -- left. split; [reflexivity|]. unfold emax, prec in Hb. lia.
Qed.

(** The unit roundoff and half the smallest positive double. *)
Definition u : Q := pow2 (-53).
Definition eta : Q := pow2 (-1075).

(** [x] is the exact number [v], rounded. *)
Definition rounds (v : Q) (x : spec_float) : Prop :=
  nonneg x = true /\ (v * (1 - u) - eta <= to_Q x)%Q /\ (to_Q x <= v * (1 + u) + eta)%Q.

Lemma u_pos : (0 < u)%Q.
Proof. apply pow2_pos. Qed.

Lemma eta_pos : (0 < eta)%Q.
Proof. apply pow2_pos. Qed.

Lemma rounds_ext (v v' : Q) (x : spec_float) : (v == v')%Q -> rounds v x -> rounds v' x.
Proof.
  intros E (Hn & Hl & Hu). split; [exact Hn|]. rewrite <- E. split; assumption.
Qed.

Lemma rounds_exact (x : spec_float) : nonneg x = true -> rounds (to_Q x) x.
Proof.
  intros Hn. split; [exact Hn|].
  assert (Hv : (0 <= to_Q x)%Q).
  { destruct x as [s|s| |[|] m e]; try discriminate; cbn [to_Q cond_Zopp]; try lra.
    apply Qmult_le_0_compat; [|apply Qlt_le_weak, pow2_pos].
    change 0%Q with (inject_Z 0). rewrite <- Zle_Qle. lia. }
  pose proof u_pos. pose proof eta_pos.
  assert (0 <= to_Q x * u)%Q by (apply Qmult_le_0_compat; lra).
  split; lra.
Qed.

Lemma binary_round_aux_rounds (m : positive) (e : Z) :
  let x := binary_round_aux prec emax false (Zpos m) e loc_Exact in
  let v := (inject_Z (Zpos m) * pow2 e)%Q in
  (x = S754_infinity false /\ (pow2 972 <= v)%Q) \/ rounds v x.
Proof.
  intros x v.
  assert (Hm : (1 <= inject_Z (Zpos m))%Q).
  { change 1%Q with (inject_Z 1). rewrite <- Zle_Qle. lia. }
  pose proof (pow2_pos e) as HP.
  pose proof (digits2_pos_bounds m) as Hd.
  destruct (binary_round_aux_Z m e)
    as [[Hle Hx] | (Hlt & m1 & Hm1 & Herr & [[Hx Hfe] | [Hn Hv]])]; fold x in Hx || fold x in Hn, Hv.
  - destruct (Z.leb_spec e 971) as [Hb|Hb].
    + right. rewrite Hx. apply (rounds_exact (S754_finite false m e)). reflexivity.
    + left. split; [exact Hx|]. subst v.
      pose proof (pow2_le 972 e ltac:(lia)).
      assert (pow2 e <= inject_Z (Zpos m) * pow2 e)%Q; [|lra].
      rewrite <- (Qmult_1_l (pow2 e)) at 1. apply Qmult_le_compat_r; lra.
  - left. split; [exact Hx|]. subst v.
    rewrite fexp_eq in Hlt, Hfe.
    set (d := Zpos (digits2_pos m)) in *.
    assert (Hd' : (pow2 (d - 1) <= inject_Z (Zpos m))%Q).
    { rewrite <- pow2_inject by lia. rewrite <- Zle_Qle. lia. }
    pose proof (pow2_le 972 (d - 1 + e) ltac:(lia)) as Hbig.
    rewrite pow2_add in Hbig.
    assert (pow2 (d - 1) * pow2 e <= inject_Z (Zpos m) * pow2 e)%Q; [|lra].
    apply Qmult_le_compat_r; lra.
  - right. split; [exact Hn|]. rewrite Hv. subst v.
    set (fe := fexp prec emax (Zpos (digits2_pos m) + e)) in *.
    set (d := Zpos (digits2_pos m)) in *.
    assert (Hfe : fe = Z.max (d + e - 53) (-1074)) by reflexivity.
    set (N := 2 ^ (fe - e)) in *.
    assert (HN : (pow2 fe == inject_Z N * pow2 e)%Q).
    { unfold N. rewrite pow2_inject by lia. rewrite <- pow2_add. f_equiv. lia. }
    rewrite HN.
    assert (H1 : 2 * Zpos m <= N + 2 * (m1 * N)) by lia.
    assert (H2 : 2 * (m1 * N) <= N + 2 * Zpos m) by lia.
    rewrite Zle_Qle in H1, H2.
    rewrite ?inject_Z_plus, ?inject_Z_mult in H1, H2.
    change (inject_Z 2) with 2%Q in H1, H2.
    set (qm := inject_Z (Zpos m)) in *. set (q1 := inject_Z m1) in *.
    set (qN := inject_Z N) in *. set (P := pow2 e) in *.
    assert (K : (qN * P <= 2 * (qm * P * u + eta))%Q).
    { pose proof u_pos. pose proof eta_pos.
      destruct (Z_le_gt_dec (d + e - 53) (-1074)) as [Hsub|Hnorm].
      - assert (Efe : fe = -1074) by lia.
        assert (0 <= qm * P * u)%Q
          by (apply Qmult_le_0_compat; [apply Qmult_le_0_compat|]; lra).
        assert (qN * P == 2 * eta)%Q; [|lra].
        rewrite <- HN, Efe. unfold eta.
        change (-1074) with (1 + -1075). rewrite pow2_add. reflexivity.
      - assert (Efe : fe - e = d - 53) by lia.
        assert (HNm : N * 2 ^ 52 <= Zpos m).
        { unfold N. rewrite Efe, <- Z.pow_add_r by lia.
          replace (d - 53 + 52) with (d - 1) by lia. lia. }
        rewrite Zle_Qle in HNm. rewrite inject_Z_mult in HNm. fold qN qm in HNm.
        assert (Eu : (inject_Z (2 ^ 52) * u == 1 # 2)%Q) by reflexivity.
        assert (HNP : (qN * inject_Z (2 ^ 52) * P <= qm * P)%Q).
        { apply Qmult_le_compat_r; lra. }
        assert (HNPu : (qN * inject_Z (2 ^ 52) * P * u <= qm * P * u)%Q).
        { apply Qmult_le_compat_r; lra. }
        assert (qN * inject_Z (2 ^ 52) * P * u == qN * P * (1 # 2))%Q.
        { rewrite <- Eu. ring. }
        lra. }
    assert (HP1 : ((2 * qm) * P <= (qN + 2 * (q1 * qN)) * P)%Q)
      by (apply Qmult_le_compat_r; lra).
    assert (HP2 : ((2 * (q1 * qN)) * P <= (qN + 2 * qm) * P)%Q)
      by (apply Qmult_le_compat_r; lra).
    split; lra.
Qed.

Lemma to_Q_nonneg (x : spec_float) : nonneg x = true -> (0 <= to_Q x)%Q.
Proof.
  intros Hn. destruct x as [s|s| |[|] m e]; try discriminate; cbn [to_Q cond_Zopp]; try lra.
  apply Qmult_le_0_compat; [|apply Qlt_le_weak, pow2_pos].
  change 0%Q with (inject_Z 0). rewrite <- Zle_Qle. lia.
Qed.

Lemma rounds_zero (s : bool) (v : Q) : (v == 0)%Q -> rounds v (S754_zero s).
Proof.
  intros E. apply (rounds_ext 0); [symmetry; exact E|].
  apply (rounds_exact (S754_zero s)). reflexivity.
Qed.

Lemma SFmul_rounds (x y : spec_float) :
  nonneg x = true -> nonneg y = true ->
  let r := mul x y in
  let v := (to_Q x * to_Q y)%Q in
  (r = S754_infinity false /\ (pow2 972 <= v)%Q) \/ rounds v r.
Proof.
  intros Hx Hy r v. subst r v. unfold mul.
  destruct x as [sx|sx| |[|] mx ex]; try discriminate;
  destruct y as [sy|sy| |[|] my ey]; try discriminate;
    try (right; apply rounds_zero; cbn [to_Q]; ring).
  cbn [SFmul xorb to_Q cond_Zopp].
  destruct (binary_round_aux_rounds (mx * my) (ex + ey)) as [[Hi Hv]|Hr].
  - left. split; [exact Hi|]. rewrite Pos2Z.inj_mul, inject_Z_mult, pow2_add in Hv.
    eapply Qle_trans; [exact Hv|]. apply Qle_lteq. right. ring.
  - right. eapply rounds_ext; [|exact Hr].
    rewrite Pos2Z.inj_mul, inject_Z_mult, pow2_add. ring.
Qed.

Lemma iter_xO (m d : positive) : Zpos (Pos.iter xO m d) = Zpos m * 2 ^ Zpos d.
Proof.
  induction d as [|d IH] using Pos.peano_ind.
  - cbn. lia.
  - rewrite Pos.iter_succ, Pos2Z.inj_succ, Z.pow_succ_r by lia.
    rewrite Pos2Z.inj_xO, IH. lia.
Qed.

Lemma shl_align_value (m : positive) (e e' : Z) :
  (inject_Z (Zpos (fst (shl_align m e e'))) * pow2 (snd (shl_align m e e')) ==
   inject_Z (Zpos m) * pow2 e)%Q.
Proof.
  unfold shl_align. destruct (e' - e) as [|d|d] eqn:E; cbn [fst snd]; try reflexivity.
  rewrite iter_xO, inject_Z_mult, pow2_inject by lia.
  rewrite <- Qmult_assoc, <- pow2_add. replace (Z.pos d + e') with e by lia. reflexivity.
Qed.

Lemma shl_align_exp (m : positive) (e e' : Z) :
  e' <= e -> snd (shl_align m e e') = e'.
Proof.
  intros H. unfold shl_align. destruct (e' - e) as [|d|d] eqn:E; cbn [snd]; lia.
Qed.

Lemma binary_round_rounds (m : positive) (e : Z) :
  let x := binary_round prec emax false m e in
  let v := (inject_Z (Zpos m) * pow2 e)%Q in
  (x = S754_infinity false /\ (pow2 972 <= v)%Q) \/ rounds v x.
Proof.
  intros x v. subst x v. unfold binary_round.
  pose proof (shl_align_value m e (fexp prec emax (Z.pos (digits2_pos m) + e))) as Hv.
  destruct (shl_align m e (fexp prec emax (Z.pos (digits2_pos m) + e))) as [mz ez].
  cbn [fst snd] in Hv.
  destruct (binary_round_aux_rounds mz ez) as [[Hi Hb]|Hr].
  - left. split; [exact Hi|]. rewrite <- Hv. exact Hb.
  - right. eapply rounds_ext; [exact Hv|exact Hr].
Qed.

Lemma SFadd_rounds (x y : spec_float) :
  nonneg x = true -> nonneg y = true ->
  let r := add x y in
  let v := (to_Q x + to_Q y)%Q in
  (r = S754_infinity false /\ (pow2 972 <= v)%Q) \/ rounds v r.
Proof.
  intros Hx Hy r v. subst r v. unfold add.
  destruct x as [sx|sx| |[|] mx ex]; try discriminate;
  destruct y as [sy|sy| |[|] my ey]; try discriminate.
  - right. destruct sx, sy; apply rounds_zero; cbn [to_Q]; ring.
  - right. cbn [SFadd]. eapply rounds_ext; [|apply rounds_exact; reflexivity].
    cbn [to_Q]. ring.
  - right. cbn [SFadd]. eapply rounds_ext; [|apply rounds_exact; reflexivity].
    cbn [to_Q]. ring.
  - cbn [SFadd to_Q cond_Zopp].
    set (ez := Z.min ex ey).
    pose proof (shl_align_value mx ex ez) as Vx.
    pose proof (shl_align_value my ey ez) as Vy.
    rewrite shl_align_exp in Vx, Vy by lia.
    set (ax := fst (shl_align mx ex ez)) in *.
    set (ay := fst (shl_align my ey ez)) in *.
    change (Z.pos ax + Z.pos ay) with (Z.pos (ax + ay)).
    cbn [binary_normalize].
    assert (E : (inject_Z (Z.pos (ax + ay)) * pow2 ez ==
                 inject_Z (Z.pos mx) * pow2 ex + inject_Z (Z.pos my) * pow2 ey)%Q).
    { rewrite <- Vx, <- Vy, Pos2Z.inj_add, inject_Z_plus. ring. }
    destruct (binary_round_rounds (ax + ay) ez) as [[Hi Hb]|Hr].
    + left. split; [exact Hi|]. rewrite <- E. exact Hb.
    + right. eapply rounds_ext; [exact E|exact Hr].
Qed.

(** Adding an infinity. *)
Lemma SFadd_infinity_l (y : spec_float) :
  nonneg y = true -> add (S754_infinity false) y = S754_infinity false.
Proof. destruct y as [s|s| |[|] m e]; try discriminate; reflexivity. Qed.

End DoubleFacts.

(** Bounds for the sums and products of the overall score. *)

Module DoubleBounds.

Import Double DoubleFacts.
Local Open Scope Q_scope.

(** A bound on the rounding errors that linear arithmetic can use. *)
Definition slack : Q := 1 # 1000000.

Lemma u_slack : u <= slack.
Proof. apply Qle_bool_imp_le. vm_compute. reflexivity. Qed.

Lemma eta_slack : eta <= slack.
Proof. apply Qle_bool_imp_le. vm_compute. reflexivity. Qed.

Lemma pow2_972_big : 1000 <= pow2 972.
Proof. apply Qle_bool_imp_le. vm_compute. reflexivity. Qed.

Lemma rounds_slack (v : Q) (x : spec_float) :
  0 <= v -> rounds v x ->
  nonneg x = true /\ v * (1 - slack) - slack <= to_Q x <= v * (1 + slack) + slack.
Proof.
  intros Hv (Hn & Hl & Hu). split; [exact Hn|].
  pose proof u_slack. pose proof eta_slack.
  assert (v * u <= v * slack) by (rewrite !(Qmult_comm v); apply Qmult_le_compat_r; assumption).
  unfold slack in *. split; lra.
Qed.

(** A number that is not negative: a zero, a positive finite number or
    the positive infinity. *)
Definition nonneg_or_inf (x : spec_float) : Prop :=
  nonneg x = true \/ x = S754_infinity false.

Lemma is_nonneg_cases (w : spec_float) : is_nonneg w = true -> nonneg_or_inf w.
Proof.
  destruct w as [s|[|]| |[|] m e]; try discriminate; intros _;
    first [left; reflexivity | right; reflexivity].
Qed.

Lemma add_nonneg_or_inf (x y : spec_float) :
  nonneg_or_inf x -> nonneg_or_inf y ->
  add x y = S754_infinity false \/
  (nonneg x = true /\ nonneg y = true /\ rounds (to_Q x + to_Q y) (add x y)).
Proof.
  intros [Hx| ->] [Hy| ->].
  - destruct (SFadd_rounds x y Hx Hy) as [[Hi _]|Hr]; [left; exact Hi|right; auto].
  - left. destruct x as [s|s| |[|] m e]; try discriminate; reflexivity.
  - left. apply SFadd_infinity_l. exact Hy.
  - left. reflexivity.
Qed.

Lemma add_nonneg_or_inf_closed (x y : spec_float) :
  nonneg_or_inf x -> nonneg_or_inf y -> nonneg_or_inf (add x y).
Proof.
  intros Hx Hy. destruct (add_nonneg_or_inf x y Hx Hy) as [Hi|(_ & _ & Hn & _)].
  - right. exact Hi.
  - left. exact Hn.
Qed.

(** A sum that is finite has finite terms, and is not far below the
    exact sum. *)
Lemma add_lower (x y : spec_float) :
  nonneg_or_inf x -> nonneg_or_inf y -> nonneg (add x y) = true ->
  nonneg x = true /\ nonneg y = true /\
  (to_Q x + to_Q y) * (1 - slack) - slack <= to_Q (add x y).
Proof.
  intros Hx Hy Hn. destruct (add_nonneg_or_inf x y Hx Hy) as [Hi|(Nx & Ny & Hr)].
  - rewrite Hi in Hn. discriminate Hn.
  - split; [exact Nx|]. split; [exact Ny|].
    pose proof (to_Q_nonneg x Nx). pose proof (to_Q_nonneg y Ny).
    apply rounds_slack in Hr; [|lra]. tauto.
Qed.

(** A sum of small terms is not far above the exact sum. *)
Lemma add_upper (x y : spec_float) :
  nonneg x = true -> nonneg y = true -> to_Q x + to_Q y <= 999 ->
  nonneg (add x y) = true /\
  to_Q (add x y) <= (to_Q x + to_Q y) * (1 + slack) + slack.
Proof.
  intros Nx Ny Hb.
  pose proof (to_Q_nonneg x Nx). pose proof (to_Q_nonneg y Ny).
  destruct (SFadd_rounds x y Nx Ny) as [[_ Hbig]|Hr].
  - pose proof pow2_972_big. lra.
  - apply rounds_slack in Hr; [|lra]. tauto.
Qed.

Lemma of_Z_score (z : Z) :
  (0 <= z <= 100)%Z -> nonneg (of_Z z) = true /\ to_Q (of_Z z) == inject_Z z.
Proof.
  intros Hz.
  assert (Hall : forallb (fun n => nonneg (of_Z (Z.of_nat n)) &&
                                   Qeq_bool (to_Q (of_Z (Z.of_nat n))) (inject_Z (Z.of_nat n)))
                         (seq 0 101) = true) by (vm_compute; reflexivity).
  rewrite forallb_forall in Hall.
  specialize (Hall (Z.to_nat z)). rewrite Z2Nat.id in Hall by lia.
  apply andb_prop in Hall as [Hn Hq]; [|apply in_seq; lia].
  split; [exact Hn|]. apply Qeq_bool_eq. exact Hq.
Qed.

(** The product of a score and a small weight. *)
Lemma mul_score (z : Z) (w : spec_float) :
  (0 <= z <= 100)%Z -> nonneg w = true -> to_Q w <= 2 ->
  nonneg (mul (of_Z z) w) = true /\
  to_Q (mul (of_Z z) w) <= 100 * to_Q w * (1 + slack) + slack.
Proof.
  intros Hz Nw Hw.
  destruct (of_Z_score z Hz) as [Nz Ez].
  pose proof (to_Q_nonneg w Nw) as Hw0.
  assert (Hq : 0 <= inject_Z z <= 100).
  { split; [change 0 with (inject_Z 0)|change 100 with (inject_Z 100)];
      rewrite <- Zle_Qle; lia. }
  assert (Hv : 0 <= to_Q (of_Z z) * to_Q w <= 100 * to_Q w).
  { rewrite Ez. split; [apply Qmult_le_0_compat; lra|].
    apply Qmult_le_compat_r; lra. }
  destruct (SFmul_rounds (of_Z z) w Nz Nw) as [[_ Hbig]|Hr].
  - pose proof pow2_972_big. lra.
  - apply rounds_slack in Hr; [|lra]. destruct Hr as (Hn & _ & Hr).
    split; [exact Hn|]. unfold slack in *.
    set (v := to_Q (of_Z z) * to_Q w) in *. lra.
Qed.

End DoubleBounds.

(** ** The overall score *)

Definition in_0_100 (z : Z) : Prop := (0 <= z <= 100)%Z.

(** The category map that holds the five given scores. *)
Definition category_map_of (p s c f v : Z) : gmap string jsnum :=
  {[ "privacy_app" := Int p; "security_e8" := Int s; "cdss_exemption" := Int c;
     "contract_fairness" := Int f; "vendor_sharing" := Int v ]}.

(** The sum of the weights, as the program would add them: in the order
    of the keys of [weights], each sum rounded. *)
Definition weights_sum (w : Weights) : spec_float :=
  Double.add (Double.add (Double.add (Double.add (w_privacy_app w) (w_security_e8 w))
                                     (w_cdss_exemption w))
                         (w_contract_fairness w))
             (w_vendor_sharing w).

(** [w >= 0] for each weight [w]. *)
Definition weights_nonneg (w : Weights) : Prop :=
  Double.is_nonneg (w_privacy_app w) = true /\
  Double.is_nonneg (w_security_e8 w) = true /\
  Double.is_nonneg (w_cdss_exemption w) = true /\
  Double.is_nonneg (w_contract_fairness w) = true /\
  Double.is_nonneg (w_vendor_sharing w) = true.

(** C5 as the specification states it. *)
Definition overall_in_range_as_stated : Prop :=
  forall (w : Weights) (p s c f v : Z),
    weights_sum w = Double.of_Z 1 ->
    in_0_100 p -> in_0_100 s -> in_0_100 c -> in_0_100 f -> in_0_100 v ->
    exists z, overall_score w (category_map_of p s c f v) = Int z /\ in_0_100 z.

(** Weights that sum to 1.0, one of them negative. *)
Definition skewed_weights : Weights :=
  {| w_privacy_app := Double.of_Z 2; w_security_e8 := Double.of_Z (-1);
     w_cdss_exemption := Double.of_Z 0; w_contract_fairness := Double.of_Z 0;
     w_vendor_sharing := Double.of_Z 0 |}.

(** They sum to 1.0 whether the sum is rounded or not. *)
Example skewed_weights_sum :
  weights_sum skewed_weights = Double.of_Z 1 /\
  (Double.to_Q (w_privacy_app skewed_weights) + Double.to_Q (w_security_e8 skewed_weights)
   + Double.to_Q (w_cdss_exemption skewed_weights)
   + Double.to_Q (w_contract_fairness skewed_weights)
   + Double.to_Q (w_vendor_sharing skewed_weights) == 1)%Q.
Proof. split; vm_compute; reflexivity. Qed.

Example skewed_overall :
  overall_score skewed_weights (category_map_of 100 0 0 0 0) = Int 200.
Proof. vm_compute. reflexivity. Qed.

(** C5, as stated, fails: with the weights 2, -1, 0, 0, 0 and the scores
    100, 0, 0, 0, 0 the overall score is 200. *)
Lemma overall_in_range_as_stated_fails : ~ overall_in_range_as_stated.
Proof.
  intros H.
  destruct (H skewed_weights 100 0 0 0 0)%Z as (z & Hz & Hr).
  - vm_compute. reflexivity.
  - unfold in_0_100; lia.
  - unfold in_0_100; lia.
  - unfold in_0_100; lia.
  - unfold in_0_100; lia.
  - unfold in_0_100; lia.
  - rewrite skewed_overall in Hz. injection Hz as <-. unfold in_0_100 in Hr. lia.
Qed.

Lemma overall_score_of (w : Weights) (p s c f v : Z) :
  overall_score w (category_map_of p s c f v)
  = Math_round
      (Double.add
         (Double.add
            (Double.add
               (Double.add (Double.mul (Double.of_Z p) (w_privacy_app w))
                           (Double.mul (Double.of_Z s) (w_security_e8 w)))
               (Double.mul (Double.of_Z c) (w_cdss_exemption w)))
            (Double.mul (Double.of_Z f) (w_contract_fairness w)))
         (Double.mul (Double.of_Z v) (w_vendor_sharing w))).
Proof.
  unfold overall_score, times, category_map_of.
  repeat first [rewrite lookup_insert_eq | rewrite lookup_singleton_eq
               | rewrite lookup_insert_ne by discriminate].
  reflexivity.
Qed.

(** [Math.round] of a number from 0 to 100.25. *)
Lemma Math_round_bounds (x : spec_float) :
  DoubleFacts.nonneg x = true -> (Double.to_Q x <= 401 # 4)%Q ->
  exists z, Math_round x = Int z /\ in_0_100 z.
Proof.
  intros Hn Hx. pose proof (DoubleFacts.to_Q_nonneg x Hn) as H0.
  exists (Qfloor (Double.to_Q x + (1 # 2))). split.
  - destruct x as [s|s| |s m e]; try discriminate; reflexivity.
  - unfold in_0_100. split.
    + change 0%Z with (Qfloor 0). apply Qfloor_resp_le. lra.
    + change 100%Z with (Qfloor (403 # 4)). apply Qfloor_resp_le. lra.
Qed.

(** The exact sum of the weights. *)
Definition weights_total (w : Weights) : Q :=
  (Double.to_Q (w_privacy_app w) + Double.to_Q (w_security_e8 w)
   + Double.to_Q (w_cdss_exemption w) + Double.to_Q (w_contract_fairness w)
   + Double.to_Q (w_vendor_sharing w))%Q.

(** Each weight is a zero or a positive finite number. *)
Definition weights_finite (w : Weights) : Prop :=
  DoubleFacts.nonneg (w_privacy_app w) = true /\
  DoubleFacts.nonneg (w_security_e8 w) = true /\
  DoubleFacts.nonneg (w_cdss_exemption w) = true /\
  DoubleFacts.nonneg (w_contract_fairness w) = true /\
  DoubleFacts.nonneg (w_vendor_sharing w) = true.

(** Weights that are not negative and add up to 1.0 are finite, and
    their exact sum is at most 1.001: four roundings cannot hide more. *)
Lemma weights_sum_total (w : Weights) :
  weights_nonneg w -> weights_sum w = Double.of_Z 1 ->
  weights_finite w /\ (weights_total w <= 1001 # 1000)%Q.
Proof.
  intros (H1 & H2 & H3 & H4 & H5) Hsum.
  unfold weights_sum in Hsum. unfold weights_finite, weights_total.
  destruct w as [w1 w2 w3 w4 w5]. cbn [w_privacy_app w_security_e8 w_cdss_exemption
    w_contract_fairness w_vendor_sharing] in *.
  apply DoubleBounds.is_nonneg_cases in H1, H2, H3, H4, H5.
  pose proof (DoubleBounds.add_nonneg_or_inf_closed _ _ H1 H2) as P2.
  pose proof (DoubleBounds.add_nonneg_or_inf_closed _ _ P2 H3) as P3.
  pose proof (DoubleBounds.add_nonneg_or_inf_closed _ _ P3 H4) as P4.
  assert (N5 : DoubleFacts.nonneg
                 (Double.add (Double.add (Double.add (Double.add w1 w2) w3) w4) w5) = true)
    by (rewrite Hsum; reflexivity).
  destruct (DoubleBounds.add_lower _ _ P4 H5 N5) as (N4 & Nw5 & L5).
  destruct (DoubleBounds.add_lower _ _ P3 H4 N4) as (N3 & Nw4 & L4).
  destruct (DoubleBounds.add_lower _ _ P2 H3 N3) as (N2 & Nw3 & L3).
  destruct (DoubleBounds.add_lower _ _ H1 H2 N2) as (Nw1 & Nw2 & L2).
  rewrite Hsum in L5.
  assert (E1 : (Double.to_Q (Double.of_Z 1) == 1)%Q) by reflexivity.
  rewrite E1 in L5.
  split; [tauto | ].
  pose proof (DoubleFacts.to_Q_nonneg _ Nw1). pose proof (DoubleFacts.to_Q_nonneg _ Nw2).
  pose proof (DoubleFacts.to_Q_nonneg _ Nw3). pose proof (DoubleFacts.to_Q_nonneg _ Nw4).
  pose proof (DoubleFacts.to_Q_nonneg _ Nw5).
  unfold DoubleBounds.slack in *. lra.
Qed.

(** The rounding errors of the five products and the four sums stay far
    below one half. *)
Lemma overall_score_total (w : Weights) (p s c f v : Z) :
  weights_finite w -> (weights_total w <= 1001 # 1000)%Q ->
  in_0_100 p -> in_0_100 s -> in_0_100 c -> in_0_100 f -> in_0_100 v ->
  exists z, overall_score w (category_map_of p s c f v) = Int z /\ in_0_100 z.
Proof.
  intros (Nw1 & Nw2 & Nw3 & Nw4 & Nw5) T Ip Is Ic If Iv.
  rewrite overall_score_of. unfold weights_total in T.
  destruct w as [w1 w2 w3 w4 w5]. cbn [w_privacy_app w_security_e8 w_cdss_exemption
    w_contract_fairness w_vendor_sharing] in *.
  pose proof (DoubleFacts.to_Q_nonneg _ Nw1). pose proof (DoubleFacts.to_Q_nonneg _ Nw2).
  pose proof (DoubleFacts.to_Q_nonneg _ Nw3). pose proof (DoubleFacts.to_Q_nonneg _ Nw4).
  pose proof (DoubleFacts.to_Q_nonneg _ Nw5).
  destruct (DoubleBounds.mul_score p w1 Ip Nw1 ltac:(lra)) as [M1 U1].
  destruct (DoubleBounds.mul_score s w2 Is Nw2 ltac:(lra)) as [M2 U2].
  destruct (DoubleBounds.mul_score c w3 Ic Nw3 ltac:(lra)) as [M3 U3].
  destruct (DoubleBounds.mul_score f w4 If Nw4 ltac:(lra)) as [M4 U4].
  destruct (DoubleBounds.mul_score v w5 Iv Nw5 ltac:(lra)) as [M5 U5].
  unfold DoubleBounds.slack in *.
  pose proof (DoubleFacts.to_Q_nonneg _ M1). pose proof (DoubleFacts.to_Q_nonneg _ M2).
  pose proof (DoubleFacts.to_Q_nonneg _ M3). pose proof (DoubleFacts.to_Q_nonneg _ M4).
  pose proof (DoubleFacts.to_Q_nonneg _ M5).
  destruct (DoubleBounds.add_upper _ _ M1 M2 ltac:(lra)) as [A2 B2].
  pose proof (DoubleFacts.to_Q_nonneg _ A2). unfold DoubleBounds.slack in *.
  destruct (DoubleBounds.add_upper _ _ A2 M3 ltac:(lra)) as [A3 B3].
  pose proof (DoubleFacts.to_Q_nonneg _ A3). unfold DoubleBounds.slack in *.
  destruct (DoubleBounds.add_upper _ _ A3 M4 ltac:(lra)) as [A4 B4].
  pose proof (DoubleFacts.to_Q_nonneg _ A4). unfold DoubleBounds.slack in *.
  destruct (DoubleBounds.add_upper _ _ A4 M5 ltac:(lra)) as [A5 B5].
  unfold DoubleBounds.slack in *.
  apply Math_round_bounds; [exact A5 | ]. lra.
Qed.

Lemma overall_score_bounds (w : Weights) (p s c f v : Z) :
  weights_nonneg w ->
  weights_sum w = Double.of_Z 1 ->
  in_0_100 p -> in_0_100 s -> in_0_100 c -> in_0_100 f -> in_0_100 v ->
  exists z, overall_score w (category_map_of p s c f v) = Int z /\ in_0_100 z.
Proof.
  intros Hn Hsum. destruct (weights_sum_total w Hn Hsum) as [Hf Ht].
  apply overall_score_total; assumption.
Qed.

(** The same for finite weights whose exact sum is 1, whatever their
    rounded sum. *)
Lemma overall_in_range_exact_sum (w : Weights) (p s c f v : Z) :
  weights_finite w -> (weights_total w == 1)%Q ->
  in_0_100 p -> in_0_100 s -> in_0_100 c -> in_0_100 f -> in_0_100 v ->
  exists z, overall_score w (category_map_of p s c f v) = Int z /\ in_0_100 z.
Proof.
  intros Hf Ht. apply overall_score_total; [exact Hf | ]. rewrite Ht. discriminate.
Qed.

(** C5 (amended): for weights that are not negative and sum to 1.0, and
    category scores from 0 to 100, the overall score, the weighted sum
    rounded to the nearest integer, lies between 0 and 100.  The weights
    are doubles and their sum is the one the program would compute; the
    weighted sum is the one [aggregate] computes, each product and each
    sum rounded to a double. *)
Theorem overall_in_range (w : Weights) (p s c f v : Z) :
  weights_nonneg w ->
  weights_sum w = Double.of_Z 1 ->
  in_0_100 p -> in_0_100 s -> in_0_100 c -> in_0_100 f -> in_0_100 v ->
  exists z, overall_score w (category_map_of p s c f v) = Int z /\ in_0_100 z.
Proof. exact (overall_score_bounds w p s c f v). Qed.

Lemma config_weights_ok :
  weights_nonneg config.weights /\ weights_sum config.weights = Double.of_Z 1.
Proof. split; [repeat split|]; vm_compute; reflexivity. Qed.

Lemma overall_in_range_witness :
  exists z, overall_score config.weights (category_map_of 20 58 40 100 100) = Int z
            /\ in_0_100 z.
Proof.
  apply overall_in_range.
  - repeat split; vm_compute; reflexivity.
  - vm_compute. reflexivity.
  - unfold in_0_100; lia.
  - unfold in_0_100; lia.
  - unfold in_0_100; lia.
  - unfold in_0_100; lia.
  - unfold in_0_100; lia.
Defined.

(** The configured weights are the doubles nearest to 0.35, 0.25, 0.2
    and 0.1. *)
Example config_weights_bits :
  config.weights
  = {| w_privacy_app := S754_finite false 6305039478318694 (-54);
       w_security_e8 := S754_finite false 4503599627370496 (-54);
       w_cdss_exemption := S754_finite false 7205759403792794 (-55);
       w_contract_fairness := S754_finite false 7205759403792794 (-56);
       w_vendor_sharing := S754_finite false 7205759403792794 (-56) |}.
Proof. vm_compute. reflexivity. Qed.

(** With the configured weights the scenario report scores 50. *)
Example overall_configured :
  overall_score config.weights (category_map_of 20 58 40 100 100) = Int 50.
Proof. vm_compute. reflexivity. Qed.

(** The products and sums are rounded: 90 * 0.35 is
    31.499999999999996447 and not 31.5, and the overall score is 31. *)
Example overall_rounded_product :
  overall_score config.weights (category_map_of 90 0 0 0 0) = Int 31 /\
  Double.mul (Double.of_Z 90) (w_privacy_app config.weights)
  = S754_finite false 8866461766385663 (-48).
Proof. vm_compute. split; reflexivity. Qed.

(** ** The remediation plan *)

Section SortFacts.

Context {A : Type} (cmp : A -> A -> jsnum) (r : A -> Z).

(** The comparator is the difference of the keys [r]. *)
Definition agrees (x y : A) : Prop := sort_compare cmp x y = (r x - r y)%Z.

Definition by_key (a b : A) : Prop := (r a <= r b)%Z.

Lemma insert_by_perm (x : A) (l : list A) : insert_by cmp x l ≡ₚ x :: l.
Proof.
  induction l as [ | y l IH]; simpl; [reflexivity | ].
  destruct (sort_compare cmp x y <? 0)%Z; [reflexivity | ].
  rewrite IH. apply Permutation_swap.
Qed.

Lemma sort_fold_perm (l acc : list A) :
  foldl (fun acc x => insert_by cmp x acc) acc l ≡ₚ acc ++ l.
Proof.
  revert acc. induction l as [ | x l IH]; intros acc; simpl.
  - rewrite app_nil_r. reflexivity.
  - rewrite IH, insert_by_perm. rewrite (Permutation_middle acc l x). reflexivity.
Qed.

Lemma sort_by_perm (l : list A) : sort_by cmp l ≡ₚ l.
Proof. unfold sort_by. rewrite sort_fold_perm. reflexivity. Qed.

Lemma insert_by_sorted (x : A) (l : list A) :
  Forall (agrees x) l ->
  StronglySorted by_key l -> StronglySorted by_key (insert_by cmp x l).
Proof.
  induction l as [ | y l IH]; intros Hag Hs; simpl.
  - constructor; constructor.
  - apply Forall_cons in Hag as [Hxy Hag].
    apply StronglySorted_inv in Hs as [Hs Hy].
    unfold agrees in Hxy.
    destruct (sort_compare cmp x y <? 0)%Z eqn:E.
    + apply Z.ltb_lt in E.
      constructor; [constructor; assumption | ].
      constructor; [unfold by_key; lia | ].
      eapply Forall_impl; [exact Hy | ]. unfold by_key. intros z Hz. lia.
    + apply Z.ltb_ge in E.
      constructor; [apply IH; assumption | ].
      rewrite insert_by_perm. constructor; [unfold by_key; lia | exact Hy].
Qed.

Lemma sort_fold_sorted (l acc : list A) :
  (forall x y, x ∈ acc ++ l -> y ∈ acc ++ l -> agrees x y) ->
  StronglySorted by_key acc ->
  StronglySorted by_key (foldl (fun acc x => insert_by cmp x acc) acc l).
Proof.
  revert acc. induction l as [ | x l IH]; intros acc Hag Hs; simpl; [exact Hs | ].
  apply IH.
  - intros a b Ha Hb. apply Hag.
    + rewrite insert_by_perm in Ha. rewrite <- Permutation_middle. exact Ha.
    + rewrite insert_by_perm in Hb. rewrite <- Permutation_middle. exact Hb.
  - apply insert_by_sorted; [ | exact Hs].
    apply Forall_forall. intros y Hy. apply Hag.
    + apply elem_of_app. right. apply list_elem_of_here.
    + apply elem_of_app. left. exact Hy.
Qed.

Lemma sort_by_sorted (l : list A) :
  (forall x y, x ∈ l -> y ∈ l -> agrees x y) ->
  StronglySorted by_key (sort_by cmp l).
Proof. intros H. apply sort_fold_sorted; [exact H | constructor]. Qed.

Lemma take_sorted (n : nat) (l : list A) :
  StronglySorted by_key l -> StronglySorted by_key (take n l).
Proof.
  revert n. induction l as [ | x l IH]; intros n Hs.
  - destruct n; constructor.
  - destruct n; simpl; [constructor | ].
    apply StronglySorted_inv in Hs as [Hs Hx].
    constructor; [apply IH; exact Hs | apply Forall_take; exact Hx].
Qed.

End SortFacts.

(** The rank of a severity as the specification words it: high 0,
    medium 1, low 2, anything else 3. *)
Definition stated_rank (sev : string) : Z :=
  if String.eqb sev "high" then 0
  else if String.eqb sev "medium" then 1
  else if String.eqb sev "low" then 2
  else 3.

Definition item_rank (it : RemediationItem) : Z :=
  stated_rank (JS.toLowerCase (item_severity it)).

(** The first 200 characters of the recommendation of an item. *)
Definition item_prefix (it : RemediationItem) : string :=
  JS.slice0 200 (item_recommendation it).

Lemma severityRank_plain (s : string) :
  JS.inherited (JS.toLowerCase s) = false ->
  severityRank s = VNum (stated_rank (JS.toLowerCase s)).
Proof.
  intros Hi. unfold severityRank, stated_rank, JS.get, rank_table.
  generalize dependent (JS.toLowerCase s). intros sev Hi.
  destruct (String.eqb sev "high") eqn:E1.
  { apply String.eqb_eq in E1. subst sev. reflexivity. }
  apply eqb_false_ne in E1.
  rewrite lookup_insert_ne by congruence.
  destruct (String.eqb sev "medium") eqn:E2.
  { apply String.eqb_eq in E2. subst sev. reflexivity. }
  apply eqb_false_ne in E2.
  rewrite lookup_insert_ne by congruence.
  destruct (String.eqb sev "low") eqn:E3.
  { apply String.eqb_eq in E3. subst sev. reflexivity. }
  apply eqb_false_ne in E3.
  rewrite lookup_singleton_ne by congruence.
  rewrite Hi. reflexivity.
Qed.

Definition plain_item (it : RemediationItem) : Prop :=
  JS.inherited (JS.toLowerCase (item_severity it)) = false.

Lemma by_severity_agrees (a b : RemediationItem) :
  plain_item a -> plain_item b -> agrees by_severity item_rank a b.
Proof.
  unfold plain_item, agrees, sort_compare, by_severity, item_rank. intros Ha Hb.
  rewrite (severityRank_plain _ Ha), (severityRank_plain _ Hb). reflexivity.
Qed.

Section Dedupe.

Variable rnd : nat -> string.

Lemma map_has_false (m : list (string * RemediationItem)) (k : string) :
  map_has m k = false -> k ∉ map fst m.
Proof.
  induction m as [ | [k' it] m IH]; simpl; intros H Hin.
  - by apply elem_of_nil in Hin.
  - apply orb_false_iff in H as [H1 H2].
    apply elem_of_cons in Hin as [-> | Hin].
    + rewrite String.eqb_refl in H1. discriminate H1.
    + exact (IH H2 Hin).
Qed.

(** One turn of the loop either leaves the map alone or appends an entry
    for the finding, under a new, non-empty key. *)
Lemma dedupe_step_cases (m : list (string * RemediationItem)) (n : nat) (f : Finding) :
  ((dedup_key f = "" \/ map_has m (dedup_key f) = true)
   /\ dedupe_step rnd (m, n) f = (m, n)) \/
  (exists i n', dedupe_step rnd (m, n) f = (m ++ [(dedup_key f, make_item i f)], n')
                /\ dedup_key f <> "" /\ map_has m (dedup_key f) = false).
Proof.
  unfold dedupe_step.
  destruct (String.eqb (dedup_key f) "") eqn:E1; simpl.
  { left. apply String.eqb_eq in E1. auto. }
  apply eqb_false_ne in E1.
  destruct (map_has m (dedup_key f)) eqn:E2; simpl.
  { left. auto. }
  right. destruct (id f) as [s | ]; [destruct (String.eqb s "") | ]; eauto.
Qed.

Definition from_finding (findings : list Finding) (e : string * RemediationItem) : Prop :=
  exists f i, f ∈ findings /\ e = (dedup_key f, make_item i f) /\ dedup_key f <> "".

Lemma dedupe_fold_from (findings : list Finding)
    (st : list (string * RemediationItem) * nat) (e : string * RemediationItem) :
  e ∈ (foldl (dedupe_step rnd) st findings).1 ->
  e ∈ st.1 \/ from_finding findings e.
Proof.
  revert st. induction findings as [ | f fs IH]; intros [m n] He; cbn [foldl] in He.
  { left. exact He. }
  destruct (dedupe_step_cases m n f) as [[_ Hst] | (i & n' & Hst & Hk & _)];
    rewrite Hst in He; apply IH in He as [He | (g & j & Hg & -> & Hgk)].
  - left. exact He.
  - right. exists g, j. split; [apply list_elem_of_further; exact Hg | auto].
  - simpl in He. apply elem_of_app in He as [He | He]; [left; exact He | ].
    apply list_elem_of_singleton in He. subst e.
    right. exists f, i. split; [apply list_elem_of_here | auto].
  - right. exists g, j. split; [apply list_elem_of_further; exact Hg | auto].
Qed.

Lemma dedupe_fold_NoDup (findings : list Finding)
    (st : list (string * RemediationItem) * nat) :
  NoDup (map fst st.1) -> NoDup (map fst (foldl (dedupe_step rnd) st findings).1).
Proof.
  revert st. induction findings as [ | f fs IH]; intros [m n] Hm; cbn [foldl].
  { exact Hm. }
  destruct (dedupe_step_cases m n f) as [[_ Hst] | (i & n' & Hst & _ & Hk)];
    rewrite Hst; apply IH; simpl; [exact Hm | ].
  change (map fst) with (fmap (M:=list) (@fst string RemediationItem)) in *.
  rewrite fmap_app. apply NoDup_app. split; [exact Hm | ]. split.
  - intros k Hin Hk'. simpl in Hk'. apply list_elem_of_singleton in Hk'. subst k.
    exact (map_has_false _ _ Hk Hin).
  - simpl. apply NoDup_singleton.
Qed.

Lemma dedupe_entries_from (findings : list Finding) (e : string * RemediationItem) :
  e ∈ dedupe_entries rnd findings -> from_finding findings e.
Proof.
  intros He. apply dedupe_fold_from in He as [He | He]; [ | exact He].
  simpl in He. exfalso. by apply elem_of_nil in He.
Qed.

Lemma dedupe_entries_NoDup (findings : list Finding) :
  NoDup (map fst (dedupe_entries rnd findings)).
Proof. apply dedupe_fold_NoDup. simpl. constructor. Qed.

(** The key of an entry is the first 200 characters of the
    recommendation of its item. *)
Lemma dedupe_entries_prefix (findings : list Finding) :
  map item_prefix (dedupeRecommendations rnd findings)
  = map fst (dedupe_entries rnd findings).
Proof.
  unfold dedupeRecommendations.
  pose proof (dedupe_entries_from findings) as H.
  induction (dedupe_entries rnd findings) as [ | e m IH]; simpl; [reflexivity | ].
  f_equal.
  - destruct (H e) as (f & i & _ & -> & _); [apply list_elem_of_here | ]. reflexivity.
  - apply IH. intros e' He'. apply H. apply list_elem_of_further. exact He'.
Qed.

Lemma dedupe_items_from (findings : list Finding) (it : RemediationItem) :
  it ∈ dedupeRecommendations rnd findings ->
  exists f i, f ∈ findings /\ it = make_item i f /\ dedup_key f <> "".
Proof.
  unfold dedupeRecommendations. intros Hit.
  change (map snd) with (fmap (M:=list) (@snd string RemediationItem)) in Hit.
  apply list_elem_of_fmap in Hit as (e & -> & He).
  apply dedupe_entries_from in He as (f & i & Hf & -> & Hk).
  exists f, i. auto.
Qed.

(** At most six items, always. *)
Lemma remediation_plan_length (findings : list Finding) :
  length (remediation_plan_of rnd findings) <= 6.
Proof. unfold remediation_plan_of. rewrite length_take. lia. Qed.

(** No two items of the plan share the first 200 characters of their
    recommendation, always. *)
Lemma remediation_plan_NoDup (findings : list Finding) :
  NoDup (map item_prefix (remediation_plan_of rnd findings)).
Proof.
  unfold remediation_plan_of.
  change (map item_prefix) with (fmap (M:=list) item_prefix).
  rewrite fmap_take.
  eapply sublist_NoDup; [ | apply sublist_take].
  rewrite (sort_by_perm by_severity (dedupeRecommendations rnd findings)).
  change (fmap (M:=list) item_prefix) with (map item_prefix).
  rewrite dedupe_entries_prefix. apply dedupe_entries_NoDup.
Qed.

(** The severities of the findings, with the default of the plan, are
    no property names of [Object.prototype]. *)
Definition plain_plan_severities (findings : list Finding) : Prop :=
  Forall (fun f => JS.inherited (JS.toLowerCase (JS.or_else (severity f) "medium"))
                   = false) findings.

(** The plan is sorted by rank when the severities are plain. *)
Lemma remediation_plan_sorted (findings : list Finding) :
  plain_plan_severities findings ->
  StronglySorted (by_key item_rank) (remediation_plan_of rnd findings).
Proof.
  intros Hplain. unfold remediation_plan_of.
  apply take_sorted. apply sort_by_sorted.
  assert (Hp : forall it, it ∈ dedupeRecommendations rnd findings -> plain_item it).
  { intros it Hit. apply dedupe_items_from in Hit as (f & i & Hf & -> & _).
    unfold plain_plan_severities in Hplain. rewrite Forall_forall in Hplain.
    apply (Hplain f Hf). }
  intros x y Hx Hy. apply by_severity_agrees; auto.
Qed.

End Dedupe.

Lemma dedup_key_empty (f : Finding) :
  recommendation f = None \/ recommendation f = Some "" -> dedup_key f = "".
Proof. unfold dedup_key. intros [-> | ->]; reflexivity. Qed.

(** C9: a finding whose recommendation is missing or empty leaves no
    trace in the deduplicated remediations (the output is the one of the
    list without it), every item comes from a finding with a
    recommendation that is not empty, and an item made from a finding
    without severity has the severity medium. *)
Theorem dedupe_skips_empty_defaults_medium (rnd : nat -> string) :
  (forall l1 f l2,
     recommendation f = None \/ recommendation f = Some "" ->
     dedupeRecommendations rnd (l1 ++ f :: l2) = dedupeRecommendations rnd (l1 ++ l2)) /\
  (forall findings it,
     it ∈ dedupeRecommendations rnd findings ->
     exists f i, f ∈ findings /\ it = make_item i f /\
       recommendation f <> None /\ recommendation f <> Some "" /\
       (severity f = None -> item_severity it = "medium")).
Proof.
  split.
  - intros l1 f l2 Hrec. apply dedup_key_empty in Hrec.
    unfold dedupeRecommendations, dedupe_entries.
    rewrite !foldl_app. cbn [foldl].
    destruct (foldl (dedupe_step rnd) ([], 0) l1) as [m n].
    destruct (dedupe_step_cases rnd m n f) as [[_ Hst] | (i & n' & _ & Hk & _)].
    + rewrite Hst. reflexivity.
    + contradiction.
  - intros findings it Hit.
    apply dedupe_items_from in Hit as (f & i & Hf & -> & Hk).
    exists f, i. repeat split; auto.
    + intros Hn. apply Hk. apply dedup_key_empty. auto.
    + intros Hn. apply Hk. apply dedup_key_empty. auto.
    + intros Hs. simpl. rewrite Hs. reflexivity.
Qed.

(** A finding with an empty recommendation and no severity. *)
Definition silent_finding : Finding :=
  {| id := Some "F-2"; theme := Some "security_e8"; title := Some "Patching";
     status := Some "partial"; severity := None; evidence := Some "not found";
     impact := None; recommendation := Some ""; references := []; confidence := 0.5 |}.

(** A finding with a recommendation and no severity. *)
Definition unrated_finding : Finding :=
  {| id := None; theme := Some "security_e8"; title := None;
     status := Some "partial"; severity := None; evidence := Some "not found";
     impact := None; recommendation := Some "Patch within 14 days.";
     references := []; confidence := 0.5 |}.

Lemma dedupe_skips_empty_defaults_medium_witness :
  dedupeRecommendations no_random ([themeless_finding] ++ silent_finding :: [unrated_finding])
  = dedupeRecommendations no_random ([themeless_finding] ++ [unrated_finding]).
Proof.
  apply (proj1 (dedupe_skips_empty_defaults_medium no_random)).
  right. reflexivity.
Defined.

Example dedupe_unrated :
  dedupeRecommendations no_random [silent_finding; unrated_finding; bare_finding]
  = [ {| item_id := "R-000000"; item_title := "Patch within 14 days.";
         item_severity := "medium"; item_recommendation := "Patch within 14 days." |} ].
Proof. vm_compute. reflexivity. Qed.

(** Two findings as the model may return them; the first has the
    severity [constructor]. *)
Definition rotate_finding : Finding :=
  {| id := Some "F-1"; theme := Some "security_e8"; title := Some "Key rotation";
     status := Some "partial"; severity := Some "constructor";
     evidence := Some "not found"; impact := None;
     recommendation := Some "Rotate the signing keys."; references := [];
     confidence := 0.5 |}.
Definition encrypt_finding : Finding :=
  {| id := Some "F-2"; theme := Some "security_e8"; title := Some "Encryption at rest";
     status := Some "undisclosed"; severity := Some "high";
     evidence := Some "not found"; impact := None;
     recommendation := Some "Encrypt data at rest."; references := [];
     confidence := 0.5 |}.

(** C4 fails on the code: [severityRank("constructor")] is the inherited
    constructor function and not 3, the comparator yields [NaN] for the
    pair, the sort takes that for 0 and keeps the order; the plan lists
    the item of rank 3 before the item of rank 0. *)
Theorem remediation_plan_inherited_severity (rnd : nat -> string) :
  let plan := remediation_plan_of rnd [rotate_finding; encrypt_finding] in
  severityRank "constructor" = VObj /\
  by_severity (make_item "F-2" encrypt_finding) (make_item "F-1" rotate_finding) = NaN /\
  plan = [make_item "F-1" rotate_finding; make_item "F-2" encrypt_finding] /\
  map item_rank plan = [3%Z; 0%Z] /\
  ~ StronglySorted (by_key item_rank) plan.
Proof.
  assert (Hplan : remediation_plan_of rnd [rotate_finding; encrypt_finding]
                  = [make_item "F-1" rotate_finding; make_item "F-2" encrypt_finding])
    by (vm_compute; reflexivity).
  cbv zeta. rewrite Hplan.
  split; [vm_compute; reflexivity | ].
  split; [vm_compute; reflexivity | ].
  split; [reflexivity | ].
  split; [vm_compute; reflexivity | ].
  intros Hs. apply StronglySorted_inv in Hs as [_ Hall].
  apply Forall_cons in Hall as [Hle _].
  vm_compute in Hle. apply Hle. reflexivity.
Qed.

(** C4 for plain severities: at most six items, sorted by rank, no two
    with the same first 200 characters of the recommendation. *)
Lemma remediation_plan_plain (rnd : nat -> string) (findings : list Finding) :
  plain_plan_severities findings ->
  length (remediation_plan_of rnd findings) <= 6 /\
  StronglySorted (by_key item_rank) (remediation_plan_of rnd findings) /\
  NoDup (map item_prefix (remediation_plan_of rnd findings)).
Proof.
  intros H. split; [apply remediation_plan_length | ].
  split; [apply remediation_plan_sorted; exact H | apply remediation_plan_NoDup].
Qed.

(** ** Gap-fill *)

(** The titles of the five mandatory-coverage findings. *)
Definition mandatory_titles : list string :=
  ["APP 5 collection notice"; "APP 11 security of personal information";
   "APP 12 access to personal information";
   "APP 13 correction of personal information"; "Retention & deletion"].

(** C7 as the specification states it: after gap-fill of a non-empty
    list every mandatory title is there, already present or added. *)
Definition gap_fill_as_stated : Prop :=
  forall (rnd : nat -> string) (findings : list Finding) (text : string),
    findings <> [] ->
    forall t, t ∈ mandatory_titles ->
      has_finding (ensureMinimumAU rnd findings text) t = true.

(** A finding as the model may return it, on the collection notice under
    a title of its own. *)
Definition notice_finding : Finding :=
  {| id := Some "F-1"; theme := Some "privacy_app";
     title := Some "APP 5 notice lacks purposes"; status := Some "partial";
     severity := Some "medium"; evidence := Some "[LINE 1] We collect your name";
     impact := None; recommendation := Some "List the purposes of collection.";
     references := ["APP 5"]; confidence := 0.8 |}.

Definition retaining_doc : string := "We collect your name. We retain records for seven years.".

Example gap_fill_notice :
  map title (ensureMinimumAU no_random [notice_finding] retaining_doc)
  = map Some ["APP 5 notice lacks purposes"; "APP 11 security of personal information";
              "APP 12 access to personal information";
              "APP 13 correction of personal information"].
Proof. vm_compute. reflexivity. Qed.

(** C7, as stated, fails: the model's finding matches the needle
    [app 5], so no finding titled [APP 5 collection notice] is added;
    and the text mentions retaining, so none titled
    [Retention & deletion] is added either. *)
Lemma gap_fill_as_stated_fails : ~ gap_fill_as_stated.
Proof.
  intros H.
  specialize (H no_random [notice_finding] retaining_doc).
  assert (Hf : has_finding (ensureMinimumAU no_random [notice_finding] retaining_doc)
                 "APP 5 collection notice" = false) by (vm_compute; reflexivity).
  rewrite H in Hf.
  - discriminate Hf.
  - discriminate.
  - unfold mandatory_titles. apply list_elem_of_here.
Qed.

Lemma chars_append (a b : string) : JS.chars (a +:+ b) = JS.chars a ++ JS.chars b.
Proof. induction a as [ | c a IH]; simpl; [reflexivity | ]. f_equal. exact IH. Qed.

Lemma chars_str (l : list ascii) : JS.chars (JS.str l) = l.
Proof. apply list_ascii_of_string_of_list_ascii. Qed.

Lemma str_chars (s : string) : JS.str (JS.chars s) = s.
Proof. apply string_of_list_ascii_of_string. Qed.

Lemma includes_list_app_r (needle l1 l2 : list ascii) :
  JS.includes_list needle l2 = true -> JS.includes_list needle (l1 ++ l2) = true.
Proof.
  intros H. induction l1 as [ | c l1 IH]; simpl; [exact H | ].
  rewrite IH. apply orb_true_r.
Qed.

Lemma includes_lower_append (a t needle : string) :
  JS.includes (JS.toLowerCase t) needle = true ->
  JS.includes (JS.toLowerCase (a +:+ t)) needle = true.
Proof.
  unfold JS.includes, JS.toLowerCase. rewrite !chars_str, chars_append, map_app.
  apply includes_list_app_r.
Qed.

Lemma or_else_empty (s : string) : JS.or_else (Some s) "" = s.
Proof.
  unfold JS.or_else. destruct (String.eqb s "") eqn:E; [ | reflexivity].
  apply String.eqb_eq in E. auto.
Qed.

Lemma existsb_impl {A} (p q : A -> bool) (l : list A) :
  (forall x, p x = true -> q x = true) -> existsb p l = true -> existsb q l = true.
Proof.
  intros H. induction l as [ | x l IH]; simpl; [auto | ].
  intros Hp. apply orb_true_iff in Hp as [Hp | Hp]; apply orb_true_iff; auto.
Qed.

Section GapFillFacts.

Variable rnd : nat -> string.

Definition matches_needle (needle : string) (f : Finding) : bool :=
  JS.includes
    (JS.toLowerCase (JS.or_else
       (Some (JS.template (theme f) +:+ ":" +:+ JS.template (title f))) ""))
    needle.

Lemma have_app (l k : list Finding) (needle : string) :
  have (l ++ k) needle = have l needle || have k needle.
Proof. unfold have. apply existsb_app. Qed.

Lemma has_finding_app (l k : list Finding) (t : string) :
  has_finding (l ++ k) t = has_finding l t || has_finding k t.
Proof. unfold has_finding. apply existsb_app. Qed.

(** A finding that carries the title [t] matches every needle that the
    lower-cased title contains. *)
Lemma title_matches (y : Finding) (t needle : string) :
  title y = Some t ->
  JS.includes (JS.toLowerCase t) needle = true ->
  matches_needle needle y = true.
Proof.
  intros Ht Hin. unfold matches_needle. rewrite or_else_empty, Ht. simpl JS.template.
  apply includes_lower_append. apply includes_lower_append. exact Hin.
Qed.

Lemma same_title_title (x y : Finding) (t : string) :
  title x = Some t -> t <> "" -> same_title x y = true -> title y = Some t.
Proof.
  unfold same_title. intros Hx Ht H. apply String.eqb_eq in H.
  rewrite Hx, or_else_empty in H.
  unfold JS.or_else in H. destruct (title y) as [s | ]; [ | congruence].
  destruct (String.eqb s ""); congruence.
Qed.

(** One guarded [add]: when some finding matches the needle nothing
    happens; otherwise the mandatory finding is pushed, as no finding can
    carry its title without matching the needle. *)
Lemma gap_step (g : string -> Finding) (needle t : string) (st : list Finding * nat) :
  (forall rid, title (g rid) = Some t) -> t <> "" ->
  JS.includes (JS.toLowerCase t) needle = true ->
  (have st.1 needle = true /\ add_if rnd (negb (have st.1 needle)) g st = st) \/
  (have st.1 needle = false /\
   add_if rnd (negb (have st.1 needle)) g st = (st.1 ++ [g (rnd st.2)], S st.2)).
Proof.
  intros Hg Ht Hin. destruct st as [l n]. cbn [fst snd].
  destruct (have l needle) eqn:Hh; [left; auto | right].
  split; [reflexivity | ]. simpl. 
  destruct (existsb (same_title (g (rnd n))) l) eqn:Hs; [ | reflexivity].
  exfalso. apply (existsb_impl _ (matches_needle needle)) in Hs.
  - unfold have in Hh. unfold matches_needle in Hs. rewrite Hs in Hh. discriminate Hh.
  - intros y Hy. apply (title_matches y t); [ | exact Hin].
    exact (same_title_title _ _ t (Hg _) Ht Hy).
Qed.

End GapFillFacts.

Section GapFillCover.

Variable rnd : nat -> string.

Lemma gap_titles :
  (forall rid, title (gap_app5 rid) = Some "APP 5 collection notice") /\
  (forall rid, title (gap_app11 rid) = Some "APP 11 security of personal information") /\
  (forall rid, title (gap_app12 rid) = Some "APP 12 access to personal information") /\
  (forall rid, title (gap_app13 rid) = Some "APP 13 correction of personal information") /\
  (forall rid, title (gap_retention rid) = Some "Retention & deletion").
Proof. repeat split. Qed.

(** What a finding added by gap-fill adds to the tests of the later
    steps. *)
Lemma gap_table (x : string) :
  have [gap_app5 x] "app 5" = true /\ have [gap_app5 x] "app 11" = false /\
  have [gap_app5 x] "access to personal" = false /\ have [gap_app5 x] "correction" = false /\
  have [gap_app11 x] "app 11" = true /\ have [gap_app11 x] "access to personal" = false /\
  have [gap_app11 x] "correction" = false /\
  have [gap_app12 x] "access to personal" = true /\ have [gap_app12 x] "correction" = false /\
  have [gap_app13 x] "correction" = true.
Proof. vm_compute. repeat split. Qed.

Lemma gap_step5 (st : list Finding * nat) :
  (have st.1 "app 5" = true /\ add_if rnd (negb (have st.1 "app 5")) gap_app5 st = st) \/
  (have st.1 "app 5" = false /\
   add_if rnd (negb (have st.1 "app 5")) gap_app5 st
   = (st.1 ++ [gap_app5 (rnd st.2)], S st.2)).
Proof.
  apply (gap_step rnd gap_app5 "app 5" "APP 5 collection notice");
    [reflexivity | discriminate | vm_compute; reflexivity].
Qed.

Lemma gap_step11 (st : list Finding * nat) :
  (have st.1 "app 11" = true /\ add_if rnd (negb (have st.1 "app 11")) gap_app11 st = st) \/
  (have st.1 "app 11" = false /\
   add_if rnd (negb (have st.1 "app 11")) gap_app11 st
   = (st.1 ++ [gap_app11 (rnd st.2)], S st.2)).
Proof.
  apply (gap_step rnd gap_app11 "app 11" "APP 11 security of personal information");
    [reflexivity | discriminate | vm_compute; reflexivity].
Qed.

Lemma gap_step12 (st : list Finding * nat) :
  (have st.1 "access to personal" = true /\
   add_if rnd (negb (have st.1 "access to personal")) gap_app12 st = st) \/
  (have st.1 "access to personal" = false /\
   add_if rnd (negb (have st.1 "access to personal")) gap_app12 st
   = (st.1 ++ [gap_app12 (rnd st.2)], S st.2)).
Proof.
  apply (gap_step rnd gap_app12 "access to personal" "APP 12 access to personal information");
    [reflexivity | discriminate | vm_compute; reflexivity].
Qed.

Lemma gap_step13 (st : list Finding * nat) :
  (have st.1 "correction" = true /\
   add_if rnd (negb (have st.1 "correction")) gap_app13 st = st) \/
  (have st.1 "correction" = false /\
   add_if rnd (negb (have st.1 "correction")) gap_app13 st
   = (st.1 ++ [gap_app13 (rnd st.2)], S st.2)).
Proof.
  apply (gap_step rnd gap_app13 "correction" "APP 13 correction of personal information");
    [reflexivity | discriminate | vm_compute; reflexivity].
Qed.


Definition four_steps (findings : list Finding) : list Finding * nat :=
  let st := (findings, 0) in
  let st := add_if rnd (negb (have st.1 "app 5")) gap_app5 st in
  let st := add_if rnd (negb (have st.1 "app 11")) gap_app11 st in
  let st := add_if rnd (negb (have st.1 "access to personal")) gap_app12 st in
  let st := add_if rnd (negb (have st.1 "correction")) gap_app13 st in
  st.

Lemma has_finding_table (x : string) :
  has_finding [gap_app5 x] "APP 5 collection notice" = true /\
  has_finding [gap_app11 x] "APP 11 security of personal information" = true /\
  has_finding [gap_app12 x] "APP 12 access to personal information" = true /\
  has_finding [gap_app13 x] "APP 13 correction of personal information" = true /\
  has_finding [gap_retention x] "Retention & deletion" = true.
Proof. vm_compute. repeat split. Qed.

Lemma four_steps_cover (findings : list Finding) :
  let r := (four_steps findings).1 in
  (exists added, r = findings ++ added /\ length added <= 4) /\
  (have r "app 5" = true /\ have r "app 11" = true /\
   have r "access to personal" = true /\ have r "correction" = true) /\
  (have findings "app 5" = false -> has_finding r "APP 5 collection notice" = true) /\
  (have findings "app 11" = false ->
   has_finding r "APP 11 security of personal information" = true) /\
  (have findings "access to personal" = false ->
   has_finding r "APP 12 access to personal information" = true) /\
  (have findings "correction" = false ->
   has_finding r "APP 13 correction of personal information" = true).
Proof.
  unfold four_steps. cbv zeta.
  pose proof (fun x => proj1 (gap_table x)) as T1.
  pose proof (fun x => proj1 (proj2 (gap_table x))) as T2.
  pose proof (fun x => proj1 (proj2 (proj2 (gap_table x)))) as T3.
  pose proof (fun x => proj1 (proj2 (proj2 (proj2 (gap_table x))))) as T4.
  pose proof (fun x => proj1 (proj2 (proj2 (proj2 (proj2 (gap_table x)))))) as T5.
  pose proof (fun x => proj1 (proj2 (proj2 (proj2 (proj2 (proj2 (gap_table x))))))) as T6.
  pose proof (fun x => proj1 (proj2 (proj2 (proj2 (proj2 (proj2 (proj2 (gap_table x)))))))) as T7.
  pose proof (fun x => proj1 (proj2 (proj2 (proj2 (proj2 (proj2 (proj2 (proj2 (gap_table x))))))))) as T8.
  pose proof (fun x => proj1 (proj2 (proj2 (proj2 (proj2 (proj2 (proj2 (proj2 (proj2 (gap_table x)))))))))) as T9.
  pose proof (fun x => proj2 (proj2 (proj2 (proj2 (proj2 (proj2 (proj2 (proj2 (proj2 (gap_table x)))))))))) as T10.
  pose proof (fun x => proj1 (has_finding_table x)) as F1.
  pose proof (fun x => proj1 (proj2 (has_finding_table x))) as F2.
  pose proof (fun x => proj1 (proj2 (proj2 (has_finding_table x)))) as F3.
  pose proof (fun x => proj1 (proj2 (proj2 (proj2 (has_finding_table x))))) as F4.
  destruct (gap_step5 (findings, 0)) as [[H5 E5] | [H5 E5]]; rewrite E5; clear E5;
  match goal with |- context [add_if rnd (negb (have (fst ?s) "app 11")) gap_app11 ?s] =>
    destruct (gap_step11 s) as [[H11 E11] | [H11 E11]]; rewrite E11; clear E11 end;
  match goal with |- context [add_if rnd (negb (have (fst ?s) "access to personal")) gap_app12 ?s] =>
    destruct (gap_step12 s) as [[H12 E12] | [H12 E12]]; rewrite E12; clear E12 end;
  match goal with |- context [add_if rnd (negb (have (fst ?s) "correction")) gap_app13 ?s] =>
    destruct (gap_step13 s) as [[H13 E13] | [H13 E13]]; rewrite E13; clear E13 end;
  cbn [fst snd] in *;
  rewrite ?have_app, ?has_finding_app in *;
  rewrite ?T1, ?T2, ?T3, ?T4, ?T5, ?T6, ?T7, ?T8, ?T9, ?T10, ?F1, ?F2, ?F3, ?F4 in *;
  rewrite ?orb_false_r, ?orb_true_r in *;
  (split; [first [exists []; rewrite app_nil_r; split; [reflexivity | simpl; lia]
                 | rewrite <- ?app_assoc; eexists; split; [reflexivity | simpl; lia]] | ]);
  repeat split; intros; auto; congruence.
Qed.


Lemma same_title_has_finding (x : Finding) (t : string) (l : list Finding) :
  title x = Some t -> t <> "" ->
  existsb (same_title x) l = true -> has_finding l t = true.
Proof.
  intros Hx Ht. unfold has_finding. apply existsb_impl. intros y Hy.
  unfold has_title. apply bool_decide_eq_true.
  exact (same_title_title x y t Hx Ht Hy).
Qed.

Lemma ensureMinimumAU_four_steps (findings : list Finding) (text : string) :
  ensureMinimumAU rnd findings text
  = (add_if rnd (negb (test retention_rx text)) gap_retention (four_steps findings)).1.
Proof. reflexivity. Qed.

(** C7 (amended): gap-fill keeps the given findings, in order, and
    appends at most the five mandatory findings.  Afterwards some
    finding's lower-cased [theme:title] contains each of the needles
    [app 5], [app 11], [access to personal] and [correction]; the
    mandatory finding of a needle is present whenever no given finding
    matched that needle; and a finding titled [Retention & deletion] is
    present whenever the text does not match the retention pattern. *)
Theorem ensureMinimumAU_covers (findings : list Finding) (text : string) :
  let r := ensureMinimumAU rnd findings text in
  (exists added, r = findings ++ added /\ length added <= 5) /\
  (have r "app 5" = true /\ have r "app 11" = true /\
   have r "access to personal" = true /\ have r "correction" = true) /\
  (have findings "app 5" = false -> has_finding r "APP 5 collection notice" = true) /\
  (have findings "app 11" = false ->
   has_finding r "APP 11 security of personal information" = true) /\
  (have findings "access to personal" = false ->
   has_finding r "APP 12 access to personal information" = true) /\
  (have findings "correction" = false ->
   has_finding r "APP 13 correction of personal information" = true) /\
  (test retention_rx text = false -> has_finding r "Retention & deletion" = true).
Proof.
  cbv zeta. rewrite ensureMinimumAU_four_steps.
  destruct (four_steps_cover findings)
    as ((added & Hadd & Hlen) & (C5 & C11 & C12 & C13) & P5 & P11 & P12 & P13).
  destruct (four_steps findings) as [l n]. cbn [fst] in *.
  assert (Hr : (add_if rnd (negb (test retention_rx text)) gap_retention (l, n)).1 = l
               \/ (test retention_rx text = false /\
                   (add_if rnd (negb (test retention_rx text)) gap_retention (l, n)).1
                   = l ++ [gap_retention (rnd n)])).
  { unfold add_if, add. destruct (test retention_rx text); [left; reflexivity | ].
    cbn [negb fst]. destruct (existsb (same_title (gap_retention (rnd n))) l);
      [left; reflexivity | right; split; reflexivity]. }
  assert (Hret : test retention_rx text = false ->
                 has_finding (add_if rnd (negb (test retention_rx text)) gap_retention (l, n)).1
                   "Retention & deletion" = true).
  { intros Ht. unfold add_if, add. rewrite Ht. cbn [negb fst].
    destruct (existsb (same_title (gap_retention (rnd n))) l) eqn:Hs.
    - apply (same_title_has_finding (gap_retention (rnd n))); [reflexivity | discriminate | exact Hs].
    - rewrite has_finding_app. apply orb_true_iff. right.
      apply (proj2 (proj2 (proj2 (proj2 (has_finding_table (rnd n)))))). }
  destruct Hr as [Hr | [_ Hr]]; rewrite Hr in *.
  - split; [exists added; split; [exact Hadd | lia] | ]. repeat split; auto.
  - rewrite !have_app, !has_finding_app, C5, C11, C12, C13.
    split.
    { exists (added ++ [gap_retention (rnd n)]). rewrite Hadd, app_assoc.
      split; [reflexivity | ]. rewrite length_app. simpl. lia. }
    split; [repeat split | ].
    repeat split; intros H; try solve [apply orb_true_iff; left; auto].
    rewrite <- has_finding_app. exact (Hret H).
Qed.

End GapFillCover.

Lemma ensureMinimumAU_covers_witness :
  has_finding (ensureMinimumAU no_random [themeless_finding] doc7)
    "Retention & deletion" = true.
Proof.
  apply (ensureMinimumAU_covers no_random [themeless_finding] doc7).
  vm_compute. reflexivity.
Defined.

(** ** Indexing and chunking *)

Lemma split_lines_nonempty (s : list ascii) : split_lines s <> [].
Proof.
  destruct s as [ | c s]; simpl; [discriminate | ].
  destruct (JS.ascii_eqb c "010"); [discriminate | ].
  destruct (split_lines s); discriminate.
Qed.

Lemma join_lines_cons (l : list ascii) (ls : list (list ascii)) :
  exists rest, join_lines (l :: ls) = l ++ rest.
Proof.
  destruct ls as [ | l' ls]; simpl.
  - exists []. rewrite app_nil_r. reflexivity.
  - eexists. reflexivity.
Qed.

(** The indexed text starts with the marker of line 1. *)
Lemma indexed_text_starts (s : list ascii) :
  exists rest, indexed_text s = line_marker 1 ++ rest.
Proof.
  unfold indexed_text, index_lines.
  destruct (split_lines s) as [ | l ls] eqn:E.
  { exfalso. exact (split_lines_nonempty s E). }
  rewrite imap_cons.
  destruct (join_lines_cons (line_marker (0 + 1) ++ l)
              (imap ((fun index line => line_marker (index + 1) ++ line) ∘ S) ls))
    as [rest Hrest].
  rewrite Hrest. exists (l ++ rest). rewrite <- app_assoc. reflexivity.
Qed.

Lemma line_marker_length (n : nat) : 8 <= length (line_marker n).
Proof. unfold line_marker. rewrite !length_app. simpl. lia. Qed.

Lemma indexed_text_length (s : list ascii) : 0 < length (indexed_text s).
Proof.
  destruct (indexed_text_starts s) as [rest ->]. rewrite length_app.
  pose proof (line_marker_length 1). lia.
Qed.

(** The loop does not run out of fuel: with [step >= 1], from position
    [i >= 0] it ends by its own test within [length - i] turns, so more
    fuel changes nothing. *)
Lemma chunk_loop_fuel (idx : list ascii) (size step : Z) (fuel extra : nat) (i : Z) :
  (1 <= step)%Z -> (0 <= i)%Z ->
  (Z.of_nat (length idx) - i <= Z.of_nat fuel)%Z ->
  chunk_loop (fuel + extra) idx size step i = chunk_loop fuel idx size step i.
Proof.
  intros Hstep. revert i. induction fuel as [ | fuel IH]; intros i Hi Hf; simpl.
  - destruct extra; simpl; [reflexivity | ].
    destruct (i <? Z.of_nat (length idx))%Z eqn:E; [ | reflexivity].
    apply Z.ltb_lt in E. lia.
  - destruct (i <? Z.of_nat (length idx))%Z eqn:E; [ | reflexivity].
    f_equal. apply IH; lia.
Qed.

Lemma chunk_windows_nonempty (s : list ascii) (size overlap : Z) :
  chunk_windows (indexed_text s) size overlap <> [].
Proof.
  unfold chunk_windows. pose proof (indexed_text_length s) as H.
  destruct (length (indexed_text s)) as [ | n] eqn:E; [lia | ].
  simpl. rewrite E.
  destruct (0 <? Z.of_nat (S n))%Z eqn:E0; [discriminate | ].
  apply Z.ltb_ge in E0. lia.
Qed.

Lemma chunkByChar_never_falls_back_aux (rawText : string) (size overlap : Z) :
  chunkByChar_branch rawText size overlap
    = (false, map JS.str (chunk_windows (indexed_text (JS.chars rawText)) size overlap)) /\
  1 <= length (chunkByChar rawText size overlap).
Proof.
  pose proof (chunk_windows_nonempty (JS.chars rawText) size overlap) as Hne.
  assert (Hb : chunkByChar_branch rawText size overlap
               = (false, map JS.str (chunk_windows (indexed_text (JS.chars rawText))
                                       size overlap))).
  { unfold chunkByChar_branch.
    destruct (chunk_windows (indexed_text (JS.chars rawText)) size overlap);
      [contradiction | reflexivity]. }
  split; [exact Hb | ].
  unfold chunkByChar. rewrite Hb. cbn [snd]. rewrite length_map.
  destruct (chunk_windows (indexed_text (JS.chars rawText)) size overlap);
    [contradiction | simpl; lia].
Qed.

(** C10: for every text, the empty one included, and every size and
    overlap, the indexed string starts with the marker of line 1 and is
    not empty, the loop pushes at least one chunk, and [chunkByChar]
    returns what the loop pushed: the fallback that returns the indexed
    string as a single chunk is never taken. *)
Theorem chunkByChar_never_falls_back (rawText : string) (size overlap : Z) :
  let indexedText := indexed_text (JS.chars rawText) in
  line_marker 1 = JS.chars "[LINE 1] " /\
  (exists rest, indexedText = line_marker 1 ++ rest) /\
  0 < length indexedText /\
  chunk_windows indexedText size overlap <> [] /\
  chunkByChar_branch rawText size overlap
    = (false, map JS.str (chunk_windows indexedText size overlap)) /\
  1 <= length (chunkByChar rawText size overlap).
Proof.
  cbv zeta.
  destruct (chunkByChar_never_falls_back_aux rawText size overlap) as [Hb Hone].
  split; [reflexivity | ].
  split; [apply indexed_text_starts | ].
  split; [apply indexed_text_length | ].
  split; [apply chunk_windows_nonempty | ].
  split; [exact Hb | exact Hone].
Qed.

Lemma starts_with_app (m l : list ascii) : JS.starts_with m (m ++ l) = true.
Proof.
  induction m as [ | c m IH]; simpl; [destruct l; reflexivity | ].
  unfold JS.ascii_eqb. rewrite Ascii.eqb_refl. exact IH.
Qed.

Lemma includes_list_infix (m l1 l2 : list ascii) :
  JS.includes_list m (l1 ++ m ++ l2) = true.
Proof.
  apply includes_list_app_r.
  destruct (m ++ l2) eqn:E; simpl; rewrite <- E, starts_with_app; reflexivity.
Qed.

Lemma join_lines_lookup (ls : list (list ascii)) (i : nat) (x : list ascii) :
  ls !! i = Some x -> exists pre post, join_lines ls = pre ++ x ++ post.
Proof.
  revert i. induction ls as [ | l ls IH]; intros i Hi; [discriminate Hi | ].
  destruct i as [ | i]; simpl in Hi.
  - injection Hi as ->. destruct (join_lines_cons x ls) as [rest ->].
    exists [], rest. reflexivity.
  - destruct (IH i Hi) as (pre & post & Hj).
    destruct ls as [ | l' ls']; [discriminate Hi | ].
    change (join_lines (l :: l' :: ls')) with (l ++ "010"%char :: join_lines (l' :: ls')).
    rewrite Hj. exists (l ++ "010"%char :: pre), post.
    rewrite <- app_assoc. reflexivity.
Qed.

(** Every line marker occurs in the indexed text. *)
Lemma marker_in_indexed_text (s : list ascii) (n : nat) :
  1 <= n <= length (split_lines s) ->
  exists pre post, indexed_text s = pre ++ line_marker n ++ post.
Proof.
  intros [H1 Hn]. unfold indexed_text, index_lines.
  destruct (lookup_lt_is_Some_2 (split_lines s) (n - 1)) as [l Hl]; [lia | ].
  destruct (join_lines_lookup
              (imap (fun index line => line_marker (index + 1) ++ line) (split_lines s))
              (n - 1) (line_marker n ++ l)) as (pre & post & Hj).
  { rewrite list_lookup_imap, Hl. replace (n - 1 + 1) with n by lia. reflexivity. }
  rewrite Hj. exists pre, (l ++ post). rewrite <- app_assoc. reflexivity.
Qed.

(** A window that starts at or before an occurrence and ends at or after
    its end contains it. *)
Lemma js_slice_contains (pre m post : list ascii) (b e : Z) :
  (0 <= b <= Z.of_nat (length pre))%Z ->
  (Z.of_nat (length pre + length m) <= e)%Z ->
  exists l1 l2, js_slice (pre ++ m ++ post) b e = l1 ++ m ++ l2.
Proof.
  intros Hb He. unfold js_slice.
  set (len := Z.of_nat (length (pre ++ m ++ post))).
  assert (Hlen : len = Z.of_nat (length pre + length m + length post)).
  { unfold len. rewrite !length_app. f_equal. lia. }
  destruct (b <? 0)%Z eqn:Eb; [apply Z.ltb_lt in Eb; lia | ].
  destruct (e <? 0)%Z eqn:Ee; [apply Z.ltb_lt in Ee; lia | ].
  rewrite (Z.min_l b len) by lia.
  rewrite drop_app_le by lia.
  exists (drop (Z.to_nat b) pre).
  rewrite take_app_ge by (rewrite length_drop; lia).
  rewrite take_app_ge by (rewrite length_drop; lia).
  eexists. reflexivity.
Qed.

(** The loop pushes the window at every multiple of the step below the
    length. *)
Lemma chunk_loop_elem (idx : list ascii) (size step : Z) (k : nat) :
  (1 <= step)%Z ->
  forall (fuel : nat) (i : Z),
    (0 <= i)%Z ->
    (i + Z.of_nat k * step < Z.of_nat (length idx))%Z ->
    (Z.of_nat (length idx) - i <= Z.of_nat fuel)%Z ->
    js_slice idx (i + Z.of_nat k * step) (i + Z.of_nat k * step + size)
      ∈ chunk_loop fuel idx size step i.
Proof.
  intros Hstep. induction k as [ | k IH]; intros fuel i Hi Hk Hf.
  - destruct fuel as [ | fuel]; [lia | ]. simpl.
    destruct (i <? Z.of_nat (length idx))%Z eqn:E; [ | apply Z.ltb_ge in E; lia].
    replace (i + Z.of_nat 0 * step)%Z with i by lia. apply list_elem_of_here.
  - destruct fuel as [ | fuel]; [nia | ]. simpl chunk_loop.
    destruct (i <? Z.of_nat (length idx))%Z eqn:E; [ | apply Z.ltb_ge in E; nia].
    apply list_elem_of_further.
    replace (i + Z.of_nat (S k) * step)%Z with ((i + step) + Z.of_nat k * step)%Z by lia.
    apply IH; lia.
Qed.

(** Every stretch of the indexed text of at most [overlap + 1]
    characters lies within one window. *)
Lemma chunk_windows_cover (pre m post : list ascii) (size overlap : Z) :
  (0 < size)%Z -> (0 <= overlap < size)%Z ->
  0 < length m -> (Z.of_nat (length m) <= overlap + 1)%Z ->
  exists w l1 l2, w ∈ chunk_windows (pre ++ m ++ post) size overlap
                  /\ w = l1 ++ m ++ l2.
Proof.
  intros Hsize Hov Hm Hlen. unfold chunk_windows.
  set (idx := pre ++ m ++ post).
  rewrite Z.max_r by lia. set (step := (size - overlap)%Z).
  assert (Hstep : (1 <= step)%Z) by (unfold step; lia).
  set (k := (Z.of_nat (length pre) / step)%Z).
  assert (Hk : (0 <= k)%Z) by (apply Z.div_pos; lia).
  assert (Hdiv : (k * step <= Z.of_nat (length pre) < k * step + step)%Z).
  { unfold k. pose proof (Z.mul_div_le (Z.of_nat (length pre)) step ltac:(lia)).
    pose proof (Z.mul_succ_div_gt (Z.of_nat (length pre)) step ltac:(lia)). lia. }
  assert (Hidx : length idx = length pre + length m + length post).
  { unfold idx. rewrite !length_app. lia. }
  destruct (js_slice_contains pre m post (k * step) (k * step + size)) as (l1 & l2 & Hs);
    [lia | unfold step in *; lia | ].
  exists (js_slice idx (k * step) (k * step + size)), l1, l2.
  split; [ | exact Hs].
  pose proof (chunk_loop_elem idx size step (Z.to_nat k) Hstep (length idx) 0) as H.
  rewrite Z2Nat.id in H by lia. simpl in H. apply H; lia.
Qed.

Definition line_count (rawText : string) : nat :=
  length (split_lines (JS.chars rawText)).

(** The marker of line [n] occurs, unsplit, in some chunk. *)
Definition marker_in_some_chunk (chunks : list string) (n : nat) : Prop :=
  exists c, c ∈ chunks /\ JS.includes c (JS.str (line_marker n)) = true.

(** C6 as the specification states it. *)
Definition chunks_cover_markers_as_stated : Prop :=
  forall (T : string) (S O : Z),
    (0 < S)%Z -> (0 <= O < S)%Z ->
    1 <= length (chunkByChar T S O) /\
    forall n, 1 <= n <= line_count T -> marker_in_some_chunk (chunkByChar T S O) n.

Lemma includes_existsb (chunks : list string) (n : nat) :
  marker_in_some_chunk chunks n ->
  existsb (fun c => JS.includes c (JS.str (line_marker n))) chunks = true.
Proof.
  intros (c & Hc & Hin). apply existsb_exists. exists c.
  split; [apply list_elem_of_In; exact Hc | exact Hin].
Qed.

(** C6, as stated, fails: with chunk size 1 and overlap 0 the empty text
    is cut into nine chunks of one character, and none holds the marker
    of line 1. *)
Lemma chunks_cover_markers_as_stated_fails : ~ chunks_cover_markers_as_stated.
Proof.
  intros H. destruct (H "" 1%Z 0%Z) as [_ Hm]; [lia | lia | ].
  specialize (Hm 1). apply includes_existsb in Hm.
  - vm_compute in Hm. discriminate Hm.
  - vm_compute. lia.
Qed.

(** C6 (amended): for every text, chunk size [S > 0] and overlap
    [0 <= O < S], [chunkByChar] returns at least one chunk, and every
    line marker that is at most [O + 1] characters long appears unsplit
    in at least one chunk. *)
Theorem chunkByChar_covers_markers (T : string) (S O : Z) (n : nat) :
  (0 < S)%Z -> (0 <= O < S)%Z ->
  1 <= n <= line_count T ->
  (Z.of_nat (length (line_marker n)) <= O + 1)%Z ->
  1 <= length (chunkByChar T S O) /\ marker_in_some_chunk (chunkByChar T S O) n.
Proof.
  intros HS HO Hn Hlen.
  destruct (chunkByChar_never_falls_back_aux T S O) as [Hb Hone].
  split; [exact Hone | ].
  destruct (marker_in_indexed_text (JS.chars T) n Hn) as (pre & post & Hidx).
  destruct (chunk_windows_cover pre (line_marker n) post S O HS HO) as (w & l1 & l2 & Hw & ->).
  { pose proof (line_marker_length n). lia. }
  { exact Hlen. }
  exists (JS.str (l1 ++ line_marker n ++ l2)). split.
  - unfold chunkByChar. rewrite Hb. cbn [snd]. rewrite Hidx.
    change (map JS.str) with (fmap (M:=list) JS.str).
    apply list_elem_of_fmap_2. exact Hw.
  - unfold JS.includes. rewrite !chars_str. apply includes_list_infix.
Qed.

Lemma chunkByChar_covers_markers_witness :
  1 <= length (chunkByChar doc7 40 12) /\ marker_in_some_chunk (chunkByChar doc7 40 12) 1.
Proof.
  apply chunkByChar_covers_markers.
  - lia.
  - lia.
  - vm_compute. lia.
  - vm_compute. discriminate.
Defined.

(** * Further properties of the code *)

(** ** The shape of heuristic findings *)

Section HeuristicShape.

Variable rnd : nat -> string.

(** What every finding of [heuristicsAU] looks like. *)
Definition heuristic_shape (f : Finding) : Prop :=
  status f = Some "undisclosed" /\
  (theme f = Some "privacy_app" \/ theme f = Some "security_e8"
   \/ theme f = Some "cdss_exemption") /\
  (severity f = Some "high" \/ severity f = Some "medium" \/ severity f = Some "low") /\
  (exists t, title f = Some t /\ t <> "") /\
  (exists r, recommendation f = Some r /\ r <> "") /\
  (exists i, id f = Some i).

Lemma push_if_shape (b : bool) (g : string -> Finding) (out : list Finding) :
  (forall rid, heuristic_shape (g rid)) ->
  Forall heuristic_shape out -> Forall heuristic_shape (push_if rnd b g out).
Proof.
  intros Hg Hout. unfold push_if, push. destruct b; [ | exact Hout].
  apply Forall_app. split; [exact Hout | ]. constructor; [apply Hg | constructor].
Qed.

Lemma e8_step_shape (text : string) (st : list Finding * bool) (sig : string * regex) :
  Forall heuristic_shape st.1 -> Forall heuristic_shape (e8_step rnd text st sig).1.
Proof.
  destruct st as [out any], sig as [name rx]. cbn [fst]. intros Hout.
  unfold e8_step. destruct (test rx text); cbn [fst]; [exact Hout | ].
  unfold push. apply Forall_app. split; [exact Hout | ].
  constructor; [ | constructor].
  unfold heuristic_shape, mk. cbn.
  split; [reflexivity | ]. split; [auto | ]. split; [auto | ].
  split; [eexists; split; [reflexivity | discriminate] | ].
  split; [eexists; split; [reflexivity | discriminate] | ].
  eexists; reflexivity.
Qed.

Lemma e8_fold_shape (text : string) (sigs : list (string * regex))
    (st : list Finding * bool) :
  Forall heuristic_shape st.1 ->
  Forall heuristic_shape (foldl (e8_step rnd text) st sigs).1.
Proof.
  revert st. induction sigs as [ | sig sigs IH]; intros st Hst; cbn [foldl]; [exact Hst | ].
  apply IH. apply e8_step_shape. exact Hst.
Qed.

Ltac mk_shape :=
  intros rid; unfold heuristic_shape, mk; cbn;
  split; [reflexivity | ]; split; [auto | ]; split; [auto | ];
  split; [eexists; split; [reflexivity | discriminate] | ];
  split; [eexists; split; [reflexivity | discriminate] | ];
  eexists; reflexivity.

Lemma heuristicsAU_shape_aux (text : string) :
  Forall heuristic_shape (heuristicsAU rnd text).
Proof.
  unfold heuristicsAU. cbv zeta.
  match goal with
  | |- context [foldl (e8_step rnd text) (?o, false) e8Signals] =>
      pose proof (e8_fold_shape text e8Signals (o, false)) as He8;
      destruct (foldl (e8_step rnd text) (o, false) e8Signals) as [out any]
  end.
  repeat (apply push_if_shape; [mk_shape | ]).
  cbn [fst] in He8. apply He8.
  repeat (apply push_if_shape; [mk_shape | ]).
  constructor.
Qed.

(** X1: whatever the text, every finding of the heuristic engine has the
    status undisclosed, one of the themes privacy_app, security_e8 and
    cdss_exemption, one of the severities high, medium and low, and a
    title, a recommendation and an id. *)
Theorem heuristicsAU_shape (text : string) :
  Forall heuristic_shape (heuristicsAU rnd text).
Proof. apply heuristicsAU_shape_aux. Qed.

End HeuristicShape.

(** ** The Essential Eight findings *)

Section EssentialEight.

Variable rnd : nat -> string.

Lemma has_finding_push_if (b : bool) (g : string -> Finding) (out : list Finding)
    (t : string) :
  has_finding (push_if rnd b g out) t
  = has_finding out t || (b && has_title t (g (rnd (length out)))).
Proof.
  unfold push_if, push. destruct b; simpl.
  - rewrite has_finding_app. simpl. rewrite orb_false_r. reflexivity.
  - rewrite orb_false_r. reflexivity.
Qed.

Lemma has_title_mk (t th ti st se ev im re : string) (refs : list string) (c : Q)
    (rid : string) :
  has_title t (mk th ti st se ev im re refs c rid) = String.eqb ti t.
Proof.
  unfold has_title, mk. cbn [title].
  destruct (String.eqb ti t) eqn:E.
  - apply String.eqb_eq in E. subst. apply bool_decide_eq_true. reflexivity.
  - apply eqb_false_ne in E. apply bool_decide_eq_false. congruence.
Qed.

(** The loop over the signals: a finding per signal that does not match,
    and the flag tells whether some signal matched. *)
Lemma e8_fold (text : string) (sigs : list (string * regex)) (out : list Finding)
    (any : bool) (t : string) :
  has_finding (foldl (e8_step rnd text) (out, any) sigs).1 t
  = has_finding out t
    || existsb (fun sig => negb (test sig.2 text)
                           && String.eqb ("Essential Eight: " +:+ sig.1) t) sigs
  /\ (foldl (e8_step rnd text) (out, any) sigs).2
     = any || existsb (fun sig => test sig.2 text) sigs.
Proof.
  revert out any. induction sigs as [ | [name rx] sigs IH]; intros out any; cbn [foldl existsb].
  { rewrite !orb_false_r. split; reflexivity. }
  unfold e8_step at 2 4. cbn [fst snd].
  destruct (test rx text) eqn:E.
  - destruct (IH out true) as [-> ->]. cbn [negb andb orb].
    rewrite orb_true_r. split; reflexivity.
  - destruct (IH (push rnd out
                   (mk "security_e8" ("Essential Eight: " +:+ name) "undisclosed" "low"
                      "Signal not detected in document."
                      ("No mention of " +:+ String dquote name +:+ String dquote
                         " which is recommended ACSC control.")
                      ("Publish statement of posture for " +:+ String dquote name
                         +:+ String dquote ".")
                      ["ACSC Essential Eight"] 0.55)) any) as [-> ->].
    unfold push. rewrite has_finding_app. cbn [has_finding existsb].
    rewrite has_title_mk, orb_false_r. cbn [negb andb orb].
    rewrite orb_assoc. split; reflexivity.
Qed.

Ltac eval_eqb :=
  repeat match goal with
  | |- context [String.eqb ?a ?b] =>
      let v := eval vm_compute in (String.eqb a b) in
      change (String.eqb a b) with v
  end.

(** X2: the per-control finding of an Essential Eight signal is emitted
    exactly when the signal does not match the text, and the umbrella
    finding [Essential Eight posture] exactly when none of the eight
    signals matches. *)
Theorem e8_findings_iff (text : string) :
  let out := heuristicsAU rnd text in
  (forall name rx, (name, rx) ∈ e8Signals ->
     has_finding out ("Essential Eight: " +:+ name) = negb (test rx text)) /\
  has_finding out "Essential Eight posture"
  = negb (existsb (fun sig => test sig.2 text) e8Signals).
Proof.
  cbv zeta.
  assert (H : forall t,
    has_finding (heuristicsAU rnd text) t
    = existsb (fun sig => negb (test sig.2 text)
                          && String.eqb ("Essential Eight: " +:+ sig.1) t) e8Signals
      || (negb (existsb (fun sig => test sig.2 text) e8Signals)
          && String.eqb "Essential Eight posture" t)
      || negb (String.eqb "Essential Eight posture" t
               || existsb (fun sig => String.eqb ("Essential Eight: " +:+ sig.1) t)
                    e8Signals)
         && has_finding (heuristicsAU rnd text) t).
  { intros t. unfold heuristicsAU. cbv zeta.
    match goal with
    | |- context [foldl (e8_step rnd text) (?o, false) e8Signals] =>
        pose proof (e8_fold text e8Signals o false t) as [Hf Ha];
        destruct (foldl (e8_step rnd text) (o, false) e8Signals) as [out any]
    end.
    cbn [fst snd] in Hf, Ha. subst any.
    rewrite !has_finding_push_if, !has_title_mk.
    rewrite !has_finding_push_if, !has_title_mk in Hf. cbn [has_finding existsb] in Hf.
    rewrite Hf. cbn [orb].
    destruct (String.eqb "Essential Eight posture" t) eqn:Ep.
    { apply String.eqb_eq in Ep. subst t. eval_eqb.
      cbn [existsb orb andb negb fst snd]. eval_eqb.
      rewrite ?andb_false_r, ?andb_true_r, ?orb_false_r. reflexivity. }
    cbn [orb]. rewrite ?andb_false_r, ?orb_false_r.
    destruct (existsb (fun sig => String.eqb ("Essential Eight: " +:+ sig.1) t) e8Signals)
      eqn:Ee.
    2:{ cbn [negb andb].
        assert (Hz : existsb (fun sig => negb (test sig.2 text)
                        && String.eqb ("Essential Eight: " +:+ sig.1) t) e8Signals = false).
        { apply not_true_is_false. intros Hx. apply existsb_exists in Hx as (sig & Hs & Hx).
          apply andb_true_iff in Hx as [_ Hx].
          assert (existsb (fun sig => String.eqb ("Essential Eight: " +:+ sig.1) t)
                    e8Signals = true) by (apply existsb_exists; eauto).
          congruence. }
        rewrite Hz. cbn [orb]. reflexivity. }
    cbn [negb andb]. rewrite orb_false_r.
    apply existsb_exists in Ee as ([name rx] & Hs & Ee).
    apply String.eqb_eq in Ee. cbn [fst] in Ee. subst t.
    unfold e8Signals in Hs. cbn [In] in Hs.
    repeat (destruct Hs as [Hs | Hs];
            [injection Hs as <- <-; eval_eqb; cbn [existsb orb andb negb fst snd];
             eval_eqb; rewrite ?andb_false_r, ?andb_true_r, ?orb_false_r; reflexivity | ]).
    destruct Hs. }
  split.
  - intros name rx Hin. rewrite H.
    unfold e8Signals in Hin.
    repeat (apply elem_of_cons in Hin as [Hin | Hin];
            [injection Hin as -> ->; unfold e8Signals; cbn [existsb fst snd]; eval_eqb;
             cbn [orb andb negb]; rewrite ?andb_false_r, ?andb_true_r, ?orb_false_r;
             reflexivity | ]).
    exfalso. by apply elem_of_nil in Hin.
  - rewrite H. unfold e8Signals. cbn [existsb fst snd]. eval_eqb.
    cbn [orb andb negb]. rewrite ?andb_false_r, ?andb_true_r, ?orb_false_r. reflexivity.
Qed.

End EssentialEight.

(** ** Scores of a report *)

Definition all_plain (findings : list Finding) : Prop :=
  forall k, k ∈ category_keys -> plain_severities k findings.

Lemma overall_score_lookup (w : Weights) (m : gmap string jsnum) (p s c f v : Z) :
  m !! "privacy_app" = Some (Int p) -> m !! "security_e8" = Some (Int s) ->
  m !! "cdss_exemption" = Some (Int c) -> m !! "contract_fairness" = Some (Int f) ->
  m !! "vendor_sharing" = Some (Int v) ->
  overall_score w m = overall_score w (category_map_of p s c f v).
Proof.
  intros Hp Hs Hc Hf Hv. rewrite overall_score_of.
  unfold overall_score, times. rewrite Hp, Hs, Hc, Hf, Hv. reflexivity.
Qed.

Lemma aggregate_scores_aux (findings : list Finding)
    (plan : list RemediationItem) (text : string) :
  all_plain findings ->
  (forall k, k ∈ category_keys ->
     category (aggregate findings plan text) k = Some (Int (stated_score k findings text))
     /\ in_0_100 (stated_score k findings text)) /\
  exists z, overall (scores (aggregate findings plan text)) = Int z /\ in_0_100 z.
Proof.
  intros Hplain.
  assert (Hc : forall k, k ∈ category_keys ->
                 category (aggregate findings plan text) k
                 = Some (Int (stated_score k findings text))
                 /\ in_0_100 (stated_score k findings text)).
  { intros k Hk. apply category_score_plain; auto. }
  split; [exact Hc | ].
  destruct (Hc "privacy_app") as [H1 R1]; [in_category_keys | ].
  destruct (Hc "security_e8") as [H2 R2]; [in_category_keys | ].
  destruct (Hc "cdss_exemption") as [H3 R3]; [in_category_keys | ].
  destruct (Hc "contract_fairness") as [H4 R4]; [in_category_keys | ].
  destruct (Hc "vendor_sharing") as [H5 R5]; [in_category_keys | ].
  unfold category in H1, H2, H3, H4, H5.
  change (overall (scores (aggregate findings plan text)))
    with (overall_score config.weights (categories (scores (aggregate findings plan text)))).
  rewrite (overall_score_lookup _ _ _ _ _ _ _ H1 H2 H3 H4 H5).
  destruct config_weights_ok as [Wn Wsum].
  apply overall_score_bounds; assumption.
Qed.


(** X3: when no severity is a property name of [Object.prototype], the
    five category scores of [aggregate] are integers from 0 to 100, each
    the stated score of its theme, and so is the overall score under the
    configured weights. *)
Theorem aggregate_scores_in_range (findings : list Finding)
    (plan : list RemediationItem) (text : string) :
  all_plain findings ->
  let r := aggregate findings plan text in
  (forall k, k ∈ category_keys ->
     category r k = Some (Int (stated_score k findings text))
     /\ in_0_100 (stated_score k findings text)) /\
  exists z, overall (scores r) = Int z /\ in_0_100 z.
Proof. intros H. cbv zeta. apply aggregate_scores_aux. exact H. Qed.

Lemma shape_all_plain (findings : list Finding) :
  Forall heuristic_shape findings -> all_plain findings.
Proof.
  intros H k _. unfold plain_severities.
  eapply Forall_impl; [exact H | ].
  intros f (_ & _ & Hsev & _) _. unfold severity_key.
  destruct Hsev as [-> | [-> | ->]]; reflexivity.
Qed.

Lemma aggregate_scores_in_range_witness :
  exists z, overall (scores (aggregate [themeless_finding; notice_finding] [] doc7)) = Int z
            /\ in_0_100 z.
Proof.
  apply (aggregate_scores_in_range [themeless_finding; notice_finding] [] doc7).
  intros k _. unfold plain_severities.
  repeat constructor; intros _; reflexivity.
Defined.

(** X4: when the model yields no finding, the report built from the
    heuristic findings has, for every text, five category scores from 0
    to 100 and an overall score from 0 to 100: no score is [NaN]. *)
Theorem fallback_report_scores (rnd : nat -> string) (text : string) :
  let r := report_of rnd [] text in
  report_findings r = heuristicsAU rnd text /\
  (forall k, k ∈ category_keys ->
     exists z, category r k = Some (Int z) /\ in_0_100 z) /\
  exists z, overall (scores r) = Int z /\ in_0_100 z.
Proof.
  cbv zeta. unfold report_of, cover.
  pose proof (shape_all_plain _ (heuristicsAU_shape_aux rnd text)) as Hplain.
  destruct (aggregate_scores_aux (heuristicsAU rnd text)
              (remediation_plan_of rnd (heuristicsAU rnd text)) text Hplain) as [Hc Ho].
  split; [reflexivity | ]. split; [ | exact Ho].
  intros k Hk. destruct (Hc k Hk) as [H1 H2]. eauto.
Qed.

Lemma category_map_ext_zero (tc tc' : gmap string value) (floors : gmap string Z) :
  (forall k, k ∈ category_keys -> or_zero (JS.get tc' k) = or_zero (JS.get tc k)) ->
  category_map tc' floors = category_map tc floors.
Proof.
  intros H.
  assert (Hs : forall k, k ∈ category_keys ->
                 category_score tc' floors k = category_score tc floors k).
  { intros k Hk. unfold category_score. rewrite (H k Hk). reflexivity. }
  unfold category_map. simpl foldl.
  rewrite !Hs by in_category_keys. reflexivity.
Qed.

Lemma penalty_sum_perm (k : string) (l l' : list Finding) :
  l ≡ₚ l' -> penalty_sum k l = penalty_sum k l'.
Proof.
  induction 1 as [ | x l l' _ IH | x y l | l l' l'' _ IH1 _ IH2]; simpl.
  - reflexivity.
  - rewrite IH. reflexivity.
  - destruct (String.eqb (theme_key x) k), (String.eqb (theme_key y) k); lia.
  - congruence.
Qed.

Lemma penalty_sum_app (k : string) (l l' : list Finding) :
  penalty_sum k (l ++ l') = (penalty_sum k l + penalty_sum k l')%Z.
Proof.
  induction l as [ | x l IH]; simpl; [reflexivity | ].
  destruct (String.eqb (theme_key x) k); lia.
Qed.

Lemma counter_plain (findings : list Finding) (k : string) :
  k ∈ category_keys -> plain_severities k findings ->
  or_zero (JS.get (count_penalties findings) k) = VNum (penalty_sum k findings).
Proof.
  intros Hk Hp. destruct (category_keys_plain k Hk) as [Hproto Hi].
  unfold count_penalties. rewrite (count_fold findings ∅ k 0 Hproto Hp).
  - f_equal.
  - unfold JS.get. rewrite lookup_empty, Hi. reflexivity.
Qed.

(** X5: the scores do not depend on the order of the findings: two
    lists that are permutations of each other, with severities that are
    no property names of [Object.prototype], get the same five category
    scores and the same overall score, whatever the weights. *)
Theorem aggregate_order_irrelevant (weights : Weights) (findings findings' : list Finding)
    (plan plan' : list RemediationItem) (text : string) :
  all_plain findings -> findings ≡ₚ findings' ->
  scores (aggregate_with weights findings plan text)
  = scores (aggregate_with weights findings' plan' text).
Proof.
  intros Hplain Hperm. unfold aggregate_with. simpl.
  assert (Hmap : category_map (count_penalties findings) (detectSoftFloors text)
                 = category_map (count_penalties findings') (detectSoftFloors text)).
  { apply category_map_ext_zero. intros k Hk.
    rewrite !counter_plain; auto.
    - f_equal. apply penalty_sum_perm. exact Hperm.
    - unfold plain_severities. rewrite <- Hperm. apply Hplain. exact Hk. }
  rewrite Hmap. reflexivity.
Qed.

Lemma aggregate_order_irrelevant_witness :
  scores (aggregate_with config.weights [themeless_finding; notice_finding] [] doc7)
  = scores (aggregate_with config.weights [notice_finding; themeless_finding] [] doc7).
Proof.
  apply aggregate_order_irrelevant.
  - intros k _. unfold plain_severities. repeat constructor; intros _; reflexivity.
  - apply Permutation_swap.
Defined.

(** X6: one more finding never raises a category score, and lowers it
    by at most 20 points (severities as in X5). *)
Theorem aggregate_one_more_finding (findings : list Finding) (f : Finding)
    (plan : list RemediationItem) (text : string) (k : string) :
  all_plain (findings ++ [f]) -> k ∈ category_keys ->
  exists z z',
    category (aggregate findings plan text) k = Some (Int z) /\
    category (aggregate (findings ++ [f]) plan text) k = Some (Int z') /\
    (z - 20 <= z' <= z)%Z.
Proof.
  intros Hplain Hk.
  assert (Hp : plain_severities k findings).
  { specialize (Hplain k Hk). unfold plain_severities in *.
    apply Forall_app in Hplain as [H _]. exact H. }
  destruct (category_score_plain findings plan text k Hk Hp) as [H1 _].
  destruct (category_score_plain (findings ++ [f]) plan text k Hk (Hplain k Hk)) as [H2 _].
  exists (stated_score k findings text), (stated_score k (findings ++ [f]) text).
  split; [exact H1 | ]. split; [exact H2 | ].
  unfold stated_score. rewrite penalty_sum_app. simpl.
  pose proof (stated_penalty_nonneg (severity_key f)).
  assert (stated_penalty (severity_key f) <= 20)%Z.
  { unfold stated_penalty.
    destruct (String.eqb (severity_key f) "high"), (String.eqb (severity_key f) "medium"); lia. }
  destruct (String.eqb (theme_key f) k); lia.
Qed.

Lemma aggregate_one_more_finding_witness :
  exists z z',
    category (aggregate [themeless_finding] [] doc7) "privacy_app" = Some (Int z) /\
    category (aggregate ([themeless_finding] ++ [notice_finding]) [] doc7) "privacy_app"
      = Some (Int z') /\
    (z - 20 <= z' <= z)%Z.
Proof.
  apply aggregate_one_more_finding.
  - intros k _. unfold plain_severities. repeat constructor; intros _; reflexivity.
  - in_category_keys.
Defined.

(** X7: without findings every category score is 100 and, under the
    configured weights, the overall score is 100, whatever the text and
    the plan. *)
Theorem aggregate_no_findings (plan : list RemediationItem) (text : string) :
  let r := aggregate [] plan text in
  (forall k, k ∈ category_keys -> category r k = Some (Int 100)) /\
  overall (scores r) = Int 100.
Proof.
  cbv zeta.
  assert (Hc : forall k, k ∈ category_keys ->
                 category (aggregate [] plan text) k = Some (Int 100)).
  { intros k Hk.
    destruct (category_score_plain [] plan text k Hk) as [H _]; [constructor | ].
    rewrite H. do 2 f_equal. unfold stated_score. simpl.
    destruct (soft_floor_get text k Hk) as [_ [-> | ->]]; reflexivity. }
  split; [exact Hc | ].
  pose proof (Hc "privacy_app" ltac:(in_category_keys)) as H1.
  pose proof (Hc "security_e8" ltac:(in_category_keys)) as H2.
  pose proof (Hc "cdss_exemption" ltac:(in_category_keys)) as H3.
  pose proof (Hc "contract_fairness" ltac:(in_category_keys)) as H4.
  pose proof (Hc "vendor_sharing" ltac:(in_category_keys)) as H5.
  unfold category in H1, H2, H3, H4, H5.
  change (overall (scores (aggregate [] plan text)))
    with (overall_score config.weights (categories (scores (aggregate [] plan text)))).
  rewrite (overall_score_lookup _ _ _ _ _ _ _ H1 H2 H3 H4 H5).
  vm_compute. reflexivity.
Qed.

(** ** Deduplication keeps the first finding of a key *)

Section DedupeFirst.

Variable rnd : nat -> string.

Lemma map_has_app (m m' : list (string * RemediationItem)) (k : string) :
  map_has (m ++ m') k = map_has m k || map_has m' k.
Proof. unfold map_has. apply existsb_app. Qed.

Lemma dedupe_step_keeps (m : list (string * RemediationItem)) (n : nat) (f : Finding)
    (k : string) :
  map_has m k = true -> map_has (dedupe_step rnd (m, n) f).1 k = true.
Proof.
  intros H. destruct (dedupe_step_cases rnd m n f) as [[_ ->] | (i & n' & -> & _)];
    cbn [fst]; [exact H | ].
  rewrite map_has_app, H. reflexivity.
Qed.

Lemma dedupe_fold_keeps (fs : list Finding) (st : list (string * RemediationItem) * nat)
    (k : string) :
  map_has st.1 k = true -> map_has (foldl (dedupe_step rnd) st fs).1 k = true.
Proof.
  revert st. induction fs as [ | f fs IH]; intros [m n] H; cbn [foldl]; [exact H | ].
  apply IH. destruct (dedupe_step rnd (m, n) f) as [m' n'] eqn:E.
  pose proof (dedupe_step_keeps m n f k H) as H'. rewrite E in H'. exact H'.
Qed.

Lemma dedupe_fold_has (fs : list Finding) (st : list (string * RemediationItem) * nat)
    (f : Finding) :
  f ∈ fs -> dedup_key f <> "" ->
  map_has (foldl (dedupe_step rnd) st fs).1 (dedup_key f) = true.
Proof.
  revert st. induction fs as [ | g fs IH]; intros [m n] Hin Hk; cbn [foldl].
  { exfalso. by apply elem_of_nil in Hin. }
  apply elem_of_cons in Hin as [<- | Hin]; [ | apply IH; assumption].
  apply dedupe_fold_keeps.
  destruct (dedupe_step_cases rnd m n f) as [[[He | Hh] ->] | (i & n' & -> & _)]; cbn [fst].
  - contradiction.
  - exact Hh.
  - rewrite map_has_app. cbn. rewrite String.eqb_refl. apply orb_true_r.
Qed.

(** X8: a finding whose recommendation starts with the same 200
    characters as the recommendation of an earlier finding changes
    nothing: the earlier finding keeps the entry, and the output is the
    one of the list without the later finding. *)
Theorem dedupe_first_wins (l1 l2 : list Finding) (f g : Finding) :
  f ∈ l1 -> dedup_key g = dedup_key f ->
  dedupeRecommendations rnd (l1 ++ g :: l2) = dedupeRecommendations rnd (l1 ++ l2).
Proof.
  intros Hf Hk. unfold dedupeRecommendations, dedupe_entries.
  rewrite !foldl_app. cbn [foldl].
  pose proof (dedupe_fold_has l1 ([], 0) f Hf) as Hhas.
  destruct (foldl (dedupe_step rnd) ([], 0) l1) as [m n]. cbn [fst] in Hhas.
  destruct (dedupe_step_cases rnd m n g) as [[_ ->] | (i & n' & _ & Hne & Hno)];
    [reflexivity | ].
  rewrite Hk in Hne, Hno. rewrite (Hhas Hne) in Hno. discriminate Hno.
Qed.

End DedupeFirst.

Lemma dedupe_first_wins_witness :
  dedupeRecommendations no_random ([encrypt_finding; rotate_finding] ++ encrypt_finding :: [])
  = dedupeRecommendations no_random ([encrypt_finding; rotate_finding] ++ []).
Proof.
  apply (dedupe_first_wins no_random [encrypt_finding; rotate_finding] [] encrypt_finding).
  - apply list_elem_of_here.
  - reflexivity.
Defined.

(** ** The order of the recovery tiers *)

Section TierOrder.

Variable JSON_parse : string -> result json.

(** The value of the first input on which [JSON.parse] succeeds. *)
Fixpoint first_parsed (inputs : list string) : option json :=
  match inputs with
  | [] => None
  | s :: rest =>
      match JSON_parse s with
      | Ok j => Some j
      | Throw _ => first_parsed rest
      end
  end.

(** X9: on a non-empty string, the recoverer returns the array held by
    the first tier whose input parses (the whole text, then the first
    fenced block, then the first bracketed substring), and the empty
    sequence when that value is not an array or no tier parses: a tier
    that parses to a non-array ends the recovery, later tiers are not
    tried. *)
Theorem parseGeminiJson_first_success (s : string) :
  s <> "" ->
  parseGeminiJson JSON_parse (RText s)
  = Ok (match first_parsed (tier_inputs s) with
        | Some j => array_or_empty j
        | None => []
        end).
Proof.
  intros Hs. unfold parseGeminiJson, tier_inputs, parse_array.
  destruct (String.eqb s "") eqn:E; [apply String.eqb_eq in E; contradiction | ].
  destruct (match1 fence_rx s) as [b | ]; destruct (match0 arrayLike_rx s) as [a | ];
    simpl;
    destruct (JSON_parse s) as [j | e]; simpl; try reflexivity;
    try (destruct (JSON_parse b) as [j | e']; simpl; try reflexivity);
    try (destruct (JSON_parse a) as [j | e'']; simpl; reflexivity).
Qed.

End TierOrder.

Lemma parseGeminiJson_first_success_witness :
  parseGeminiJson JsonReader.parse (RText "[1] and ``` {} ```")
  = Ok (match first_parsed JsonReader.parse (tier_inputs "[1] and ``` {} ```") with
        | Some j => array_or_empty j
        | None => []
        end).
Proof. apply parseGeminiJson_first_success. discriminate. Defined.

(** The array in front wins; had it thrown, the object in the fence
    would have ended the recovery with the empty sequence. *)
Example parseGeminiJson_object_in_fence :
  parseGeminiJson JsonReader.parse (RText "[1] and ``` {} ```") = Ok [] /\
  parseGeminiJson JsonReader.parse (RText "{} and ``` [1] ```") = Ok [JNumber "1"] /\
  parseGeminiJson JsonReader.parse (RText "{}") = Ok [].
Proof. vm_compute. repeat split. Qed.

(** ** Gap-fill is idempotent *)

Section GapFillTwice.

Variable rnd rnd' : nat -> string.

Lemma has_finding_same_title (x : Finding) (t : string) (l : list Finding) :
  title x = Some t -> has_finding l t = true -> existsb (same_title x) l = true.
Proof.
  intros Hx. unfold has_finding. apply existsb_impl. intros y Hy.
  unfold has_title in Hy. apply bool_decide_eq_true in Hy.
  unfold same_title. rewrite Hx, Hy. apply String.eqb_refl.
Qed.

(** After gap-fill every needle is matched, and the retention finding
    is there unless the text matches the retention pattern. *)
Lemma ensureMinimumAU_matched (findings : list Finding) (text : string) :
  let r := ensureMinimumAU rnd findings text in
  have r "app 5" = true /\ have r "app 11" = true /\
  have r "access to personal" = true /\ have r "correction" = true /\
  (test retention_rx text = false -> has_finding r "Retention & deletion" = true).
Proof.
  cbv zeta. rewrite ensureMinimumAU_four_steps.
  destruct (four_steps_cover rnd findings) as (_ & (C5 & C11 & C12 & C13) & _).
  destruct (four_steps rnd findings) as [l n]. cbn [fst] in *.
  unfold add_if, add.
  destruct (test retention_rx text) eqn:Ht; cbn [negb fst].
  { repeat split; auto. discriminate. }
  destruct (existsb (same_title (gap_retention (rnd n))) l) eqn:Hs.
  - repeat split; auto. intros _.
    apply (same_title_has_finding (gap_retention (rnd n)));
      [reflexivity | discriminate | exact Hs].
  - rewrite !have_app, C5, C11, C12, C13. repeat split; auto.
    intros _. rewrite has_finding_app. apply orb_true_iff. right.
    apply (proj2 (proj2 (proj2 (proj2 (has_finding_table (rnd n)))))).
Qed.

(** X10: gap-fill is idempotent: run on its own result, with any random
    source, it adds nothing. *)
Theorem ensureMinimumAU_idempotent (findings : list Finding) (text : string) :
  ensureMinimumAU rnd' (ensureMinimumAU rnd findings text) text
  = ensureMinimumAU rnd findings text.
Proof.
  destruct (ensureMinimumAU_matched findings text) as (C5 & C11 & C12 & C13 & Hret).
  set (r := ensureMinimumAU rnd findings text) in *.
  unfold ensureMinimumAU at 1. unfold ensureMinimumAU_from.
  cbn [fst]. rewrite C5. cbn [negb add_if fst]. rewrite C11. cbn [negb add_if fst].
  rewrite C12. cbn [negb add_if fst]. rewrite C13. cbn [negb add_if fst].
  destruct (test retention_rx text) eqn:Ht; cbn [negb add_if fst]; [reflexivity | ].
  unfold add.
  rewrite (has_finding_same_title (gap_retention (rnd' 0)) "Retention & deletion" r);
    [reflexivity | reflexivity | apply Hret; reflexivity].
Qed.

End GapFillTwice.

(** ** Size and number of the chunks *)

Lemma js_slice_length (s : list ascii) (b e : Z) :
  (0 <= b <= e)%Z -> (Z.of_nat (length (js_slice s b e)) <= e - b)%Z.
Proof.
  intros Hb. unfold js_slice. cbv beta zeta.
  destruct (b <? 0)%Z eqn:Eb; [apply Z.ltb_lt in Eb; lia | ].
  rewrite length_take, length_drop.
  destruct (e <? 0)%Z eqn:Ee; [apply Z.ltb_lt in Ee | apply Z.ltb_ge in Ee]; lia.
Qed.

Lemma chunk_loop_from (fuel : nat) (idx : list ascii) (size step i : Z) (w : list ascii) :
  (1 <= step)%Z -> (0 <= i)%Z ->
  w ∈ chunk_loop fuel idx size step i ->
  exists j, (0 <= j)%Z /\ w = js_slice idx j (j + size).
Proof.
  intros Hstep. revert i. induction fuel as [ | fuel IH]; intros i Hi Hw; simpl in Hw.
  { exfalso. by apply elem_of_nil in Hw. }
  destruct (i <? Z.of_nat (length idx))%Z; [ | exfalso; by apply elem_of_nil in Hw].
  apply elem_of_cons in Hw as [-> | Hw]; [eauto | ].
  apply (IH (i + step)%Z); [lia | exact Hw].
Qed.

(** The number of turns of the loop from position [i]. *)
Lemma chunk_loop_length (fuel : nat) (idx : list ascii) (size step i : Z) :
  (1 <= step)%Z -> (0 <= i)%Z ->
  (Z.of_nat (length idx) - i <= Z.of_nat fuel)%Z ->
  (- step < Z.of_nat (length idx) - i)%Z ->
  Z.of_nat (length (chunk_loop fuel idx size step i))
  = ((Z.of_nat (length idx) - i + step - 1) / step)%Z.
Proof.
  intros Hstep. revert i. induction fuel as [ | fuel IH]; intros i Hi Hf Hlow; simpl.
  { symmetry. apply Z.div_small. lia. }
  destruct (i <? Z.of_nat (length idx))%Z eqn:E.
  - apply Z.ltb_lt in E. simpl length. rewrite Nat2Z.inj_succ, IH by lia.
    replace (Z.of_nat (length idx) - i + step - 1)%Z
      with ((Z.of_nat (length idx) - (i + step) + step - 1) + 1 * step)%Z by lia.
    rewrite Z.div_add by lia. lia.
  - apply Z.ltb_ge in E. simpl. symmetry. apply Z.div_small. lia.
Qed.

(** X11: for a chunk size [S > 0] every chunk has at most [S]
    characters, and the number of chunks is the length of the indexed
    text divided by the step [max 1 (S - O)], rounded up. *)
Theorem chunkByChar_sizes (T : string) (S O : Z) :
  (0 < S)%Z ->
  let step := Z.max 1 (S - O) in
  let len := Z.of_nat (length (indexed_text (JS.chars T))) in
  (forall c, c ∈ chunkByChar T S O -> (Z.of_nat (length (JS.chars c)) <= S)%Z) /\
  Z.of_nat (length (chunkByChar T S O)) = ((len + step - 1) / step)%Z.
Proof.
  intros HS. cbv zeta.
  destruct (chunkByChar_never_falls_back_aux T S O) as [Hb _].
  unfold chunkByChar. rewrite Hb. cbn [snd]. unfold chunk_windows. split.
  - intros c Hc. change (map JS.str) with (fmap (M:=list) JS.str) in Hc.
    apply list_elem_of_fmap in Hc as (w & -> & Hw). rewrite chars_str.
    apply chunk_loop_from in Hw as (j & Hj & ->); [ | lia | lia].
    pose proof (js_slice_length (indexed_text (JS.chars T)) j (j + S) ltac:(lia)). lia.
  - rewrite length_map, chunk_loop_length by lia. f_equal. lia.
Qed.

Lemma chunkByChar_sizes_witness :
  (forall c, c ∈ chunkByChar doc7 40 12 -> (Z.of_nat (length (JS.chars c)) <= 40)%Z) /\
  Z.of_nat (length (chunkByChar doc7 40 12))
  = ((Z.of_nat (length (indexed_text (JS.chars doc7))) + Z.max 1 (40 - 12) - 1)
     / Z.max 1 (40 - 12))%Z.
Proof. apply (chunkByChar_sizes doc7 40 12). lia. Defined.

(** ** Chunks without overlap *)

Lemma chunk_loop_concat (fuel : nat) (idx : list ascii) (size i : Z) :
  (0 < size)%Z -> (0 <= i)%Z ->
  (Z.of_nat (length idx) - i <= Z.of_nat fuel)%Z ->
  concat (chunk_loop fuel idx size size i) = drop (Z.to_nat i) idx.
Proof.
  intros Hsize. revert i. induction fuel as [ | fuel IH]; intros i Hi Hf; simpl.
  { rewrite drop_ge by lia. reflexivity. }
  destruct (i <? Z.of_nat (length idx))%Z eqn:E.
  - apply Z.ltb_lt in E. simpl. rewrite IH by lia.
    unfold js_slice. cbv beta zeta.
    destruct (i <? 0)%Z eqn:Ei; [apply Z.ltb_lt in Ei; lia | ].
    destruct (i + size <? 0)%Z eqn:Ee; [apply Z.ltb_lt in Ee; lia | ].
    rewrite (Z.min_l i) by lia.
    destruct (Z.le_ge_cases (i + size) (Z.of_nat (length idx))) as [Hle | Hge].
    + rewrite (Z.min_l (i + size)) by lia.
      replace (Z.to_nat (i + size)) with (Z.to_nat i + Z.to_nat size) by lia.
      rewrite <- drop_drop.
      replace (Z.to_nat (Z.max (i + size - i) 0)) with (Z.to_nat size) by lia.
      apply take_drop.
    + rewrite (Z.min_r (i + size)) by lia.
      rewrite (drop_ge idx (Z.to_nat (i + size))) by lia.
      rewrite app_nil_r. apply take_ge. rewrite length_drop. lia.
  - apply Z.ltb_ge in E. simpl. rewrite drop_ge by lia. reflexivity.
Qed.

(** X12: with overlap 0 the chunks are a partition of the indexed text:
    concatenated in order they give it back. *)
Theorem chunkByChar_no_overlap (T : string) (S : Z) :
  (0 < S)%Z ->
  concat (map JS.chars (chunkByChar T S 0)) = indexed_text (JS.chars T).
Proof.
  intros HS.
  destruct (chunkByChar_never_falls_back_aux T S 0) as [Hb _].
  unfold chunkByChar. rewrite Hb. cbn [snd].
  rewrite map_map.
  rewrite (map_ext (fun x => JS.chars (JS.str x)) (fun x => x)) by apply chars_str.
  rewrite map_id. unfold chunk_windows.
  rewrite Z.max_r by lia. rewrite Z.sub_0_r.
  rewrite chunk_loop_concat by lia. reflexivity.
Qed.

Lemma chunkByChar_no_overlap_witness :
  concat (map JS.chars (chunkByChar doc7 25 0)) = indexed_text (JS.chars doc7).
Proof. apply chunkByChar_no_overlap. lia. Defined.

(** ** Literal patterns *)

Definition lit_list (l : list ascii) : regex :=
  foldr (fun a r => Seq (Class (Chr a)) r) Eps l.

(** The state after reading [n] characters. *)
Fixpoint advance (n : nat) (st : mstate) : mstate :=
  match n, rest st with
  | S n', c :: t => advance n' (MState (Some c) (S (pos st)) t (cap st))
  | _, _ => st
  end.

Lemma advance_pos (n : nat) (st : mstate) :
  n <= length (rest st) ->
  pos (advance n st) = pos st + n /\ rest (advance n st) = drop n (rest st)
  /\ cap (advance n st) = cap st.
Proof.
  revert st. induction n as [ | n IH]; intros st Hn; simpl.
  { rewrite Nat.add_0_r. destruct (rest st); auto. }
  destruct (rest st) as [ | c t] eqn:E; simpl in Hn; [lia | ].
  destruct (IH (MState (Some c) (S (pos st)) t (cap st))) as (H1 & H2 & H3);
    [simpl; lia | ].
  rewrite H1, H2, H3. simpl. repeat split; lia.
Qed.

(** A literal pattern reads the characters it spells, in either case,
    and nothing else. *)
Lemma run_lit (l : list ascii) (k : mstate -> option mstate) (st : mstate) :
  run (lit_list l) k st
  = if JS.starts_with (map JS.lower l) (map JS.lower (rest st))
    then k (advance (length l) st) else None.
Proof.
  revert st. induction l as [ | a l IH]; intros st; simpl.
  { destruct (map JS.lower (rest st)); reflexivity. }
  destruct (rest st) as [ | c t] eqn:E; simpl; [reflexivity | ].
  destruct (JS.ascii_eqb (JS.lower a) (JS.lower c)); simpl; [ | reflexivity].
  rewrite IH. simpl. reflexivity.
Qed.

Lemma starts_with_length (n l : list ascii) :
  JS.starts_with n l = true -> length n <= length l.
Proof.
  revert l. induction n as [ | a n IH]; intros l H; simpl; [lia | ].
  destruct l as [ | b l]; simpl in *; [discriminate H | ].
  apply andb_true_iff in H as [_ H]. apply IH in H. lia.
Qed.

Lemma exec_from_lit (pat l : list ascii) (p : option ascii) (n : nat) :
  match exec_from (lit_list pat) p n l with Some _ => true | None => false end
  = JS.includes_list (map JS.lower pat) (map JS.lower l).
Proof.
  revert p n. induction l as [ | c l IH]; intros p n; simpl; rewrite run_lit; simpl.
  - destruct (JS.starts_with (map JS.lower pat) []); reflexivity.
  - destruct (JS.starts_with (map JS.lower pat) (JS.lower c :: map JS.lower l));
      [reflexivity | ].
    simpl. apply IH.
Qed.

(** On the 8-bit code units of the embedding, a pattern that is a plain
    phrase is a substring test on the lower-cased text. *)
Lemma test_lit_eq (phrase text : string) :
  test (lit phrase) text = JS.includes (JS.toLowerCase text) (JS.toLowerCase phrase).
Proof.
  unfold test, exec, JS.includes, JS.toLowerCase. rewrite !chars_str.
  apply (exec_from_lit (JS.chars phrase) (JS.chars text) None 0).
Qed.

Lemma starts_with_split (n l : list ascii) :
  JS.starts_with n l = true -> exists l2, l = n ++ l2.
Proof.
  revert l. induction n as [ | a n IH]; intros l H; simpl in *; [eauto | ].
  destruct l as [ | b l]; [discriminate H | ].
  apply andb_true_iff in H as [Hab H]. apply Ascii.eqb_eq in Hab. subst b.
  destruct (IH l H) as [l2 ->]. eauto.
Qed.

Lemma includes_list_split (n l : list ascii) :
  JS.includes_list n l = true -> exists l1 l2, l = l1 ++ n ++ l2.
Proof.
  induction l as [ | c l IH]; simpl; intros H.
  - rewrite orb_false_r in H. apply starts_with_split in H as [l2 H]. exists [], l2. exact H.
  - apply orb_true_iff in H as [H | H].
    + apply starts_with_split in H as [l2 H]. exists [], l2. exact H.
    + destruct (IH H) as (l1 & l2 & ->). exists (c :: l1), l2. reflexivity.
Qed.

(** A text that contains a phrase contains every part of the phrase. *)
Lemma includes_part (text a b c : string) :
  JS.includes text (a +:+ b +:+ c) = true -> JS.includes text b = true.
Proof.
  unfold JS.includes. rewrite !chars_append. intros H.
  apply includes_list_split in H as (l1 & l2 & ->).
  rewrite <- !app_assoc, app_assoc. apply includes_list_infix.
Qed.

Section CollectionNotice.

Variable rnd : nat -> string.

(** X14: the collection-notice finding is emitted unless the lower-cased
    text contains both [why we collect] and [how to contact]; the phrase
    [we collect], the first of the three the rule tests, is part of the
    second and never decides. *)
Theorem app5_finding_iff (text : string) :
  has_finding (heuristicsAU rnd text) "APP 5 collection notice"
  = negb (JS.includes (JS.toLowerCase text) "why we collect"
          && JS.includes (JS.toLowerCase text) "how to contact").
Proof.
  unfold heuristicsAU. cbv zeta.
  match goal with
  | |- context [foldl (e8_step rnd text) (?o, false) e8Signals] =>
      pose proof (e8_fold rnd text e8Signals o false "APP 5 collection notice") as [Hf _];
      destruct (foldl (e8_step rnd text) (o, false) e8Signals) as [out any]
  end.
  cbn [fst] in Hf.
  rewrite !has_finding_push_if, !has_title_mk, Hf.
  rewrite !has_finding_push_if, !has_title_mk.
  unfold e8Signals. cbn [has_finding existsb fst snd].
  repeat match goal with
  | |- context [String.eqb ?a ?b] =>
      let v := eval vm_compute in (String.eqb a b) in
      change (String.eqb a b) with v
  end.
  rewrite ?andb_false_r, ?andb_true_r, ?orb_false_r. cbn [orb].
  rewrite !test_lit_eq.
  change (JS.toLowerCase "we collect") with "we collect".
  change (JS.toLowerCase "why we collect") with "why we collect".
  change (JS.toLowerCase "how to contact") with "how to contact".
  destruct (JS.includes (JS.toLowerCase text) "why we collect") eqn:Ewhy.
  - rewrite (includes_part (JS.toLowerCase text) "why " "we collect" "" Ewhy).
    reflexivity.
  - cbn. rewrite orb_true_r. reflexivity.
Qed.

End CollectionNotice.

(** ** The inferred title *)

Definition title_phrases : list string :=
  ["privacy policy"; "terms of service"; "terms and conditions";
   "data processing addendum"].

(** [/(privacy policy|terms of service|terms and conditions|data processing addendum)/i] *)
Definition title_rx : regex := Group (alts (map lit title_phrases)).

(** [inferTitle]: the first match as the text spells it, or
    ["Document"]. *)
Definition inferTitle (t : string) : string :=
  match match0 title_rx t with
  | Some m => m
  | None => "Document"
  end.

(** The first phrase that the text spells at its start, in either
    case. *)
Definition phrase_at (l : list ascii) : option string :=
  find (fun p => JS.starts_with (map JS.lower (JS.chars p)) (map JS.lower l))
       title_phrases.

Lemma run_group (r : regex) (k : mstate -> option mstate) (st : mstate) :
  run (Group r) k st
  = run r (fun st' => k (MState (prev st') (pos st') (rest st') (Some (pos st, pos st')))) st.
Proof. reflexivity. Qed.

Lemma run_alt (r1 r2 : regex) (k : mstate -> option mstate) (st : mstate) :
  run (Alt r1 r2) k st = or_try (run r1 k st) (fun _ => run r2 k st).
Proof. reflexivity. Qed.

Lemma title_rx_eq :
  title_rx = Group (Alt (lit_list (JS.chars "privacy policy"))
                     (Alt (lit_list (JS.chars "terms of service"))
                        (Alt (lit_list (JS.chars "terms and conditions"))
                           (lit_list (JS.chars "data processing addendum"))))).
Proof. reflexivity. Qed.

Lemma phrase_at_eq (l : list ascii) :
  phrase_at l
  = if JS.starts_with (map JS.lower (JS.chars "privacy policy")) (map JS.lower l)
    then Some "privacy policy"
    else if JS.starts_with (map JS.lower (JS.chars "terms of service")) (map JS.lower l)
    then Some "terms of service"
    else if JS.starts_with (map JS.lower (JS.chars "terms and conditions")) (map JS.lower l)
    then Some "terms and conditions"
    else if JS.starts_with (map JS.lower (JS.chars "data processing addendum"))
              (map JS.lower l)
    then Some "data processing addendum"
    else None.
Proof. reflexivity. Qed.

Lemma or_try_none (y : unit -> option mstate) : or_try None y = y tt.
Proof. reflexivity. Qed.

Lemma or_try_some (m : mstate) (y : unit -> option mstate) : or_try (Some m) y = Some m.
Proof. reflexivity. Qed.

Lemma pos_mk (p : option ascii) (n : nat) (r : list ascii) (c : option (nat * nat)) :
  pos (MState p n r c) = n.
Proof. reflexivity. Qed.

Lemma run_title (st : mstate) :
  match run title_rx Some st with
  | Some m => exists p, phrase_at (rest st) = Some p
                        /\ pos m = pos st + length (JS.chars p)
  | None => phrase_at (rest st) = None
  end.
Proof.
  rewrite title_rx_eq, phrase_at_eq, run_group.
  pose proof (fun p E => proj1 (advance_pos (length (JS.chars p)) st E)) as Hadv.
  rewrite run_alt, run_lit.
  destruct (JS.starts_with (map JS.lower (JS.chars "privacy policy"))
              (map JS.lower (rest st))) eqn:E1.
  { cbv beta. rewrite or_try_some.
    apply starts_with_length in E1. rewrite !length_map in E1.
    exists "privacy policy". split; [reflexivity | ].
    rewrite pos_mk. exact (Hadv "privacy policy" E1). }
  rewrite or_try_none, run_alt, run_lit.
  destruct (JS.starts_with (map JS.lower (JS.chars "terms of service"))
              (map JS.lower (rest st))) eqn:E2.
  { cbv beta. rewrite or_try_some.
    apply starts_with_length in E2. rewrite !length_map in E2.
    exists "terms of service". split; [reflexivity | ].
    rewrite pos_mk. exact (Hadv "terms of service" E2). }
  rewrite or_try_none, run_alt, run_lit.
  destruct (JS.starts_with (map JS.lower (JS.chars "terms and conditions"))
              (map JS.lower (rest st))) eqn:E3.
  { cbv beta. rewrite or_try_some.
    apply starts_with_length in E3. rewrite !length_map in E3.
    exists "terms and conditions". split; [reflexivity | ].
    rewrite pos_mk. exact (Hadv "terms and conditions" E3). }
  rewrite or_try_none, run_lit.
  destruct (JS.starts_with (map JS.lower (JS.chars "data processing addendum"))
              (map JS.lower (rest st))) eqn:E4.
  { cbv beta.
    apply starts_with_length in E4. rewrite !length_map in E4.
    exists "data processing addendum". split; [reflexivity | ].
    rewrite pos_mk. exact (Hadv "data processing addendum" E4). }
  reflexivity.
Qed.

Lemma exec_from_title (l : list ascii) (p : option ascii) (n : nat) :
  match exec_from title_rx p n l with
  | Some (b, m) => exists q, n <= b /\ b - n <= length l
                             /\ phrase_at (drop (b - n) l) = Some q
                             /\ pos m = b + length (JS.chars q)
  | None => forall i, phrase_at (drop i l) = None
  end.
Proof.
  revert p n. induction l as [ | c l IH]; intros p n; cbn [exec_from].
  - pose proof (run_title (MState p n [] None)) as H.
    destruct (run title_rx Some (MState p n [] None)) as [m | ].
    + destruct H as (q & Hq & Hpos). cbn in Hq, Hpos.
      exists q. rewrite Nat.sub_diag. cbn. auto with lia.
    + intros i. rewrite drop_nil. exact H.
  - pose proof (run_title (MState p n (c :: l) None)) as H.
    destruct (run title_rx Some (MState p n (c :: l) None)) as [m | ].
    + destruct H as (q & Hq & Hpos). cbn [rest pos] in Hq, Hpos.
      exists q. rewrite Nat.sub_diag. cbn [drop]. auto with lia.
    + cbn [rest] in H. specialize (IH (Some c) (S n)).
      destruct (exec_from title_rx (Some c) (S n) l) as [[b m] | ].
      * destruct IH as (q & Hb & Hlen & Hq & Hpos). exists q.
        replace (b - n) with (S (b - S n)) by lia. cbn [drop length].
        repeat split; auto with lia.
      * intros [ | i]; [exact H | apply IH].
Qed.

Lemma starts_with_take (n l : list ascii) :
  JS.starts_with n l = true -> take (length n) l = n.
Proof.
  intros H. apply starts_with_split in H as [l2 ->]. apply take_app_length.
Qed.

Lemma starts_with_includes (n l : list ascii) (i : nat) :
  JS.starts_with n (drop i l) = true -> JS.includes_list n l = true.
Proof.
  intros H. apply starts_with_split in H as [l2 H].
  rewrite <- (take_drop i l), H. apply includes_list_infix.
Qed.

Lemma includes_list_starts (n l : list ascii) :
  JS.includes_list n l = true -> exists i, JS.starts_with n (drop i l) = true.
Proof.
  induction l as [ | c l IH]; simpl; intros H.
  - exists 0. rewrite orb_false_r in H. exact H.
  - apply orb_true_iff in H as [H | H]; [exists 0; exact H | ].
    destruct (IH H) as [i Hi]. exists (S i). exact Hi.
Qed.

(** X15: the inferred title is ["Document"] exactly when the text
    contains none of the four document-type phrases, in any case;
    otherwise it is a stretch of the text, as the text spells it, whose
    lower-case form is one of the phrases. *)
Theorem inferTitle_spec (t : string) :
  (inferTitle t = "Document" /\
   forall p, p ∈ title_phrases -> JS.includes (JS.toLowerCase t) p = false) \/
  (exists p, p ∈ title_phrases /\ JS.toLowerCase (inferTitle t) = p /\
             JS.includes t (inferTitle t) = true).
Proof.
  unfold inferTitle, match0, exec.
  pose proof (exec_from_title (JS.chars t) None 0) as H.
  destruct (exec_from title_rx None 0 (JS.chars t)) as [[b m] | ].
  - right. destruct H as (q & _ & Hb & Hq & Hpos).
    rewrite Nat.sub_0_r in Hq, Hb. unfold phrase_at in Hq.
    apply find_some in Hq as [Hin Hst]. exists q.
    split; [apply list_elem_of_In; exact Hin | ].
    unfold substring. rewrite Hpos.
    replace (b + length (JS.chars q) - b) with (length (JS.chars q)) by lia.
    assert (Hlow : map JS.lower (JS.chars q) = JS.chars q).
    { unfold title_phrases in Hin. cbn [In] in Hin.
      repeat (destruct Hin as [<- | Hin]; [reflexivity | ]). destruct Hin. }
    split.
    + unfold JS.toLowerCase. rewrite chars_str.
      pose proof (starts_with_take _ _ Hst) as Ht.
      rewrite length_map, firstn_map, Hlow in Ht.
      rewrite Ht. apply str_chars.
    + unfold JS.includes. rewrite chars_str.
      rewrite <- (take_drop b (JS.chars t)) at 2.
      rewrite <- (take_drop (length (JS.chars q)) (drop b (JS.chars t))) at 2.
      apply includes_list_infix.
  - left. split; [reflexivity | ].
    intros p Hp. apply not_true_is_false. intros Hinc.
    unfold JS.includes, JS.toLowerCase in Hinc. rewrite chars_str in Hinc.
    apply includes_list_starts in Hinc as [i Hi].
    specialize (H i). unfold phrase_at in H.
    apply list_elem_of_In in Hp.
    pose proof (find_none _ _ H p Hp) as Hn. cbn beta in Hn.
    assert (Hlow : map JS.lower (JS.chars p) = JS.chars p).
    { unfold title_phrases in Hp. cbn [In] in Hp.
      repeat (destruct Hp as [<- | Hp]; [reflexivity | ]). destruct Hp. }
    rewrite Hlow, <- skipn_map, Hi in Hn. discriminate Hn.
Qed.

(** ** The lines of the indexed text *)

Definition newline : ascii := "010"%char.

Definition no_newline (l : list ascii) : Prop := Forall (fun c => c <> newline) l.

Lemma split_lines_single (l : list ascii) :
  no_newline l -> split_lines l = [l].
Proof.
  induction l as [ | c l IH]; intros H; simpl; [reflexivity | ].
  apply Forall_cons in H as [Hc H].
  destruct (JS.ascii_eqb c "010") eqn:E.
  { apply Ascii.eqb_eq in E. contradiction. }
  rewrite (IH H). reflexivity.
Qed.

Lemma split_lines_app (l rest : list ascii) :
  no_newline l -> split_lines (l ++ newline :: rest) = l :: split_lines rest.
Proof.
  induction l as [ | c l IH]; intros H; simpl; [reflexivity | ].
  apply Forall_cons in H as [Hc H].
  destruct (JS.ascii_eqb c "010") eqn:E.
  { apply Ascii.eqb_eq in E. contradiction. }
  rewrite (IH H). reflexivity.
Qed.

Lemma split_join (ls : list (list ascii)) :
  ls <> [] -> Forall no_newline ls -> split_lines (join_lines ls) = ls.
Proof.
  induction ls as [ | l ls IH]; intros Hne H; [contradiction | ].
  apply Forall_cons in H as [Hl H].
  destruct ls as [ | l' ls'].
  - simpl. apply split_lines_single. exact Hl.
  - change (join_lines (l :: l' :: ls')) with (l ++ newline :: join_lines (l' :: ls')).
    rewrite split_lines_app by exact Hl. f_equal. apply IH; [discriminate | exact H].
Qed.

Lemma split_lines_no_newline (s : list ascii) : Forall no_newline (split_lines s).
Proof.
  induction s as [ | c s IH]; simpl; [repeat constructor | ].
  destruct (JS.ascii_eqb c "010") eqn:E; [constructor; [constructor | exact IH] | ].
  destruct (split_lines s) as [ | l ls]; [repeat constructor | ].
  - intros ->. discriminate E.
  - apply Forall_cons in IH as [Hl Hls]. constructor; [ | exact Hls].
    constructor; [ | exact Hl]. intros ->. discriminate E.
Qed.

Lemma uint_no_newline (d : Decimal.uint) :
  no_newline (JS.chars (NilEmpty.string_of_uint d)).
Proof.
  induction d; simpl; try (constructor; [discriminate | assumption]). constructor.
Qed.

Lemma decimal_no_newline (n : nat) : no_newline (decimal n).
Proof.
  unfold decimal, NilZero.string_of_uint.
  destruct (Nat.to_uint n) eqn:E; try (rewrite <- E; apply uint_no_newline).
  repeat constructor. discriminate.
Qed.

Lemma line_marker_no_newline (n : nat) : no_newline (line_marker n).
Proof.
  unfold line_marker, no_newline. rewrite !Forall_app. split; [ | split].
  - repeat constructor; discriminate.
  - apply decimal_no_newline.
  - repeat constructor; discriminate.
Qed.

Lemma index_lines_no_newline (ls : list (list ascii)) :
  Forall no_newline ls -> Forall no_newline (index_lines ls).
Proof.
  unfold index_lines. intros H. apply Forall_forall. intros x Hx.
  apply elem_of_lookup_imap in Hx as (i & l & -> & Hl).
  unfold no_newline. rewrite Forall_app. split; [apply line_marker_no_newline | ].
  rewrite Forall_forall in H. apply (H l). apply list_elem_of_lookup. eauto.
Qed.

(** X16: the indexed text has exactly the lines of the raw text, each
    behind its marker: split at the newlines again, it gives line [n] of
    the raw text prefixed with ["[LINE n] "], for every [n]. *)
Theorem indexed_text_lines (rawText : list ascii) :
  split_lines (indexed_text rawText) = index_lines (split_lines rawText) /\
  length (split_lines (indexed_text rawText)) = length (split_lines rawText) /\
  forall n line, split_lines rawText !! n = Some line ->
    split_lines (indexed_text rawText) !! n = Some (line_marker (n + 1) ++ line).
Proof.
  assert (H : split_lines (indexed_text rawText) = index_lines (split_lines rawText)).
  { unfold indexed_text. apply split_join.
    - unfold index_lines. intros E. apply (f_equal length) in E.
      rewrite length_imap in E. simpl in E.
      pose proof (split_lines_nonempty rawText).
      destruct (split_lines rawText); [contradiction | discriminate E].
    - apply index_lines_no_newline. apply split_lines_no_newline. }
  split; [exact H | ]. rewrite H. split.
  - unfold index_lines. apply length_imap.
  - intros n line Hn. unfold index_lines. rewrite list_lookup_imap, Hn. reflexivity.
Qed.
